(** * Muse Weaver AI Bridge: a shallow embedding of [types.ts], [ai-client.ts],
    [main.ts] and the handlers of [settings.ts], and the properties of the
    specification and of the code proved over it.

    Conventions of the embedding.
    - A JavaScript string is a [string]; each [ascii] stands for one code unit
      (the model covers the code units U+0000..U+00FF).
    - A [Record<string, V>] is a finite map [gmap string V].
    - An optional or deletable property is an [option]: [None] is the absent
      property, [delete s.p] writes [None].
    - Code that can throw returns an [outcome]; code that talks to the network
      or the console also returns the list of [event]s it performed.
    - What the platform supplies (numbers, the wording of engine errors, the
      [URL] parser, the i18n table) is a field of the class [Platform]. *)

From Stdlib Require Import ZArith NArith Ascii String List Bool Lia Sorted.
From Stdlib Require Import Numbers.DecimalString.
From stdpp Require Import base option gmap strings list.

Set Warnings "-register-all".

(** ** JavaScript values common to the three files *)

Module Js.

(** [!!s] on a string: the empty string is the only falsy one. *)
Definition truthy (s : string) : bool :=
  match s with
  | EmptyString => false
  | String _ _ => true
  end.

(** A value thrown by the code or by the engine. [callAi] reads it through
    [e instanceof Error ? e.message : String(e)]. *)
Inductive exn :=
| Error (message : string)
| Thrown (text : string).

Inductive outcome (A : Type) :=
| Ret (a : A)
| Throw (e : exn).
Arguments Ret {A} a.
Arguments Throw {A} e.

Definition bind {A B} (m : outcome A) (f : A -> outcome B) : outcome B :=
  match m with
  | Ret a => f a
  | Throw e => Throw e
  end.

(** Truthiness of [o?.p] when the property is a string: [undefined] is falsy. *)
Definition truthy_opt (o : option string) : bool :=
  match o with
  | Some s => truthy s
  | None => false
  end.

(** [a || b] where [a] is a string or [undefined] and [b] a string. *)
Definition or_else (a : option string) (b : string) : string :=
  match a with
  | Some s => if truthy s then s else b
  | None => b
  end.

End Js.

(** What the host platform provides and the repository does not define. *)
Class Platform := {
  (** JavaScript numbers (IEEE doubles), with [!!n] and [String(n)]. *)
  number : Type;
  number_truthy : number -> bool;
  number_toString : number -> string;
  number_zero : number;
  (** The message of the [TypeError] the engine raises at a given expression. *)
  typeErrorMessage : string -> string;
  (** [new URL(url)]: [None] when it throws, else [(origin, pathname)]. *)
  URL : string -> option (string * string);
  (** [t.ollamaLocal] of the i18n table. *)
  ollamaLocal : string;
}.

(** ** types.ts *)

Module Types.
Import Js.

(** Per-provider credentials. *)
Record ProviderConfig := {
  cfg_apiKey : string;
  cfg_model : string;
}.

Record MusePersona := {
  id : string;
  name : string;
  icon : string;
  tone : string;
  firstPerson : string;
  speechStyle : string;
}.

Record MusePersonaSettings := {
  selected : string;
  custom : option MusePersona;
}.

(** A value of type [unknown], as far as [typeof v === "string"] and its
    truthiness tell it apart. *)
Inductive unknown :=
| UString (s : string)
| UOther.

(** [AiSettings], as [loadData] can hand it to [migrateSettings]: the
    deprecated flat fields and [ollamaModel] may be present, [providers],
    [persona] and [persona.custom] may be missing. *)
Record AiSettings := {
  enabled : bool;
  provider : string;
  apiKey : option string;
  model : option string;
  ollamaModel : option unknown;
  providers : option (gmap string ProviderConfig);
  ollamaUrl : string;
  persona : option MusePersonaSettings;
}.

Definition DEFAULT_PERSONA_CUSTOM : MusePersona :=
  {| id := "custom"; name := "Muse"; icon := "moon";
     tone := ""; firstPerson := ""; speechStyle := "" |}.

Definition DEFAULT_PERSONA_SETTINGS : MusePersonaSettings :=
  {| selected := "default"; custom := Some DEFAULT_PERSONA_CUSTOM |}.

Definition DEFAULT_AI_SETTINGS : AiSettings :=
  {| enabled := false; provider := "gemini";
     apiKey := None; model := None; ollamaModel := None;
     providers := Some ∅;
     ollamaUrl := "http://localhost:11434";
     persona := Some DEFAULT_PERSONA_SETTINGS |}.

(** Provider display info. *)
Record ProviderInfo := {
  info_id : string;
  info_name : string;
  defaultModel : string;
  needsApiKey : bool;
}.

Section WithPlatform.
Context `{Platform}.

Definition PROVIDERS : list ProviderInfo :=
  [ {| info_id := "gemini"; info_name := "Google Gemini";
       defaultModel := "gemini-2.5-flash"; needsApiKey := true |};
    {| info_id := "openai"; info_name := "OpenAI";
       defaultModel := "gpt-4o-mini"; needsApiKey := true |};
    {| info_id := "anthropic"; info_name := "Anthropic";
       defaultModel := "claude-sonnet-4-20250514"; needsApiKey := true |};
    {| info_id := "ollama"; info_name := ollamaLocal;
       defaultModel := "gemma3:12b"; needsApiKey := false |} ].

(** [PROVIDERS.find((p) => p.id === id)] *)
Definition findProvider (pid : string) : option ProviderInfo :=
  List.find (fun p => String.eqb (info_id p) pid) PROVIDERS.

(** [s.providers[s.provider]]: a [TypeError] when [s.providers] is missing. *)
Definition providerSlot (s : AiSettings) : outcome (option ProviderConfig) :=
  match providers s with
  | Some ps => Ret (ps !! provider s)
  | None => Throw (Error (typeErrorMessage "s.providers[s.provider]"))
  end.

(** [getApiKey]: [s.providers[s.provider]?.apiKey || ""] *)
Definition getApiKey (s : AiSettings) : outcome string :=
  bind (providerSlot s) (fun slot =>
  Ret (or_else (cfg_apiKey <$> slot) "")).

(** [getModel]:
    [s.providers[s.provider]?.model || provider?.defaultModel || ""] *)
Definition getModel (s : AiSettings) : outcome string :=
  let provider := findProvider (provider s) in
  bind (providerSlot s) (fun slot =>
  Ret (or_else (cfg_model <$> slot) (or_else (defaultModel <$> provider) ""))).

End WithPlatform.

(** *** migrateSettings *)

Definition emptyConfig : ProviderConfig := {| cfg_apiKey := ""; cfg_model := "" |}.

(** [if (!ps[k]) ps[k] = { apiKey: "", model: "" }] *)
Definition ensureSlot (k : string) (ps : gmap string ProviderConfig)
  : gmap string ProviderConfig :=
  match ps !! k with
  | Some _ => ps
  | None => <[k := emptyConfig]> ps
  end.

(** [ps[k].apiKey = v] and [ps[k].model = v], the slot being there. *)
Definition setApiKey (k v : string) (ps : gmap string ProviderConfig)
  : gmap string ProviderConfig :=
  alter (fun c => {| cfg_apiKey := v; cfg_model := cfg_model c |}) k ps.

Definition setModel (k v : string) (ps : gmap string ProviderConfig)
  : gmap string ProviderConfig :=
  alter (fun c => {| cfg_apiKey := cfg_apiKey c; cfg_model := v |}) k ps.

(** Lines 85-88: the flat [apiKey] goes to the active provider's empty slot. *)
Definition migrateApiKey (legacy : option string) (p : string)
    (ps : gmap string ProviderConfig) : gmap string ProviderConfig :=
  if truthy_opt legacy && negb (truthy_opt (cfg_apiKey <$> ps !! p))
  then setApiKey p (default "" legacy) (ensureSlot p ps)
  else ps.

(** Lines 89-92: the same for the flat [model]. *)
Definition migrateModel (legacy : option string) (p : string)
    (ps : gmap string ProviderConfig) : gmap string ProviderConfig :=
  if truthy_opt legacy && negb (truthy_opt (cfg_model <$> ps !! p))
  then setModel p (default "" legacy) (ensureSlot p ps)
  else ps.

(** [old.ollamaModel && typeof old.ollamaModel === "string"] *)
Definition ollamaModelString (o : option unknown) : option string :=
  match o with
  | Some (UString m) => if truthy m then Some m else None
  | _ => None
  end.

(** Lines 95-99: the providers map and the [ollamaModel] property afterwards. *)
Definition migrateOllamaModel (o : option unknown)
    (ps : gmap string ProviderConfig)
  : gmap string ProviderConfig * option unknown :=
  match ollamaModelString o with
  | Some m =>
      let ps1 := ensureSlot "ollama" ps in
      let ps2 := if negb (truthy_opt (cfg_model <$> ps1 !! "ollama"))
                 then setModel "ollama" m ps1 else ps1 in
      (ps2, None)
  | None => (ps, o)
  end.

(** Lines 101-106: persona settings and their [custom] part exist afterwards;
    [JSON.parse(JSON.stringify(x))] is a copy of [x]. *)
Definition ensurePersona (o : option MusePersonaSettings) : MusePersonaSettings :=
  let pe := default DEFAULT_PERSONA_SETTINGS o in
  match custom pe with
  | Some _ => pe
  | None => {| selected := selected pe; custom := Some DEFAULT_PERSONA_CUSTOM |}
  end.

Definition migrateSettings (s : AiSettings) : AiSettings :=
  (* if (!s.providers) s.providers = {} *)
  let ps0 := default ∅ (providers s) in
  let ps1 := migrateApiKey (apiKey s) (provider s) ps0 in
  let ps2 := migrateModel (model s) (provider s) ps1 in
  let r := migrateOllamaModel (ollamaModel s) ps2 in
  {| enabled := enabled s;
     provider := provider s;
     (* delete s.apiKey; delete s.model *)
     apiKey := None;
     model := None;
     ollamaModel := r.2;
     providers := Some r.1;
     ollamaUrl := ollamaUrl s;
     persona := Some (ensurePersona (persona s)) |}.

(** *** Ollama model diagnostics *)

Record JapaneseRating := {
  rating : string;
  recommended : bool;
}.

(** The table, in the order the object literal lists its keys (the order of
    [Object.keys], none of the keys being an array index). *)
Definition JAPANESE_RATINGS : list (string * JapaneseRating) :=
  [ ("qwen3", {| rating := "◎"; recommended := true |});
    ("qwen2.5", {| rating := "◎"; recommended := true |});
    ("qwen2", {| rating := "◎"; recommended := true |});
    ("gemma3", {| rating := "○"; recommended := false |});
    ("gemma2", {| rating := "○"; recommended := false |});
    ("command-r", {| rating := "○"; recommended := false |});
    ("llama3", {| rating := "△"; recommended := false |});
    ("llama3.1", {| rating := "△"; recommended := false |});
    ("llama3.2", {| rating := "△"; recommended := false |});
    ("phi-3", {| rating := "△"; recommended := false |});
    ("phi-4", {| rating := "△"; recommended := false |});
    ("mistral", {| rating := "△"; recommended := false |}) ].

(** [xs.sort(cmp)]: the sort is stable, so it is the insertion of each element
    after the ones that do not compare greater. *)
Fixpoint sortInsert {A} (cmp : A -> A -> Z) (x : A) (l : list A) : list A :=
  match l with
  | [] => [x]
  | y :: l' => if (cmp x y <? 0)%Z then x :: y :: l' else y :: sortInsert cmp x l'
  end.

Definition sort {A} (cmp : A -> A -> Z) (l : list A) : list A :=
  fold_left (fun acc x => sortInsert cmp x acc) l [].

(** [(a, b) => b.length - a.length] *)
Definition byLengthDesc (a b : string) : Z :=
  (Z.of_nat (String.length b) - Z.of_nat (String.length a))%Z.

(** [JAPANESE_RATINGS[family]]: the entry of [family], when it is a key. *)
Definition ratingOf (family : string) : option JapaneseRating :=
  snd <$> List.find (fun e => String.eqb (fst e) family) JAPANESE_RATINGS.

(** The loop of [getJapaneseRating]: the first family of [sorted] that
    [modelName] starts with. *)
Definition matchedFamily (modelName : string) : option string :=
  let sorted := sort byLengthDesc (map fst JAPANESE_RATINGS) in
  List.find (fun family => String.prefix family modelName) sorted.

(** [sorted] holds keys of the table only, so the lookup of the matched family
    finds its entry. *)
Definition getJapaneseRating (modelName : string) : JapaneseRating :=
  match matchedFamily modelName with
  | Some family =>
      default {| rating := "?"; recommended := false |} (ratingOf family)
  | None => {| rating := "?"; recommended := false |}
  end.

End Types.


(** ** Regular expressions and [String.prototype.replace]

    The fragment of the regular expressions of [ai-client.ts]: character
    classes, sequence, alternation, a greedy [?], greedy [*] and [+] on a class,
    and one capturing group. Matching backtracks as the engine's does: a
    continuation is tried on the longest candidate first. *)

Module Regex.

Definition chars := list ascii.

Inductive regex :=
| Eps
| Chr (cls : ascii -> bool)
| Seq (r1 r2 : regex)
| Alt (r1 r2 : regex)
| Opt (r : regex)
| Star (cls : ascii -> bool)
| Group (r : regex).

(** [cls+] *)
Definition Plus (cls : ascii -> bool) : regex := Seq (Chr cls) (Star cls).

(** [cls*] followed by [k], greedy. *)
Fixpoint star {A} (cls : ascii -> bool) (s : chars) (k : chars -> option A)
  : option A :=
  match s with
  | c :: s' =>
      if cls c
      then match star cls s' k with
           | Some a => Some a
           | None => k s
           end
      else k s
  | [] => k []
  end.

(** [run r s cap k]: match [r] at the head of [s], then [k] on what is left
    and on the text captured by the group. *)
Fixpoint run {A} (r : regex) (s : chars) (cap : option chars)
    (k : chars -> option chars -> option A) : option A :=
  match r with
  | Eps => k s cap
  | Chr cls =>
      match s with
      | c :: s' => if cls c then k s' cap else None
      | [] => None
      end
  | Seq r1 r2 => run r1 s cap (fun s' cap' => run r2 s' cap' k)
  | Alt r1 r2 =>
      match run r1 s cap k with
      | Some a => Some a
      | None => run r2 s cap k
      end
  | Opt r1 =>
      match run r1 s cap k with
      | Some a => Some a
      | None => k s cap
      end
  | Star cls => star cls s (fun s' => k s' cap)
  | Group r1 =>
      run r1 s cap (fun s' _ => k s' (Some (take (length s - length s') s)))
  end.

(** A match of [r] at the head of [s]: its length and the capture [$1]. *)
Definition exec (r : regex) (s : chars) : option (nat * option chars) :=
  run r s None (fun s' cap => Some (length s - length s', cap)).

(** [s.replace(/r/g, repl)], where [repl] gets the matched text and [$1].
    [skip] counts the characters of the last match still to be passed. *)
Fixpoint replaceFrom (r : regex) (repl : chars -> option chars -> chars)
    (skip : nat) (s : chars) : chars :=
  match s with
  | [] =>
      match skip, exec r [] with
      | 0, Some (_, cap) => repl [] cap
      | _, _ => []
      end
  | c :: s' =>
      match skip with
      | S n => replaceFrom r repl n s'
      | 0 =>
          match exec r s with
          | Some (0, cap) => repl [] cap ++ c :: replaceFrom r repl 0 s'
          | Some (S n, cap) => repl (take (S n) s) cap ++ replaceFrom r repl n s'
          | None => c :: replaceFrom r repl 0 s'
          end
      end
  end.

Definition replaceGlobal (r : regex) (repl : chars -> option chars -> chars)
    (s : chars) : chars :=
  replaceFrom r repl 0 s.

(** [s.replace(/r/, repl)]: the leftmost match only. *)
Fixpoint replaceFirst (r : regex) (repl : chars -> option chars -> chars)
    (s : chars) : chars :=
  match exec r s with
  | Some (n, cap) => repl (take n s) cap ++ drop n s
  | None =>
      match s with
      | [] => []
      | c :: s' => c :: replaceFirst r repl s'
      end
  end.

(** [s.replaceAll(pattern, replacement)] for a non-empty string pattern. *)
Fixpoint startsWith (pattern s : chars) : bool :=
  match pattern, s with
  | [], _ => true
  | p :: pattern', c :: s' => Ascii.eqb p c && startsWith pattern' s'
  | _ :: _, [] => false
  end.

Fixpoint replaceAllFrom (pattern replacement : chars) (skip : nat) (s : chars)
  : chars :=
  match s with
  | [] => []
  | c :: s' =>
      match skip with
      | S n => replaceAllFrom pattern replacement n s'
      | 0 =>
          if startsWith pattern s
          then replacement ++ replaceAllFrom pattern replacement (length pattern - 1) s'
          else c :: replaceAllFrom pattern replacement 0 s'
      end
  end.

Definition replaceAll (pattern replacement s : chars) : chars :=
  replaceAllFrom pattern replacement 0 s.

(** *** Character classes *)

Definition code (c : ascii) : N := N_of_ascii c.

(** [\s] on the code units below 256: TAB, LF, VT, FF, CR, SP and NBSP. *)
Definition isSpace (c : ascii) : bool :=
  ((9 <=? code c) && (code c <=? 13) || (code c =? 32) || (code c =? 160))%N.

(** [\S] and [[^\s]] *)
Definition notSpace (c : ascii) : bool := negb (isSpace c).

(** [.]: anything but a line terminator. *)
Definition dot (c : ascii) : bool :=
  negb ((code c =? 10) || (code c =? 13))%N.

(** A literal character, and the same under the [i] flag: a pattern letter
    matches its two cases, any other pattern character only itself. *)
Definition isChar (p : ascii) (c : ascii) : bool := Ascii.eqb p c.

Definition lower (c : ascii) : ascii :=
  if ((65 <=? code c) && (code c <=? 90))%N
  then ascii_of_N (code c + 32) else c.

Definition isCI (p : ascii) (c : ascii) : bool := Ascii.eqb (lower p) (lower c).

(** A literal string: its characters in sequence. *)
Fixpoint lit (eqc : ascii -> ascii -> bool) (l : chars) : regex :=
  match l with
  | [] => Eps
  | p :: l' => Seq (Chr (eqc p)) (lit eqc l')
  end.

End Regex.

(** ** ai-client.ts *)

Module AiClient.
Import Js Types Regex.

Definition txt (s : string) : chars := list_ascii_of_string s.
Definition str (t : chars) : string := string_of_list_ascii t.

(** *** redactError *)

(** [/[?&](key|api_key|apikey|token|access_token)=[^&\s]*/gi] *)
Definition secretParamNames : regex :=
  Alt (lit isCI (txt "key"))
 (Alt (lit isCI (txt "api_key"))
 (Alt (lit isCI (txt "apikey"))
 (Alt (lit isCI (txt "token"))
      (lit isCI (txt "access_token"))))).

Definition paramValueChar (c : ascii) : bool :=
  negb (isChar "&" c || isSpace c).

Definition queryParamPattern : regex :=
  Seq (Chr (fun c => isChar "?" c || isChar "&" c))
 (Seq (Group secretParamNames)
 (Seq (Chr (isCI "="))
      (Star paramValueChar))).

(** ["?$1=[REDACTED]"] *)
Definition queryParamReplacement (_ : chars) (cap : option chars) : chars :=
  txt "?" ++ default [] cap ++ txt "=[REDACTED]".

(** [/Authorization:\s*(Bearer\s+)?\S+/gi] *)
Definition authorizationPattern : regex :=
  Seq (lit isCI (txt "Authorization:"))
 (Seq (Star isSpace)
 (Seq (Opt (Group (Seq (lit isCI (txt "Bearer")) (Plus isSpace))))
      (Plus notSpace))).

(** [/x-goog-api-key:\s*\S+/gi] and [/x-api-key:\s*\S+/gi] *)
Definition headerPattern (header : string) : regex :=
  Seq (lit isCI (txt header)) (Seq (Star isSpace) (Plus notSpace)).

(** [/https?:\/\/[^\s]*\?[^\s]*/g] *)
Definition urlPattern : regex :=
  Seq (lit isChar (txt "http"))
 (Seq (Opt (Chr (isChar "s")))
 (Seq (lit isChar (txt "://"))
 (Seq (Star notSpace)
 (Seq (Chr (isChar "?"))
      (Star notSpace))))).

(** [/\?.*/] *)
Definition queryStringPattern : regex := Seq (Chr (isChar "?")) (Star dot).

Definition constant (s : string) (_ : chars) (_ : option chars) : chars := txt s.

Section WithPlatform.
Context `{Platform}.

(** The callback of the last replacement: the URL without its query string,
    by [new URL] or, when that throws, by [queryStringPattern]. *)
Definition redactUrl (url : chars) (_ : option chars) : chars :=
  match URL (str url) with
  | Some (origin, pathname) => txt origin ++ txt pathname ++ txt "?[QUERY_REDACTED]"
  | None => replaceFirst queryStringPattern (constant "?[QUERY_REDACTED]") url
  end.

(** The five steps of [redactError], in the order of the source. *)
Definition redactKnownKey (apiKey : option string) (safe : chars) : chars :=
  match apiKey with
  | Some k =>
      if truthy k && (4 <? String.length k)
      then replaceAll (txt k) (txt "[REDACTED]") safe
      else safe
  | None => safe
  end.

Definition redactQueryParams (safe : chars) : chars :=
  replaceGlobal queryParamPattern queryParamReplacement safe.

Definition redactAuthorization (safe : chars) : chars :=
  replaceGlobal authorizationPattern (constant "Authorization: [REDACTED]") safe.

Definition redactGoogApiKey (safe : chars) : chars :=
  replaceGlobal (headerPattern "x-goog-api-key:")
    (constant "x-goog-api-key: [REDACTED]") safe.

Definition redactXApiKey (safe : chars) : chars :=
  replaceGlobal (headerPattern "x-api-key:")
    (constant "x-api-key: [REDACTED]") safe.

Definition redactUrls (safe : chars) : chars :=
  replaceGlobal urlPattern redactUrl safe.

Definition redactError (error : string) (apiKey : option string) : string :=
  let safe := txt error in
  let safe := redactKnownKey apiKey safe in
  let safe := redactQueryParams safe in
  let safe := redactAuthorization safe in
  let safe := redactGoogApiKey safe in
  let safe := redactXApiKey safe in
  let safe := redactUrls safe in
  str safe.

(** *** Values read from a response body *)

(** What [res.json()] yields, and [undefined] for what optional chaining
    yields on a missing part. An object is the list of its own properties. *)
Inductive value :=
| VUndefined
| VNull
| VBool (b : bool)
| VNum (n : number)
| VStr (s : string)
| VArr (items : list value)
| VObj (fields : list (string * value)).

(** [!!v] *)
Definition truthyV (v : value) : bool :=
  match v with
  | VUndefined | VNull => false
  | VBool b => b
  | VNum n => number_truthy n
  | VStr s => truthy s
  | VArr _ | VObj _ => true
  end.

(** [a || b] *)
Definition orV (a b : value) : value := if truthyV a then a else b.

(** [v === "lit"] *)
Definition isStr (v : value) (s : string) : bool :=
  match v with
  | VStr s' => String.eqb s' s
  | _ => false
  end.

Definition ownProp (fields : list (string * value)) (k : string) : option value :=
  snd <$> List.find (fun f => String.eqb (fst f) k) fields.

(** [v?.k] for the property names the adapters read, none of which a
    prototype defines: only an object can have one. *)
Definition get (v : value) (k : string) : value :=
  match v with
  | VObj fields => default VUndefined (ownProp fields k)
  | _ => VUndefined
  end.

(** [v?.[0]] *)
Definition at0 (v : value) : value :=
  match v with
  | VArr items => default VUndefined (head items)
  | VObj fields => default VUndefined (ownProp fields "0")
  | VStr (String c _) => VStr (String c "")
  | _ => VUndefined
  end.

(** [String(v)], as a template literal computes it. An object whose own
    [toString] property shadows the inherited method cannot be converted. *)
Fixpoint toStr (v : value) : outcome string :=
  match v with
  | VUndefined => Ret "undefined"
  | VNull => Ret "null"
  | VBool b => Ret (if b then "true" else "false")
  | VNum n => Ret (number_toString n)
  | VStr s => Ret s
  | VArr items =>
      let element x :=
        match x with
        | VUndefined | VNull => Ret ""
        | _ => toStr x
        end in
      (fix join (l : list value) : outcome string :=
         match l with
         | [] => Ret ""
         | [x] => element x
         | x :: l' =>
             bind (element x) (fun a =>
             bind (join l') (fun b => Ret (a +:+ "," +:+ b)))
         end) items
  | VObj fields =>
      match ownProp fields "toString" with
      | Some _ => Throw (Error (typeErrorMessage "String(object)"))
      | None => Ret "[object Object]"
      end
  end.

(** *** Requests, responses and effects *)

Record AiRequest := {
  system : string;
  message : string;
  maxTokens : number;
}.

Record AiResponse := {
  ok : bool;
  text : option value;
  error : option string;
}.

Definition success (t : value) : AiResponse :=
  {| ok := true; text := Some t; error := None |}.

Definition failure (e : string) : AiResponse :=
  {| ok := false; text := None; error := Some e |}.

Record RequestInit := {
  method : string;
  headers : list (string * string);
  body : option value;   (* the value handed to [JSON.stringify] *)
}.

(** A [Response]: its status and what [res.json()] settles to. *)
Record Response := {
  status : N;
  json : outcome value;
}.

(** [res.ok] *)
Definition res_ok (res : Response) : bool :=
  ((200 <=? status res) && (status res <=? 299))%N.

(** How a [fetch] under the abort timer ends. *)
Inductive fetched :=
| Fulfilled (res : Response)
| Aborted
| Rejected (e : exn).

Inductive event :=
| Fetch (url : string) (init : RequestInit) (timeoutMs : N)
| ReadJson
| Warn (label : string) (detail : option value).

(** A computation: how it ends and what it did, in order. *)
Definition io (A : Type) : Type := outcome A * list event.

Definition ioret {A} (a : A) : io A := (Ret a, []).

Definition iobind {A B} (m : io A) (f : A -> io B) : io B :=
  match m.1 with
  | Ret a => ((f a).1, m.2 ++ (f a).2)
  | Throw e => (Throw e, m.2)
  end.

Definition lift {A} (o : outcome A) : io A := (o, []).

Definition emit (e : event) : io unit := (Ret tt, [e]).

Definition when (b : bool) (m : io unit) : io unit := if b then m else ioret tt.

(** [try { m } catch (e) { handler e }] *)
Definition tryCatch {A} (m : io A) (handler : exn -> io A) : io A :=
  match m.1 with
  | Ret a => m
  | Throw e => ((handler e).1, m.2 ++ (handler e).2)
  end.

Notation "'do' x <- m ;; k" := (iobind m (fun x => k))
  (at level 10, x name, m at level 20, k at level 200, only parsing).

(** Timeout for AI API calls (ms) *)
Definition FETCH_TIMEOUT_MS : N := 30000.

(** The network: how the [fetch] of a request ends. *)
Variable network : string -> RequestInit -> N -> fetched.

(** [fetchWithTimeout]: an abort by the timer becomes
    [new Error("Request timed out")], any other rejection is thrown on. *)
Definition fetchWithTimeout (url : string) (options : RequestInit)
    (timeoutMs : N) : io Response :=
  do _ <- emit (Fetch url options timeoutMs) ;;
  match network url options timeoutMs with
  | Fulfilled res => ioret res
  | Aborted => lift (Throw (Error "Request timed out"))
  | Rejected e => lift (Throw e)
  end.

(** [await res.json()] *)
Definition readJson (res : Response) : io value :=
  do _ <- emit ReadJson ;; lift (json res).

(** [`${res.status}`] *)
Definition showStatus (n : N) : string := NilZero.string_of_uint (N.to_uint n).

Definition requestFailed (res : Response) : AiResponse :=
  failure ("Request failed, status " +:+ showStatus (status res)).

Definition jsonHeaders (more : list (string * string)) : list (string * string) :=
  ("Content-Type", "application/json") :: more.

(** **** Gemini *)

(** [(r) => r.probability !== "NEGLIGIBLE" && r.probability !== "LOW"];
    reading a property of [null] or [undefined] throws. *)
Definition isFlagged (r : value) : outcome bool :=
  match r with
  | VUndefined | VNull => Throw (Error (typeErrorMessage "r.probability"))
  | _ =>
      Ret (negb (isStr (get r "probability") "NEGLIGIBLE")
           && negb (isStr (get r "probability") "LOW"))
  end.

Fixpoint filterM (f : value -> outcome bool) (l : list value)
  : outcome (list value) :=
  match l with
  | [] => Ret []
  | x :: l' =>
      bind (f x) (fun keep =>
      bind (filterM f l') (fun rest =>
      Ret (if keep then x :: rest else rest)))
  end.

(** [safetyRatings.filter(...)]: only an array has the method. *)
Definition flaggedRatings (safetyRatings : value) : outcome (list value) :=
  match safetyRatings with
  | VArr items => filterM isFlagged items
  | _ => Throw (Error (typeErrorMessage "safetyRatings.filter"))
  end.

(** The diagnostic of lines 157-162. *)
Definition emptyDetail (blockReason finishReason : value) : outcome string :=
  let detail := "Empty response from Gemini" in
  if truthyV blockReason then
    bind (toStr blockReason) (fun b => Ret (detail +:+ " (blocked: " +:+ b +:+ ")"))
  else if isStr finishReason "SAFETY" then
    Ret (detail +:+ " (safety filter triggered)")
  else if isStr finishReason "MAX_TOKENS" then
    Ret (detail +:+ " (output truncated: max tokens reached)")
  else if isStr finishReason "RECITATION" then
    Ret (detail +:+ " (blocked: recitation)")
  else if truthyV finishReason then
    bind (toStr finishReason) (fun f => Ret (detail +:+ " (finishReason: " +:+ f +:+ ")"))
  else Ret detail.

(** [candidate?.content?.parts?.[0]?.text] with
    [candidate = data?.candidates?.[0]] *)
Definition geminiText (data : value) : value :=
  get (at0 (get (get (at0 (get data "candidates")) "content") "parts")) "text".

Definition geminiBody (req : AiRequest) : value :=
  VObj [ ("systemInstruction", VObj [("parts", VArr [VObj [("text", VStr (system req))]])]);
         ("contents", VArr [VObj [("parts", VArr [VObj [("text", VStr (message req))]])]]);
         ("generationConfig",
            VObj [ ("maxOutputTokens", VNum (maxTokens req));
                   ("thinkingConfig", VObj [("thinkingBudget", VNum number_zero)]) ]) ].

Definition callGemini (apiKey model : string) (req : AiRequest) : io AiResponse :=
  let url := "https://generativelanguage.googleapis.com/v1beta/models/"
             +:+ model +:+ ":generateContent" in
  do res <- fetchWithTimeout url
           {| method := "POST";
              headers := jsonHeaders [("x-goog-api-key", apiKey)];
              body := Some (geminiBody req) |} FETCH_TIMEOUT_MS ;;
  if negb (res_ok res) then ioret (requestFailed res) else
  do data <- readJson res ;;
  let candidate := at0 (get data "candidates") in
  let finishReason := get candidate "finishReason" in
  let blockReason := get (get data "promptFeedback") "blockReason" in
  let safetyRatings :=
    orV (get candidate "safetyRatings")
        (get (get data "promptFeedback") "safetyRatings") in
  do _ <- when (truthyV finishReason && negb (isStr finishReason "STOP"))
         (emit (Warn "[MWAB Gemini] finishReason:" (Some finishReason))) ;;
  do _ <- when (truthyV blockReason)
         (emit (Warn "[MWAB Gemini] blockReason:" (Some blockReason))) ;;
  do _ <- (if truthyV safetyRatings then
          do flagged <- lift (flaggedRatings safetyRatings) ;;
          when (0 <? length flagged)
            (emit (Warn "[MWAB Gemini] safety flags:" (Some (VArr flagged))))
        else ioret tt) ;;
  let text := geminiText data in
  if negb (truthyV text) then
    do detail <- lift (emptyDetail blockReason finishReason) ;;
    ioret (failure detail)
  else
    do _ <- when (isStr finishReason "MAX_TOKENS")
           (emit (Warn "[MWAB Gemini] Response may be truncated (MAX_TOKENS)" None)) ;;
    ioret (success text).

(** **** OpenAI *)

Definition chatMessages (req : AiRequest) : value :=
  VArr [ VObj [("role", VStr "system"); ("content", VStr (system req))];
         VObj [("role", VStr "user"); ("content", VStr (message req))] ].

(** [data?.choices?.[0]?.message?.content] *)
Definition openAiText (data : value) : value :=
  get (get (at0 (get data "choices")) "message") "content".

(** [text ? { ok: true, text } : { ok: false, error }] *)
Definition textOr (t : value) (e : string) : AiResponse :=
  if truthyV t then success t else failure e.

Definition callOpenAi (apiKey model : string) (req : AiRequest) : io AiResponse :=
  do res <- fetchWithTimeout "https://api.openai.com/v1/chat/completions"
           {| method := "POST";
              headers := jsonHeaders [("Authorization", "Bearer " +:+ apiKey)];
              body := Some (VObj [ ("model", VStr model);
                                   ("messages", chatMessages req);
                                   ("max_tokens", VNum (maxTokens req)) ]) |}
           FETCH_TIMEOUT_MS ;;
  if negb (res_ok res) then ioret (requestFailed res) else
  do data <- readJson res ;;
  ioret (textOr (openAiText data) "Empty response from OpenAI").

(** **** Anthropic *)

(** [data?.content?.[0]?.text] *)
Definition anthropicText (data : value) : value :=
  get (at0 (get data "content")) "text".

Definition callAnthropic (apiKey model : string) (req : AiRequest) : io AiResponse :=
  do res <- fetchWithTimeout "https://api.anthropic.com/v1/messages"
           {| method := "POST";
              headers := jsonHeaders
                [ ("x-api-key", apiKey);
                  ("anthropic-version", "2023-06-01");
                  ("anthropic-dangerous-direct-browser-access", "true") ];
              body := Some (VObj [ ("model", VStr model);
                                   ("max_tokens", VNum (maxTokens req));
                                   ("system", VStr (system req));
                                   ("messages",
                                      VArr [VObj [("role", VStr "user");
                                                  ("content", VStr (message req))]]) ]) |}
           FETCH_TIMEOUT_MS ;;
  if negb (res_ok res) then ioret (requestFailed res) else
  do data <- readJson res ;;
  ioret (textOr (anthropicText data) "Empty response from Anthropic").

(** **** Ollama *)

(** [data?.message?.content] *)
Definition ollamaText (data : value) : value :=
  get (get data "message") "content".

Definition callOllama (baseUrl model : string) (req : AiRequest) : io AiResponse :=
  let url := baseUrl +:+ "/api/chat" in
  do res <- fetchWithTimeout url
           {| method := "POST";
              headers := jsonHeaders [];
              body := Some (VObj [ ("model", VStr model);
                                   ("messages", chatMessages req);
                                   ("stream", VBool false);
                                   ("options", VObj [("num_predict", VNum (maxTokens req))]) ]) |}
           FETCH_TIMEOUT_MS ;;
  if negb (res_ok res) then ioret (requestFailed res) else
  do data <- readJson res ;;
  ioret (textOr (ollamaText data) "Empty response from Ollama").

(** **** callAi *)

(** [e instanceof Error ? e.message : String(e)] *)
Definition rawMessage (e : exn) : string :=
  match e with
  | Error m => m
  | Thrown t => t
  end.

Definition callAi (settings : AiSettings) (req : AiRequest) : io AiResponse :=
  let provider := provider settings in
  do apiKey <- lift (getApiKey settings) ;;
  do model <- lift (getModel settings) ;;
  tryCatch
    (if String.eqb provider "gemini" then callGemini apiKey model req
     else if String.eqb provider "openai" then callOpenAi apiKey model req
     else if String.eqb provider "anthropic" then callAnthropic apiKey model req
     else if String.eqb provider "ollama" then
       callOllama (ollamaUrl settings) model req
     else ioret (failure ("Unknown provider: " +:+ provider)))
    (fun e => ioret (failure (redactError (rawMessage e) (Some apiKey)))).

End WithPlatform.

End AiClient.

(** ** main.ts *)

Module Main.
Import Js Types.

Section WithPlatform.
Context `{Platform}.

(** [isConfigured], on [this.settings]. *)
Definition isConfigured (settings : AiSettings) : outcome bool :=
  if negb (enabled settings) then Ret false else
  match findProvider (provider settings) with
  | None => Ret false
  | Some provider =>
      if needsApiKey provider then
        bind (getApiKey settings) (fun key =>
        if negb (truthy key) then Ret false else Ret true)
      else Ret true
  end.

End WithPlatform.

End Main.

(** ** types.ts: [diagnoseModel] *)

Module Diagnostics.
Import Js Types Regex AiClient.

Record ModelDiagnostics := {
  parameterSize : string;
  japaneseRating : string;
  recommendedContext : string;
  note : option string;
}.

(** [\w], and whether the character before or after a position is one (there
    is none at either end of the text). *)
Definition isWord (c : ascii) : bool :=
  ((48 <=? code c) && (code c <=? 57)
   || (65 <=? code c) && (code c <=? 90)
   || (97 <=? code c) && (code c <=? 122)
   || (code c =? 95))%N.

Definition isWordAt (o : option ascii) : bool :=
  match o with
  | Some c => isWord c
  | None => false
  end.

(** [\b] at the position between [prev] and [next]. *)
Definition wordBoundary (prev next : option ascii) : bool :=
  xorb (isWordAt prev) (isWordAt next).

(** [/\b r/.test(s)]: [r] matches at some word boundary of the text;
    [prev] is the character before [s]. *)
Fixpoint testFrom (r : regex) (prev : option ascii) (s : chars) : bool :=
  (wordBoundary prev (head s)
   && match exec r s with Some _ => true | None => false end)
  || match s with
     | [] => false
     | c :: s' => testFrom r (Some c) s'
     end.

Definition test (r : regex) (s : string) : bool := testFrom r None (txt s).

(** [[lo-hi]] *)
Definition inRange (lo hi : ascii) (c : ascii) : bool :=
  ((code lo <=? code c) && (code c <=? code hi))%N.

(** [/\b[1-3]B/i] *)
Definition sizeSmall : regex :=
  Seq (Chr (inRange "1" "3")) (Chr (isCI "B")).

(** [/\b[78]B/i] *)
Definition size8B : regex :=
  Seq (Chr (fun c => isCI "7" c || isCI "8" c)) (Chr (isCI "B")).

(** [/\b1[0-4]B/i] *)
Definition size14B : regex :=
  Seq (Chr (isCI "1")) (Seq (Chr (inRange "0" "4")) (Chr (isCI "B"))).

(** [/\b(2[0-9]|3[0-4])B/i] *)
Definition sizeMid : regex :=
  Seq (Group (Alt (Seq (Chr (isCI "2")) (Chr (inRange "0" "9")))
                  (Seq (Chr (isCI "3")) (Chr (inRange "0" "4")))))
      (Chr (isCI "B")).

(** [/\b(70|72)B/i] *)
Definition sizeLarge : regex :=
  Seq (Group (Alt (lit isCI (txt "70")) (lit isCI (txt "72"))))
      (Chr (isCI "B")).

Definition diagnoseModel (modelName paramSize : string) : ModelDiagnostics :=
  let jpInfo := getJapaneseRating modelName in
  let advice :=
    if test sizeSmall paramSize then ("128k", Some "ollama.diagNoteSmall")
    else if test size8B paramSize then ("32k", Some "ollama.diagNote8B")
    else if test size14B paramSize then ("32k", Some "ollama.diagNote14B")
    else if test sizeMid paramSize then ("16k", Some "ollama.diagNoteMid")
    else if test sizeLarge paramSize then ("8k", Some "ollama.diagNoteLarge")
    else ("8k", None) in
  {| parameterSize := paramSize;
     japaneseRating := rating jpInfo;
     recommendedContext := advice.1;
     note := advice.2 |}.

End Diagnostics.

(** ** ai-client.ts: the Ollama model endpoints *)

Module OllamaApi.
Import Js Types AiClient.

Section WithPlatform.
Context `{Platform}.
Variable network : string -> RequestInit -> N -> fetched.

Notation "'do' x <- m ;; k" := (iobind m (fun x => k))
  (at level 10, x name, m at level 20, k at level 200, only parsing).

(** [Array.isArray(data?.models) ? data.models : []] *)
Definition modelsOf (data : value) : list value :=
  match get data "models" with
  | VArr items => items
  | _ => []
  end.

(** [listOllamaModels] *)
Definition listOllamaModels (baseUrl : string) : io (list value) :=
  tryCatch
    (do res <- fetchWithTimeout network (baseUrl +:+ "/api/tags")
                 {| method := "GET"; headers := []; body := None |} 5000 ;;
     if negb (res_ok res) then ioret [] else
     do data <- readJson res ;;
     ioret (modelsOf data))
    (fun _ => ioret []).

(** [data?.details ?? null] *)
Definition detailsOf (data : value) : value :=
  match get data "details" with
  | VUndefined | VNull => VNull
  | details => details
  end.

(** [showOllamaModel] *)
Definition showOllamaModel (baseUrl modelName : string) : io value :=
  tryCatch
    (do res <- fetchWithTimeout network (baseUrl +:+ "/api/show")
                 {| method := "POST";
                    headers := jsonHeaders [];
                    body := Some (VObj [("model", VStr modelName)]) |} 5000 ;;
     if negb (res_ok res) then ioret VNull else
     do data <- readJson res ;;
     ioret (detailsOf data))
    (fun _ => ioret VNull).

End WithPlatform.

End OllamaApi.

(** ** main.ts: [getProviderName], [loadSettings] *)

Module Plugin.
Import Js Types.

(** What [loadData] yields when something was saved: a plain object, each of
    whose properties may be absent; [providers] and [persona] may also be
    present and [null]. *)
Record SavedData := {
  saved_enabled : option bool;
  saved_provider : option string;
  saved_apiKey : option string;
  saved_model : option string;
  saved_ollamaModel : option unknown;
  saved_providers : option (option (gmap string ProviderConfig));
  saved_ollamaUrl : option string;
  saved_persona : option (option MusePersonaSettings);
}.

(** [Object.assign({}, DEFAULT_AI_SETTINGS, data)]: the properties of [data]
    over those of the defaults; [data] is [null] when nothing was saved. *)
Definition assignDefaults (data : option SavedData) : AiSettings :=
  match data with
  | None => DEFAULT_AI_SETTINGS
  | Some d =>
      {| enabled := default (enabled DEFAULT_AI_SETTINGS) (saved_enabled d);
         provider := default (provider DEFAULT_AI_SETTINGS) (saved_provider d);
         apiKey := saved_apiKey d;
         model := saved_model d;
         ollamaModel := saved_ollamaModel d;
         providers := default (providers DEFAULT_AI_SETTINGS) (saved_providers d);
         ollamaUrl := default (ollamaUrl DEFAULT_AI_SETTINGS) (saved_ollamaUrl d);
         persona := default (persona DEFAULT_AI_SETTINGS) (saved_persona d) |}
  end.

(** [loadSettings]: the new [this.settings], which is also what it saves. *)
Definition loadSettings (data : option SavedData) : AiSettings :=
  migrateSettings (assignDefaults data).

(** What a later [loadData] yields after [saveData(settings)]: the properties
    the object has. *)
Definition savedOf (s : AiSettings) : SavedData :=
  {| saved_enabled := Some (enabled s);
     saved_provider := Some (provider s);
     saved_apiKey := apiKey s;
     saved_model := model s;
     saved_ollamaModel := ollamaModel s;
     saved_providers := Some <$> providers s;
     saved_ollamaUrl := Some (ollamaUrl s);
     saved_persona := Some <$> persona s |}.

Section WithPlatform.
Context `{Platform}.

(** [getProviderName]:
    [PROVIDERS.find((p) => p.id === provider)?.name || "Unknown"] *)
Definition getProviderName (settings : AiSettings) : string :=
  or_else (info_name <$> findProvider (provider settings)) "Unknown".

End WithPlatform.

End Plugin.

(** ** settings.ts: the handlers that write the settings *)

Module SettingTab.
Import Js Types Regex AiClient.

(** [v.trim()]: white space and line terminators off both ends. *)
Fixpoint trimStart (s : chars) : chars :=
  match s with
  | c :: s' => if isSpace c then trimStart s' else s
  | [] => []
  end.

Definition trimEnd (s : chars) : chars := rev (trimStart (rev s)).

Definition trim (v : string) : string := str (trimEnd (trimStart (txt v))).

Definition withProviders (s : AiSettings) (ps : gmap string ProviderConfig)
  : AiSettings :=
  {| enabled := enabled s; provider := provider s;
     apiKey := apiKey s; model := model s; ollamaModel := ollamaModel s;
     providers := Some ps;
     ollamaUrl := ollamaUrl s; persona := persona s |}.

Section WithPlatform.
Context `{Platform}.

(** [s.providers], read to index it: a [TypeError] when it is missing. *)
Definition providersOf (s : AiSettings) : outcome (gmap string ProviderConfig) :=
  match providers s with
  | Some ps => Ret ps
  | None => Throw (Error (typeErrorMessage "s.providers[id]"))
  end.

(** [ensureProvider(id)] *)
Definition ensureProvider (id : string) (s : AiSettings) : outcome AiSettings :=
  bind (providersOf s) (fun ps => Ret (withProviders s (ensureSlot id ps))).

(** The API key field: [this.ensureProvider(s.provider);
    s.providers[s.provider].apiKey = v.trim()]; the result is saved. *)
Definition onApiKeyChange (v : string) (s : AiSettings) : outcome AiSettings :=
  bind (ensureProvider (provider s) s) (fun s1 =>
  bind (providersOf s1) (fun ps =>
  Ret (withProviders s1 (setApiKey (provider s1) (trim v) ps)))).

(** The model field of the cloud providers. *)
Definition onModelChange (v : string) (s : AiSettings) : outcome AiSettings :=
  bind (ensureProvider (provider s) s) (fun s1 =>
  bind (providersOf s1) (fun ps =>
  Ret (withProviders s1 (setModel (provider s1) (trim v) ps)))).

(** The keys of [noteMap] in [showOllamaDiagnostics]. *)
Definition noteMapKeys : list string :=
  [ "ollama.diagNoteLarge"; "ollama.diagNoteSmall"; "ollama.diagNote8B";
    "ollama.diagNote14B"; "ollama.diagNoteMid" ].


(** [lang] of the missing module [i18n], and the sign of a difference of two
    sizes. *)
Variable lang : string.
Variable minus : number -> number -> Z.




End WithPlatform.

(** The Ollama URL field: [s.ollamaUrl = v.trim() || "http://localhost:11434"] *)
Definition onOllamaUrlChange (v : string) (s : AiSettings) : AiSettings :=
  {| enabled := enabled s; provider := provider s;
     apiKey := apiKey s; model := model s; ollamaModel := ollamaModel s;
     providers := providers s;
     ollamaUrl := or_else (Some (trim v)) "http://localhost:11434";
     persona := persona s |}.

End SettingTab.

(** * Properties *)

(** The inputs of the closed examples. *)
Module Example.
Import Js Types AiClient.

(** A platform: integers for numbers, an engine that words every [TypeError]
    the same way, and a [URL] parser that rejects every text (no example
    redacts a URL). *)
Definition platform : Platform :=
  {| number := Z;
     number_truthy := fun z => negb (z =? 0)%Z;
     number_toString := fun z => NilZero.string_of_int (Z.to_int z);
     number_zero := 0%Z;
     typeErrorMessage := fun what => what +:+ " is not valid";
     URL := fun _ => None;
     ollamaLocal := "Ollama (Local)" |}.

(** Settings saved by v0.1.0 with an empty [ollamaModel]. *)
Definition emptyOllamaModel : AiSettings :=
  {| enabled := true; provider := "gemini";
     apiKey := Some "flat-key"; model := Some "flat-model";
     ollamaModel := Some (UString "");
     providers := None;
     ollamaUrl := "http://localhost:11434";
     persona := None |}.

(** Settings that carry both a stored per-provider slot and the flat fields. *)
Definition storedSlot : ProviderConfig :=
  {| cfg_apiKey := "stored-key"; cfg_model := "stored-model" |}.

Definition storedAndFlat : AiSettings :=
  {| enabled := true; provider := "gemini";
     apiKey := Some "flat-key"; model := Some "flat-model";
     ollamaModel := Some (UString "llama3");
     providers := Some {[ "gemini" := storedSlot ]};
     ollamaUrl := "http://localhost:11434";
     persona := None |}.

(** A network that answers every request with the response [res]. *)
Definition answering `{Platform} (res : Response) : string -> RequestInit -> N -> fetched :=
  fun _ _ _ => Fulfilled res.

(** "401 Unauthorized" with a body that is not JSON. *)
Definition unauthorized : Response (H := platform) :=
  @Build_Response platform 401 (Throw (Error "Unexpected token U in JSON")).

(** A 200 response with the body [data]. *)
Definition ok200 (data : value (H := platform)) : Response (H := platform) :=
  @Build_Response platform 200 (Ret data).

(** A Gemini body without content: the candidate was stopped for safety. *)
Definition noContent : value (H := platform) :=
  VObj [("candidates", VArr [VObj [("finishReason", VStr "SAFETY")]])].

(** A body without content whose safety ratings are an object keyed by
    category, not an array. *)
Definition ratingsByCategory : value (H := platform) :=
  VObj [("candidates",
         VArr [VObj [("safetyRatings",
                      VObj [("HARM_CATEGORY_HARASSMENT", VStr "HIGH")])]])].

Definition request : AiRequest (H := platform) :=
  @Build_AiRequest platform "You are a helpful assistant." "Hello!" 100%Z.

(** Settings whose provider id is none of the known ones. *)
Definition unknownProvider : AiSettings :=
  {| enabled := true; provider := "mistral";
     apiKey := None; model := None; ollamaModel := None;
     providers := Some ∅;
     ollamaUrl := "http://localhost:11434";
     persona := Some DEFAULT_PERSONA_SETTINGS |}.

(** A network on which every request runs into the abort timer. *)
Definition timingOut `{Platform} : string -> RequestInit -> N -> fetched :=
  fun _ _ _ => Aborted.

(** An OpenAI body with content. *)
Definition openAiAnswer : value (H := platform) :=
  VObj [("choices", VArr [VObj [("message", VObj [("content", VStr "Hi!")])]])].


Definition openAiSettings : AiSettings :=
  {| enabled := true; provider := "openai";
     apiKey := None; model := None; ollamaModel := None;
     providers := Some {[ "openai" := storedSlot ]};
     ollamaUrl := "http://localhost:11434";
     persona := Some DEFAULT_PERSONA_SETTINGS |}.

End Example.

(** The vocabulary of the statements and of their proofs. *)
Module Spec.
Import Js Types Regex AiClient.

(** *** Settings *)

(** The provider ids of [PROVIDERS]. *)
Definition knownProviders : list string := ["gemini"; "openai"; "anthropic"; "ollama"].

(** [kept c c']: the non-empty fields of the slot [c] are those of [c']. *)
Definition kept (c c' : ProviderConfig) : Prop :=
  (cfg_apiKey c <> "" -> cfg_apiKey c' = cfg_apiKey c) /\
  (cfg_model c <> "" -> cfg_model c' = cfg_model c).

(** The map [ps] has a slot at [k] that keeps the non-empty fields of [c]. *)
Definition keeps (k : string) (c : ProviderConfig)
    (ps : gmap string ProviderConfig) : Prop :=
  exists c', ps !! k = Some c' /\ kept c c'.

(** *** Ratings *)

(** The keys of [JAPANESE_RATINGS]. *)
Definition families : list string := map fst JAPANESE_RATINGS.

(** What [getJapaneseRating] returns for a name of no known family. *)
Definition unknownRating : JapaneseRating := {| rating := "?"; recommended := false |}.

(** The order [byLengthDesc] sorts into: longest first. *)
Definition longerFirst (a b : string) : Prop := String.length b <= String.length a.

(** *** Matching in direct style *)

(** A literal at the head of a text. *)
Fixpoint matchesLit (eqc : ascii -> ascii -> bool) (l s : chars) : bool :=
  match l, s with
  | [], _ => true
  | p :: l', c :: s' => eqc p c && matchesLit eqc l' s'
  | _ :: _, [] => false
  end.

(** The longest run of a class at the head of a text, and what follows it. *)
Fixpoint takeClass (cls : ascii -> bool) (s : chars) : chars :=
  match s with
  | c :: s' => if cls c then c :: takeClass cls s' else []
  | [] => []
  end.

Fixpoint dropClass (cls : ascii -> bool) (s : chars) : chars :=
  match s with
  | c :: s' => if cls c then dropClass cls s' else s
  | [] => []
  end.

(** The first alternative that matches. *)
Definition orElse {A} (a b : option A) : option A :=
  match a with
  | Some x => Some x
  | None => b
  end.

(** Two literals that differ, case apart, where both have a character. *)
Fixpoint clash (n' n : chars) : bool :=
  match n', n with
  | p :: n'', q :: n2 => negb (isCI p q) || clash n'' n2
  | _, _ => false
  end.

(** *** The query-parameter step *)

(** The alternatives of [secretParamNames], in their order. *)
Definition secretNames : list string :=
  ["key"; "api_key"; "apikey"; "token"; "access_token"].

(** [name] spells [n] up to the case of its letters. *)
Definition sameCI (n name : chars) : Prop :=
  Forall2 (fun p c => isCI p c = true) n name.

(** [[?&]] *)
Definition isSeparator (c : ascii) : bool := isChar "?" c || isChar "&" c.

(** [queryParamPattern] at the head of [s = c :: s1], once the name [n] is
    chosen: the name, [=], and the longest run of value characters. *)
Definition afterName (s s1 : chars) (n : string) : option (nat * option chars) :=
  if matchesLit isCI (txt n) s1 then
    match drop (length (txt n)) s1 with
    | e :: s3 =>
        if isCI "=" e
        then Some (length s - length (dropClass paramValueChar s3),
                   Some (take (length s1 - length (e :: s3)) s1))
        else None
    | [] => None
    end
  else None.

(** [queryParamPattern] at the head of [s], in direct style. *)
Definition matchQueryParam (s : chars) : option (nat * option chars) :=
  match s with
  | [] => None
  | c :: s1 =>
      if isSeparator c then
        orElse (afterName s s1 "key")
       (orElse (afterName s s1 "api_key")
       (orElse (afterName s s1 "apikey")
       (orElse (afterName s s1 "token")
               (afterName s s1 "access_token"))))
      else None
  end.

(** *** Responses *)

Section WithPlatform.
Context `{Platform}.

(** The part of the Gemini response schema that [callGemini] relies on:
    the safety ratings it reads, when there are any, are an array of entries
    other than [null]; the two reasons, when present, are strings. *)
Definition ratingsShaped (safetyRatings : value) : bool :=
  match safetyRatings with
  | VArr items =>
      forallb (fun r => match r with VUndefined | VNull => false | _ => true end) items
  | v => negb (truthyV v)
  end.

Definition reasonShaped (reason : value) : bool :=
  match reason with
  | VUndefined | VNull | VStr _ => true
  | _ => false
  end.

Definition geminiShaped (data : value) : bool :=
  let candidate := at0 (get data "candidates") in
  ratingsShaped (orV (get candidate "safetyRatings")
                     (get (get data "promptFeedback") "safetyRatings"))
  && reasonShaped (get (get data "promptFeedback") "blockReason")
  && reasonShaped (get candidate "finishReason").

(** The content field each provider's adapter extracts. *)
Definition contentOf (provider : string) (data : value) : value :=
  if String.eqb provider "gemini" then geminiText data
  else if String.eqb provider "openai" then openAiText data
  else if String.eqb provider "anthropic" then anthropicText data
  else ollamaText data.

(** How [callGemini] ends on a 2xx response with the body [data]. *)
Definition geminiEnd (data : value) : outcome AiResponse :=
  let candidate := at0 (get data "candidates") in
  let finishReason := get candidate "finishReason" in
  let blockReason := get (get data "promptFeedback") "blockReason" in
  let safetyRatings :=
    orV (get candidate "safetyRatings")
        (get (get data "promptFeedback") "safetyRatings") in
  bind (if truthyV safetyRatings
        then bind (flaggedRatings safetyRatings) (fun _ => Ret tt)
        else Ret tt) (fun _ =>
  if negb (truthyV (geminiText data))
  then bind (emptyDetail blockReason finishReason) (fun d => Ret (failure d))
  else Ret (success (geminiText data))).

(** A [TypeError] raised by the engine. *)
Definition isTypeError (e : exn) : Prop :=
  exists what, e = Error (typeErrorMessage what).

End WithPlatform.

End Spec.

(** The vocabulary of the further properties. *)
Module MoreSpec.
Import Js Types Regex AiClient Diagnostics.

(** *** Settings *)

(** The slot of the active provider, and what it stores. *)
Definition activeSlot (s : AiSettings) : option ProviderConfig :=
  providers s ≫= (.!! provider s).

Definition storedKey (s : AiSettings) : option string := cfg_apiKey <$> activeSlot s.

Definition storedModel (s : AiSettings) : option string := cfg_model <$> activeSlot s.

(** The legacy [ollamaModel], as far as it concerns the active provider. *)
Definition legacyOllamaModel (s : AiSettings) : option string :=
  if String.eqb (provider s) "ollama" then ollamaModelString (ollamaModel s) else None.

(** Settings in the per-provider format: no flat field that migration would
    move, the providers map and the persona with its custom part in place. *)
Definition migrated (s : AiSettings) : Prop :=
  apiKey s = None /\ model s = None /\
  ollamaModelString (ollamaModel s) = None /\
  is_Some (providers s) /\
  exists pe, persona s = Some pe /\ is_Some (custom pe).

(** *** Texts *)

(** [pattern] occurs in [s]. *)
Fixpoint occurs (pattern s : chars) : bool :=
  startsWith pattern s ||
  match s with
  | [] => false
  | _ :: s' => occurs pattern s'
  end.

(** A character that none of the patterns of [redactError] can start from or
    do without. *)
Definition plainChar (c : ascii) : bool :=
  negb (isChar "?" c || isChar "&" c || isChar ":" c).

(** Every character, and whether every match of [r] holds a character of the
    class [bad]. *)
Definition allAscii : list ascii := map ascii_of_nat (seq 0 256).

Fixpoint needs (bad : ascii -> bool) (r : regex) : bool :=
  match r with
  | Eps => false
  | Chr cls => forallb (fun c => negb (cls c) || bad c) allAscii
  | Seq r1 r2 => needs bad r1 || needs bad r2
  | Alt r1 r2 => needs bad r1 && needs bad r2
  | Opt _ => false
  | Star _ => false
  | Group r1 => needs bad r1
  end.

(** No match of [r] starts in [pre], the text going on with [rest]. *)
Fixpoint quiet (r : regex) (pre rest : chars) : bool :=
  match pre with
  | [] => true
  | _ :: pre' =>
      match exec r (pre ++ rest) with
      | None => quiet r pre' rest
      | Some _ => false
      end
  end.

(** A text without square brackets. *)
Definition bracketFree (k : chars) : bool :=
  forallb (fun c => negb (isChar "[" c || isChar "]" c)) k.

(** A text without a character of [bad]. *)
Definition clean (bad : ascii -> bool) (s : chars) : Prop :=
  Forall (fun c => bad c = false) s.

(** The end of a run of characters of a class: the end of the text, or a
    character outside the class. *)
Definition endsRun (cls : ascii -> bool) (post : chars) : Prop :=
  post = [] \/ exists c post', post = c :: post' /\ cls c = false.

(** *** Effects *)

Section WithPlatform.
Context `{Platform}.

Definition isFetch (e : event) : bool :=
  match e with
  | Fetch _ _ _ => true
  | _ => false
  end.

(** How many times a computation called [fetch]. *)
Definition fetches (events : list event) : nat := length (filter isFetch events).

(** A result as the interface [AiResponse] means it: a success with a
    non-empty text and no error, or a failure with an error and no text. *)
Definition settled (r : AiResponse) : Prop :=
  (ok r = true /\ error r = None /\ exists t, text r = Some t /\ truthyV t = true) \/
  (ok r = false /\ text r = None /\ is_Some (error r)).

(** The events of one request under the timer of [FETCH_TIMEOUT_MS]. *)
Definition oneRequest (events : list event) : Prop :=
  exists url init rest,
    events = Fetch url init FETCH_TIMEOUT_MS :: rest /\ fetches rest = 0.

(** An adapter run: if it returns, the result is settled; it made one
    request. *)
Definition adapterRun (a : io AiResponse) : Prop :=
  match a.1 with
  | Ret r => settled r
  | Throw _ => True
  end /\ oneRequest a.2.

(** What [fetchWithTimeout] throws when the request is not answered. *)
Definition thrownBy (f : fetched) : option exn :=
  match f with
  | Fulfilled _ => None
  | Aborted => Some (Error "Request timed out")
  | Rejected e => Some e
  end.

(** The known key, when [redactError] replaces it, occurs in the message. *)
Definition mentions (apiKey : option string) (error : string) : bool :=
  match apiKey with
  | Some k => truthy k && (4 <? String.length k) && occurs (txt k) (txt error)
  | None => false
  end.

End WithPlatform.

(** *** Parameter sizes *)

(** A decimal digit, and a digit or the decimal point. *)
Definition isDigit (c : ascii) : bool := inRange "0" "9" c.

Definition isDigitOrDot (c : ascii) : bool := isDigit c || isChar "." c.

(** [String(n)] for a natural number. *)
Definition showNat (n : nat) : string := NilZero.string_of_uint (Nat.to_uint n).

(** The advice of [diagnoseModel] for a size of [n] billion parameters. *)
Definition sizeAdvice (n : nat) : string * option string :=
  if (1 <=? n) && (n <=? 3) then ("128k", Some "ollama.diagNoteSmall")
  else if (7 <=? n) && (n <=? 8) then ("32k", Some "ollama.diagNote8B")
  else if (10 <=? n) && (n <=? 14) then ("32k", Some "ollama.diagNote14B")
  else if (20 <=? n) && (n <=? 34) then ("16k", Some "ollama.diagNoteMid")
  else if (n =? 70) || (n =? 72) then ("8k", Some "ollama.diagNoteLarge")
  else ("8k", None).

(** The five patterns [diagnoseModel] tests, in its order. *)
Definition sizePatterns : list regex := [sizeSmall; size8B; size14B; sizeMid; sizeLarge].

(** The advice part of a diagnosis. *)
Definition adviceOf (d : ModelDiagnostics) : string * option string :=
  (recommendedContext d, note d).

End MoreSpec.

(** ** Settings: [getApiKey], [migrateSettings] *)

Module TypesProps.
Import Js Types Spec.

Lemma truthy_true s : truthy s = true <-> s <> "".
Proof. destruct s; simpl; split; congruence. Qed.

Lemma truthy_false s : truthy s = false <-> s = "".
Proof. destruct s; simpl; split; congruence. Qed.

Lemma migrateApiKey_absent p ps : migrateApiKey None p ps = ps.
Proof. reflexivity. Qed.

Lemma migrateModel_absent p ps : migrateModel None p ps = ps.
Proof. reflexivity. Qed.

(** What is left of [ollamaModel] never triggers the block of lines 95-99
    again. *)
Lemma ollamaModelString_left o ps :
  ollamaModelString (migrateOllamaModel o ps).2 = None.
Proof.
  unfold migrateOllamaModel.
  destruct (ollamaModelString o) eqn:E; simpl; [reflexivity | exact E].
Qed.

Lemma migrateOllamaModel_done o ps :
  ollamaModelString o = None -> migrateOllamaModel o ps = (ps, o).
Proof. unfold migrateOllamaModel. intros ->. reflexivity. Qed.

Lemma ensurePersona_custom o : is_Some (custom (ensurePersona o)).
Proof.
  unfold ensurePersona.
  destruct (custom (default DEFAULT_PERSONA_SETTINGS o)) eqn:E; simpl; eauto.
Qed.

Lemma ensurePersona_idem o :
  ensurePersona (Some (ensurePersona o)) = ensurePersona o.
Proof.
  destruct (ensurePersona_custom o) as [c Hc].
  unfold ensurePersona at 1. simpl. rewrite Hc. reflexivity.
Qed.

Lemma migrateSettings_idempotent s :
  migrateSettings (migrateSettings s) = migrateSettings s.
Proof.
  unfold migrateSettings at 1. simpl.
  rewrite migrateApiKey_absent, migrateModel_absent.
  rewrite (migrateOllamaModel_done _ _ (ollamaModelString_left _ _)).
  rewrite ensurePersona_idem. reflexivity.
Qed.

(** After a run the providers map is there, as the type [AiSettings] has it. *)
Lemma migrateSettings_providers s : is_Some (providers (migrateSettings s)).
Proof. simpl. eauto. Qed.

(** [ollamaModel] is deleted exactly when it was a non-empty string. *)
Lemma migrateSettings_ollamaModel s :
  ollamaModel (migrateSettings s) =
    match ollamaModelString (ollamaModel s) with
    | Some _ => None
    | None => ollamaModel s
    end.
Proof.
  simpl. unfold migrateOllamaModel.
  destruct (ollamaModelString (ollamaModel s)); reflexivity.
Qed.

(** *** Stored per-provider values survive *)

Lemma keeps_start k c (ps : gmap string ProviderConfig) :
  ps !! k = Some c -> keeps k c ps.
Proof. intros Hk. exists c. split; [exact Hk | split; auto]. Qed.

Lemma ensureSlot_lookup k p c (ps : gmap string ProviderConfig) :
  ps !! k = Some c -> ensureSlot p ps !! k = Some c.
Proof.
  intros Hk. unfold ensureSlot. destruct (ps !! p) eqn:Hp; [exact Hk |].
  destruct (decide (p = k)) as [-> | Hne]; [congruence |].
  rewrite lookup_insert_ne; assumption.
Qed.

Lemma migrateApiKey_keeps legacy p k c ps :
  keeps k c ps -> keeps k c (migrateApiKey legacy p ps).
Proof.
  intros (c' & Hk & Ha & Hm). unfold migrateApiKey.
  destruct (truthy_opt legacy && negb (truthy_opt (cfg_apiKey <$> ps !! p)))
    eqn:Hcond; [| exists c'; repeat split; assumption].
  apply andb_prop in Hcond as [_ Hslot]. apply negb_true_iff in Hslot.
  unfold setApiKey. destruct (decide (p = k)) as [-> | Hne].
  - rewrite Hk in Hslot. simpl in Hslot. apply truthy_false in Hslot.
    eexists. split.
    + rewrite lookup_alter_eq, (ensureSlot_lookup _ _ _ _ Hk). reflexivity.
    + split; simpl; [| exact Hm].
      intros Hc. exfalso. apply Ha in Hc as Hc'. congruence.
  - exists c'. split; [| split; assumption].
    rewrite lookup_alter_ne by assumption. apply ensureSlot_lookup, Hk.
Qed.

Lemma migrateModel_keeps legacy p k c ps :
  keeps k c ps -> keeps k c (migrateModel legacy p ps).
Proof.
  intros (c' & Hk & Ha & Hm). unfold migrateModel.
  destruct (truthy_opt legacy && negb (truthy_opt (cfg_model <$> ps !! p)))
    eqn:Hcond; [| exists c'; repeat split; assumption].
  apply andb_prop in Hcond as [_ Hslot]. apply negb_true_iff in Hslot.
  unfold setModel. destruct (decide (p = k)) as [-> | Hne].
  - rewrite Hk in Hslot. simpl in Hslot. apply truthy_false in Hslot.
    eexists. split.
    + rewrite lookup_alter_eq, (ensureSlot_lookup _ _ _ _ Hk). reflexivity.
    + split; simpl; [exact Ha |].
      intros Hc. exfalso. apply Hm in Hc as Hc'. congruence.
  - exists c'. split; [| split; assumption].
    rewrite lookup_alter_ne by assumption. apply ensureSlot_lookup, Hk.
Qed.

Lemma migrateOllamaModel_keeps o k c ps :
  keeps k c ps -> keeps k c (migrateOllamaModel o ps).1.
Proof.
  intros (c' & Hk & Ha & Hm). unfold migrateOllamaModel.
  destruct (ollamaModelString o) as [m |]; simpl;
    [| exists c'; repeat split; assumption].
  pose proof (ensureSlot_lookup _ "ollama" _ _ Hk) as Hk'.
  destruct (negb (truthy_opt (cfg_model <$> ensureSlot "ollama" ps !! "ollama")))
    eqn:Hslot; [| exists c'; repeat split; assumption].
  apply negb_true_iff in Hslot.
  unfold setModel. destruct (decide ("ollama" = k)) as [<- | Hne].
  - rewrite Hk' in Hslot. simpl in Hslot. apply truthy_false in Hslot.
    eexists. split.
    + rewrite lookup_alter_eq, Hk'. reflexivity.
    + split; simpl; [exact Ha |].
      intros Hc. exfalso. apply Hm in Hc as Hc'. congruence.
  - exists c'. split; [| split; assumption].
    rewrite lookup_alter_ne by assumption. exact Hk'.
Qed.

Lemma migrateSettings_keeps s ps k c :
  providers s = Some ps -> ps !! k = Some c ->
  exists ps', providers (migrateSettings s) = Some ps' /\ keeps k c ps'.
Proof.
  intros Hps Hk. eexists. split; [reflexivity |].
  rewrite Hps. simpl.
  apply migrateOllamaModel_keeps, migrateModel_keeps, migrateApiKey_keeps.
  apply keeps_start, Hk.
Qed.

(** *** The claims on [migrateSettings] *)

(** C3, as the code has it. Migration is idempotent:
    [migrateSettings (migrateSettings s) = migrateSettings s] for every
    settings object. After one run the flat [apiKey] and [model] are gone;
    [ollamaModel] is gone when it was a non-empty string, and is left as it is
    otherwise (the [delete] sits inside the guard of line 95). *)
Theorem migrateSettings_idempotent_legacy s :
  migrateSettings (migrateSettings s) = migrateSettings s /\
  apiKey (migrateSettings s) = None /\
  model (migrateSettings s) = None /\
  ollamaModel (migrateSettings s) =
    match ollamaModelString (ollamaModel s) with
    | Some _ => None
    | None => ollamaModel s
    end.
Proof.
  split; [apply migrateSettings_idempotent |].
  split; [reflexivity |]. split; [reflexivity |].
  apply migrateSettings_ollamaModel.
Qed.

(** C3 as stated fails: an empty [ollamaModel] is still there after a run. *)
Lemma migrateSettings_keeps_empty_ollamaModel :
  ~ (migrateSettings (migrateSettings Example.emptyOllamaModel)
       = migrateSettings Example.emptyOllamaModel /\
     apiKey (migrateSettings Example.emptyOllamaModel) = None /\
     model (migrateSettings Example.emptyOllamaModel) = None /\
     ollamaModel (migrateSettings Example.emptyOllamaModel) = None).
Proof. intros (_ & _ & _ & Hgone). discriminate Hgone. Qed.

(** C8. [migrateSettings] never overwrites an existing per-provider value:
    a slot of the providers map whose [apiKey] (respectively [model]) is
    non-empty has the same [apiKey] (respectively [model]) after migration,
    whatever the flat [apiKey], [model] and [ollamaModel] fields hold. *)
Theorem migrateSettings_never_overwrites s ps k c :
  providers s = Some ps ->
  ps !! k = Some c ->
  exists ps' c',
    providers (migrateSettings s) = Some ps' /\
    ps' !! k = Some c' /\
    (cfg_apiKey c <> "" -> cfg_apiKey c' = cfg_apiKey c) /\
    (cfg_model c <> "" -> cfg_model c' = cfg_model c).
Proof.
  intros Hps Hk.
  destruct (migrateSettings_keeps s ps k c Hps Hk) as (ps' & Hps' & c' & Hk' & Hkept).
  exists ps', c'. split; [exact Hps' |]. split; [exact Hk' | exact Hkept].
Qed.

Lemma migrateSettings_never_overwrites_witness :
  exists ps' c',
    providers (migrateSettings Example.storedAndFlat) = Some ps' /\
    ps' !! "gemini" = Some c' /\
    (cfg_apiKey Example.storedSlot <> "" ->
       cfg_apiKey c' = cfg_apiKey Example.storedSlot) /\
    (cfg_model Example.storedSlot <> "" ->
       cfg_model c' = cfg_model Example.storedSlot).
Proof.
  apply (migrateSettings_never_overwrites Example.storedAndFlat
           {[ "gemini" := Example.storedSlot ]} "gemini" Example.storedSlot).
  - reflexivity.
  - reflexivity.
Defined.

(** C10. The flat [apiKey] and [model] are deleted at the end of every run,
    copied or not: when the active provider's slot already holds a non-empty
    value, the slot keeps it and the flat value is in neither place. *)
Theorem migrateSettings_discards_legacy s :
  apiKey (migrateSettings s) = None /\
  model (migrateSettings s) = None /\
  (forall ps c,
     providers s = Some ps -> ps !! provider s = Some c ->
     exists ps' c',
       providers (migrateSettings s) = Some ps' /\
       ps' !! provider s = Some c' /\
       (cfg_apiKey c <> "" -> cfg_apiKey c' = cfg_apiKey c) /\
       (cfg_model c <> "" -> cfg_model c' = cfg_model c)).
Proof.
  split; [reflexivity |]. split; [reflexivity |].
  intros ps c Hps Hk.
  destruct (migrateSettings_keeps s ps _ c Hps Hk) as (ps' & Hps' & c' & Hk' & Hkept).
  exists ps', c'. split; [exact Hps' |]. split; [exact Hk' | exact Hkept].
Qed.

(** The flat fields of [Example.storedAndFlat] are dropped without a trace. *)
Example migrateSettings_discards_flat_key :
  apiKey (migrateSettings Example.storedAndFlat) = None /\
  model (migrateSettings Example.storedAndFlat) = None /\
  (providers (migrateSettings Example.storedAndFlat) ≫= (.!! "gemini"))
    = Some Example.storedSlot.
Proof. repeat split; vm_compute; reflexivity. Qed.

(** *** [getJapaneseRating] *)

Section Sort.
Context {A : Type} (cmp : A -> A -> Z).

Lemma sortInsert_In x y l : In y (sortInsert cmp x l) <-> y = x \/ In y l.
Proof.
  induction l as [| a l IH]; simpl.
  - intuition.
  - destruct (cmp x a <? 0)%Z; simpl; [intuition |].
    rewrite IH. intuition.
Qed.

Lemma fold_sortInsert_In y l acc :
  In y (fold_left (fun acc x => sortInsert cmp x acc) l acc) <-> In y l \/ In y acc.
Proof.
  revert acc. induction l as [| a l IH]; intros acc; simpl.
  - intuition.
  - rewrite IH, sortInsert_In. intuition.
Qed.

Lemma sort_In y l : In y (sort cmp l) <-> In y l.
Proof. unfold sort. rewrite fold_sortInsert_In. simpl. intuition. Qed.

End Sort.

Lemma sortInsert_byLengthDesc_sorted x l :
  StronglySorted longerFirst l ->
  StronglySorted longerFirst (sortInsert byLengthDesc x l).
Proof.
  induction 1 as [| a l Hl IH Ha]; simpl.
  - repeat constructor.
  - unfold byLengthDesc at 1.
    destruct (Z.ltb_spec (Z.of_nat (String.length a) - Z.of_nat (String.length x)) 0)
      as [Hlt | Hge].
    + constructor; [constructor; assumption |].
      constructor; [unfold longerFirst; lia |].
      eapply Forall_impl; [exact Ha |].
      unfold longerFirst. intros b Hb. lia.
    + constructor; [exact IH |].
      apply List.Forall_forall. intros b Hb.
      apply sortInsert_In in Hb as [-> | Hb].
      * unfold longerFirst. lia.
      * rewrite List.Forall_forall in Ha. apply Ha, Hb.
Qed.

Lemma sort_byLengthDesc_sorted l : StronglySorted longerFirst (sort byLengthDesc l).
Proof.
  unfold sort.
  assert (Hacc : StronglySorted longerFirst (@nil string)) by constructor.
  revert Hacc. generalize (@nil string) as acc.
  induction l as [| a l IH]; intros acc Hacc; simpl; [exact Hacc |].
  apply IH, sortInsert_byLengthDesc_sorted, Hacc.
Qed.

(** The first hit in a list sorted longest first is a longest hit. *)
Lemma find_longest (p : string -> bool) l f :
  StronglySorted longerFirst l ->
  List.find p l = Some f ->
  forall g, In g l -> p g = true -> String.length g <= String.length f.
Proof.
  induction 1 as [| a l Hl IH Ha]; simpl; [discriminate |].
  destruct (p a) eqn:Hpa.
  - intros [= <-] g [<- | Hg] _; [lia |].
    rewrite List.Forall_forall in Ha. apply Ha, Hg.
  - intros Hf g [<- | Hg] Hpg; [congruence |].
    apply IH; assumption.
Qed.

Lemma ratingOf_family f : In f families -> is_Some (ratingOf f).
Proof.
  unfold families. simpl.
  intros H; repeat (destruct H as [<- | H]; [vm_compute; eauto |]); destruct H.
Qed.

(** C7. [getJapaneseRating] is a longest-prefix match on the family table:
    ["qwen2.5-7b"] resolves to the entry of ["qwen2.5"]; in general the family
    whose entry is returned is a key of the table, a prefix of the model name
    and at least as long as every other key that is a prefix of it; a name
    that no key is a prefix of gets the rating ["?"] and is not recommended. *)
Theorem getJapaneseRating_longest_prefix (modelName : string) :
  (matchedFamily "qwen2.5-7b" = Some "qwen2.5" /\
   ratingOf "qwen2.5" = Some (getJapaneseRating "qwen2.5-7b")) /\
  match matchedFamily modelName with
  | Some family =>
      In family families /\
      String.prefix family modelName = true /\
      (forall g, In g families -> String.prefix g modelName = true ->
                 String.length g <= String.length family) /\
      ratingOf family = Some (getJapaneseRating modelName)
  | None =>
      (forall g, In g families -> String.prefix g modelName = false) /\
      getJapaneseRating modelName = unknownRating
  end /\
  ((forall g, In g families -> String.prefix g modelName = false) ->
   getJapaneseRating modelName = unknownRating /\
   recommended (getJapaneseRating modelName) = false).
Proof.
  split; [split; vm_compute; reflexivity |].
  assert (Hnone : matchedFamily modelName = None ->
                  getJapaneseRating modelName = unknownRating).
  { unfold getJapaneseRating. intros ->. reflexivity. }
  split.
  - destruct (matchedFamily modelName) as [family |] eqn:Hm.
    + unfold matchedFamily in Hm.
      pose proof (find_some _ _ Hm) as [Hin Hpre].
      apply sort_In in Hin.
      split; [exact Hin |]. split; [exact Hpre |]. split.
      * intros g Hg Hpg.
        refine (find_longest _ _ _ (sort_byLengthDesc_sorted _) Hm g _ Hpg).
        apply sort_In, Hg.
      * unfold getJapaneseRating, matchedFamily. rewrite Hm.
        destruct (ratingOf_family family Hin) as [r ->]. reflexivity.
    + split; [| apply Hnone; reflexivity].
      intros g Hg. unfold matchedFamily in Hm.
      apply (find_none _ _ Hm), sort_In, Hg.
  - intros Hno.
    assert (Hm : matchedFamily modelName = None).
    { unfold matchedFamily.
      destruct (List.find _ _) as [f |] eqn:Hf; [| reflexivity].
      pose proof (find_some _ _ Hf) as [Hin Hpre].
      apply sort_In in Hin. rewrite (Hno f Hin) in Hpre. discriminate. }
    rewrite (Hnone Hm). split; reflexivity.
Qed.

End TypesProps.

(** ** [isConfigured] *)

Module MainProps.
Import Js Types Main Spec TypesProps.

Section WithPlatform.
Context `{Platform}.

Lemma PROVIDERS_ids : map info_id PROVIDERS = knownProviders.
Proof. reflexivity. Qed.

(** [PROVIDERS.find] by id: the entry of that id, if the id is known. *)
Lemma findProvider_spec p :
  match findProvider p with
  | Some info =>
      In p knownProviders /\
      forall info', In info' PROVIDERS -> info_id info' = p -> info' = info
  | None => ~ In p knownProviders
  end.
Proof.
  unfold findProvider, PROVIDERS, knownProviders. cbn [List.find info_id].
  repeat match goal with
  | |- context [String.eqb ?a p] =>
      destruct (String.eqb_spec a p) as [<- | ?]
  end;
  try (split; [cbn [In]; tauto |];
       intros info' Hin Hid; cbn [In] in Hin;
       repeat (destruct Hin as [<- | Hin]; [first [reflexivity | discriminate Hid] |]);
       destruct Hin).
  cbn [In]. intuition congruence.
Qed.

(** C4. [isConfigured] returns [true] if and only if the settings are
    enabled, the provider id is one of the four of [PROVIDERS], and, when that
    provider's [needsApiKey] flag is set, [getApiKey] resolves to a non-empty
    string. *)
Theorem isConfigured_iff (settings : AiSettings) :
  isConfigured settings = Ret true <->
  enabled settings = true /\
  In (provider settings) knownProviders /\
  (forall info,
     In info PROVIDERS -> info_id info = provider settings ->
     needsApiKey info = true ->
     exists key, getApiKey settings = Ret key /\ key <> "").
Proof.
  unfold isConfigured.
  pose proof (findProvider_spec (provider settings)) as Hfind.
  destruct (enabled settings); simpl;
    [| split; [discriminate | intros [? _]; discriminate]].
  destruct (findProvider (provider settings)) as [info |] eqn:Hf.
  - destruct Hfind as [Hknown Huniq].
    assert (Hin : In info PROVIDERS /\ info_id info = provider settings).
    { unfold findProvider in Hf. apply find_some in Hf as [Hin Hid].
      split; [exact Hin |]. apply String.eqb_eq, Hid. }
    destruct Hin as [Hin Hid].
    destruct (needsApiKey info) eqn:Hneeds.
    + destruct (getApiKey settings) as [key | e] eqn:Hkey; simpl.
      * destruct (truthy key) eqn:Ht; simpl.
        -- split; [| reflexivity]. intros _.
           split; [reflexivity |]. split; [exact Hknown |].
           intros info' Hin' Hid' _. exists key.
           split; [reflexivity |]. apply truthy_true, Ht.
        -- split; [discriminate |]. intros (_ & _ & Hk).
           destruct (Hk info Hin Hid Hneeds) as (key' & [= <-] & Hne).
           apply truthy_false in Ht. contradiction.
      * split; [discriminate |]. intros (_ & _ & Hk).
        destruct (Hk info Hin Hid Hneeds) as (key' & Hk' & _). discriminate.
    + split; [| reflexivity]. intros _.
      split; [reflexivity |]. split; [exact Hknown |].
      intros info' Hin' Hid' Hneeds'.
      rewrite (Huniq info' Hin' Hid') in Hneeds'. congruence.
  - split; [discriminate |]. intros (_ & Hknown & _). contradiction.
Qed.

End WithPlatform.

End MainProps.

(** ** Matching and replacing *)

Module RegexProps.
Import Regex Spec.

Lemma run_lit {A} eqc l s cap (k : chars -> option chars -> option A) :
  run (lit eqc l) s cap k =
    if matchesLit eqc l s then k (drop (length l) s) cap else None.
Proof.
  revert s. induction l as [| p l IH]; intros s; simpl; [reflexivity |].
  destruct s as [| c s]; [reflexivity |].
  destruct (eqc p c); simpl; [apply IH | reflexivity].
Qed.

(** A continuation that accepts whatever is left gets the whole run. *)
Lemma star_greedy {A} cls s (k : chars -> option A) :
  (forall t, k t <> None) -> star cls s k = k (dropClass cls s).
Proof.
  intros Hk. induction s as [| c s IH]; simpl; [reflexivity |].
  destruct (cls c); [| reflexivity].
  rewrite IH. destruct (k (dropClass cls s)) eqn:E; [reflexivity |].
  exfalso. exact (Hk _ E).
Qed.

Lemma take_drop_class cls s : takeClass cls s ++ dropClass cls s = s.
Proof.
  induction s as [| c s IH]; simpl; [reflexivity |].
  destruct (cls c); simpl; [rewrite IH |]; reflexivity.
Qed.

Lemma takeClass_all cls v post :
  Forall (fun c => cls c = true) v ->
  (post = [] \/ exists c post', post = c :: post' /\ cls c = false) ->
  takeClass cls (v ++ post) = v /\ dropClass cls (v ++ post) = post.
Proof.
  intros Hv Hpost. induction Hv as [| c v Hc Hv IH]; simpl.
  - destruct Hpost as [-> | (c & post' & -> & Hc)]; simpl; [auto |].
    rewrite Hc. auto.
  - rewrite Hc. destruct IH as [-> ->]. auto.
Qed.

(** A text followed by a character outside the class: the run stops there. *)
Lemma takeClass_app_stop cls s x w :
  cls x = false ->
  takeClass cls (s ++ x :: w) = takeClass cls s /\
  dropClass cls (s ++ x :: w) = dropClass cls s ++ x :: w.
Proof.
  intros Hx. induction s as [| c s IH]; simpl.
  - rewrite Hx. auto.
  - destruct (cls c); [| auto]. destruct IH as [-> ->]. auto.
Qed.

Lemma matchesLit_length eqc l s : matchesLit eqc l s = true -> length l <= length s.
Proof.
  revert s. induction l as [| p l IH]; intros [| c s]; simpl; try lia; try discriminate.
  intros [_ Hm]%andb_prop. apply IH in Hm. lia.
Qed.

(** A literal none of whose characters matches [x] does not reach across [x]. *)
Lemma matchesLit_app_stop eqc l s x w :
  forallb (fun p => negb (eqc p x)) l = true ->
  matchesLit eqc l (s ++ x :: w) = matchesLit eqc l s.
Proof.
  revert s. induction l as [| p l IH]; intros s Hl; simpl; [reflexivity |].
  simpl in Hl. apply andb_prop in Hl as [Hp Hl].
  destruct s as [| c s]; simpl.
  - apply negb_true_iff in Hp. rewrite Hp. reflexivity.
  - rewrite (IH s Hl). reflexivity.
Qed.

(** *** Global replacement *)

Section Replace.
Variable r : regex.
Variable repl : chars -> option chars -> chars.

Lemma run_bound (r0 : regex) (bound : nat) s0 cap0
    (k : chars -> option chars -> option (nat * option chars)) :
  (forall s' c' n cap, k s' c' = Some (n, cap) -> n <= bound) ->
  forall n cap, run r0 s0 cap0 k = Some (n, cap) -> n <= bound.
Proof.
  revert bound s0 cap0 k.
  induction r0; intros bound s0 cap0 k Hk n cap; simpl.
  - apply Hk.
  - destruct s0 as [| c s0]; [discriminate |]. destruct (cls c); [apply Hk | discriminate].
  - apply IHr0_1. intros s' c' n' cap'. apply IHr0_2, Hk.
  - destruct (run r0_1 s0 cap0 k) eqn:E.
    + intros [= ->]. eapply IHr0_1; eauto.
    + eapply IHr0_2; eauto.
  - destruct (run r0 s0 cap0 k) eqn:E.
    + intros [= ->]. eapply IHr0; eauto.
    + apply Hk.
  - induction s0 as [| c s0 IHs]; simpl; [apply Hk |].
    destruct (cls c); [| apply Hk].
    destruct (star cls s0 (fun s' => k s' cap0)) eqn:E.
    + intros [= ->]. apply IHs. reflexivity.
    + apply Hk.
  - apply IHr0. intros s' c' n' cap'. apply Hk.
Qed.

Lemma exec_length s n cap : exec r s = Some (n, cap) -> n <= length s.
Proof.
  unfold exec. apply run_bound. intros s' c' n' cap' [= <- _]. lia.
Qed.

(** Passing the rest of a match. *)
Lemma replaceFrom_skip m rest :
  replaceFrom r repl (length m) (m ++ rest) = replaceFrom r repl 0 rest.
Proof. induction m as [| c m IH]; simpl; [reflexivity | exact IH]. Qed.

(** A replacement at the head of the text. *)
Lemma replaceFrom_hit c m rest cap :
  exec r (c :: m ++ rest) = Some (S (length m), cap) ->
  replaceFrom r repl 0 (c :: m ++ rest)
    = repl (c :: m) cap ++ replaceFrom r repl 0 rest.
Proof.
  intros Hexec. simpl. rewrite Hexec.
  rewrite replaceFrom_skip, take_app_length. reflexivity.
Qed.

(** The scan of [pre ++ rest] is the scan of [pre] followed by that of
    [rest], when no match that starts in [pre] looks into [rest]. *)
Lemma replaceFrom_app pre rest :
  exec r [] = None ->
  (forall t1 t2, pre = t1 ++ t2 -> t2 <> [] -> exec r (t2 ++ rest) = exec r t2) ->
  forall skip, skip <= length pre ->
  replaceFrom r repl skip (pre ++ rest)
    = replaceFrom r repl skip pre ++ replaceFrom r repl 0 rest.
Proof.
  intros Hnil. induction pre as [| c pre IH]; intros Hlocal skip Hskip.
  - simpl in Hskip. assert (skip = 0) as -> by lia. simpl. rewrite Hnil. reflexivity.
  - assert (IH' : forall skip, skip <= length pre ->
              replaceFrom r repl skip (pre ++ rest)
              = replaceFrom r repl skip pre ++ replaceFrom r repl 0 rest).
    { apply IH. intros t1 t2 -> Ht2. apply (Hlocal (c :: t1) t2); [reflexivity | exact Ht2]. }
    simpl. destruct skip as [| skip]; [| apply IH'; simpl in Hskip; lia].
    change (c :: pre ++ rest) with ((c :: pre) ++ rest).
    rewrite (Hlocal [] (c :: pre)) by (try reflexivity; discriminate).
    destruct (exec r (c :: pre)) as [[[| n] cap] |] eqn:Hexec.
    + rewrite IH' by lia. rewrite <- app_assoc. reflexivity.
    + apply exec_length in Hexec. simpl in Hexec.
      rewrite IH' by lia. rewrite app_assoc. simpl.
      rewrite take_app_le by lia. reflexivity.
    + rewrite IH' by lia. reflexivity.
Qed.

(** A replacement that never yields the empty text keeps a text non-empty. *)
Lemma replaceGlobal_nonempty s :
  (forall m cap, m <> [] -> repl m cap <> []) ->
  s <> [] -> replaceGlobal r repl s <> [].
Proof.
  intros Hrepl. destruct s as [| c s]; [contradiction |]. intros _.
  unfold replaceGlobal. simpl.
  destruct (exec r (c :: s)) as [[[| n] cap] |]; try discriminate.
  - destruct (repl [] cap); discriminate.
  - intros Heq. apply app_eq_nil in Heq as [Heq _].
    revert Heq. apply Hrepl. discriminate.
Qed.

Lemma replaceFirst_nonempty s :
  (forall m cap, repl m cap <> []) ->
  s <> [] -> replaceFirst r repl s <> [].
Proof.
  intros Hrepl. destruct s as [| c s]; [contradiction |]. intros _. simpl.
  destruct (exec r (c :: s)) as [[n cap] |]; [| discriminate].
  intros Heq. apply app_eq_nil in Heq as [Heq _]. revert Heq. apply Hrepl.
Qed.

End Replace.

Lemma replaceAll_nonempty pattern replacement s :
  replacement <> [] -> s <> [] -> replaceAll pattern replacement s <> [].
Proof.
  intros Hr. destruct s as [| c s]; [contradiction |]. intros _.
  unfold replaceAll. simpl. destruct (startsWith pattern (c :: s)); [| discriminate].
  intros Heq. apply app_eq_nil in Heq as [Heq _]. contradiction.
Qed.

End RegexProps.

(** ** [redactError] *)

Module RedactProps.
Import Js Regex AiClient Spec RegexProps.

Lemma str_txt s : str (txt s) = s.
Proof. apply string_of_list_ascii_of_string. Qed.

Lemma txt_str t : txt (str t) = t.
Proof. apply list_ascii_of_string_of_list_ascii. Qed.

Lemma txt_nonempty s : s <> "" -> txt s <> [].
Proof. destruct s; [contradiction | discriminate]. Qed.

Lemma str_nonempty t : t <> [] -> str t <> "".
Proof. destruct t; [contradiction | discriminate]. Qed.

Lemma txt_app a b : txt (a +:+ b) = txt a ++ txt b.
Proof.
  induction a as [| c a IH]; [reflexivity |].
  change (c :: txt (a +:+ b) = c :: (txt a ++ txt b)). f_equal. exact IH.
Qed.

Section WithPlatform.
Context `{Platform}.

Lemma redactUrl_nonempty m cap : m <> [] -> redactUrl m cap <> [].
Proof.
  intros Hm. unfold redactUrl. destruct (URL (str m)) as [[origin pathname] |].
  - intros Heq. apply app_eq_nil in Heq as [_ Heq].
    apply app_eq_nil in Heq as [_ Heq]. discriminate Heq.
  - apply replaceFirst_nonempty; [| exact Hm]. discriminate.
Qed.

(** Redaction never empties a message. *)
Lemma redactError_nonempty error apiKey :
  error <> "" -> redactError error apiKey <> "".
Proof.
  intros Herr. unfold redactError. apply str_nonempty.
  unfold redactUrls, redactXApiKey, redactGoogApiKey, redactAuthorization,
    redactQueryParams.
  apply replaceGlobal_nonempty; [apply redactUrl_nonempty |].
  do 3 (apply replaceGlobal_nonempty; [discriminate |]).
  apply replaceGlobal_nonempty; [discriminate |].
  unfold redactKnownKey. destruct apiKey as [k |]; [| apply txt_nonempty, Herr].
  destruct (truthy k && (4 <? String.length k)); [| apply txt_nonempty, Herr].
  apply replaceAll_nonempty; [discriminate | apply txt_nonempty, Herr].
Qed.

End WithPlatform.

(** *** The query-parameter step *)

Lemma exec_queryParam s : exec queryParamPattern s = matchQueryParam s.
Proof.
  unfold exec, queryParamPattern, secretParamNames, matchQueryParam.
  destruct s as [| c s1]; [reflexivity |].
  cbn [run]. fold (isSeparator c). destruct (isSeparator c); [| reflexivity].
  rewrite !run_lit. unfold afterName, orElse.
  repeat match goal with
  | |- context [matchesLit isCI ?l s1] =>
      destruct (matchesLit isCI l s1);
      [ destruct (drop (length l) s1) as [| ? ?];
        [| match goal with
           | |- context [isCI "=" ?e] =>
               destruct (isCI "=" e);
               [ rewrite star_greedy by (intros; discriminate); reflexivity |]
           end ] |]
  end; reflexivity.
Qed.

Lemma dropClass_length cls s : length (dropClass cls s) <= length s.
Proof.
  induction s as [| c s IH]; simpl; [lia |]. destruct (cls c); simpl; lia.
Qed.

(** Under the [i] flag, a character that matches [q] matches what [q] matches. *)
Lemma isCI_trans p q c : isCI q c = true -> isCI p c = isCI p q.
Proof.
  unfold isCI. intros Hq. apply Ascii.eqb_eq in Hq. rewrite Hq. reflexivity.
Qed.

Lemma sameCI_length n name : sameCI n name -> length name = length n.
Proof. intros Hs. symmetry. exact (Forall2_length _ _ _ Hs). Qed.

Lemma matchesLit_sameCI n name rest :
  sameCI n name -> matchesLit isCI n (name ++ rest) = true.
Proof.
  induction 1 as [| p c n name Hpc Hs IH]; simpl; [reflexivity |].
  rewrite Hpc, IH. reflexivity.
Qed.

Lemma matchesLit_clash n' n name rest :
  sameCI n name -> clash n' n = true -> matchesLit isCI n' (name ++ rest) = false.
Proof.
  intros Hs. revert n'. induction Hs as [| q c n name Hqc Hs IH]; intros n' Hc.
  - destruct n'; discriminate Hc.
  - destruct n' as [| p n']; [discriminate Hc |]. simpl in *.
    rewrite (isCI_trans p q c Hqc).
    destruct (isCI p q); simpl in *; [apply IH, Hc | reflexivity].
Qed.

(** A match that starts before an [&] ends before it. *)
Lemma afterName_local c t1 w n :
  In n secretNames ->
  afterName (c :: t1 ++ "&"%char :: w) (t1 ++ "&"%char :: w) n
    = afterName (c :: t1) t1 n.
Proof.
  intros Hn. unfold afterName.
  rewrite matchesLit_app_stop
    by (unfold secretNames in Hn; cbn [In] in Hn;
        repeat (destruct Hn as [<- | Hn]; [reflexivity |]); destruct Hn).
  destruct (matchesLit isCI (txt n) t1) eqn:Hlit; [| reflexivity].
  apply matchesLit_length in Hlit.
  rewrite drop_app_le by exact Hlit.
  pose proof (length_drop t1 (length (txt n))) as Hdrop.
  destruct (drop (length (txt n)) t1) as [| e s3]; [reflexivity |].
  simpl in Hdrop. cbn [app].
  destruct (isCI "=" e); [| reflexivity].
  destruct (takeClass_app_stop paramValueChar s3 "&"%char w eq_refl) as [_ ->].
  pose proof (dropClass_length paramValueChar s3) as Hle.
  f_equal. f_equal.
  - cbn [length]. rewrite !length_app. cbn [length]. lia.
  - f_equal. cbn [length]. rewrite !length_app. cbn [length].
    replace (length t1 + S (length w) - S (length s3 + S (length w)))
      with (length t1 - S (length s3)) by lia.
    apply take_app_le. lia.
Qed.

Lemma matchQueryParam_local t w :
  t <> [] ->
  matchQueryParam (t ++ "&"%char :: w) = matchQueryParam t.
Proof.
  destruct t as [| c t1]; [contradiction |]. intros _.
  unfold matchQueryParam. cbn [app].
  rewrite !afterName_local by (unfold secretNames; cbn [In]; tauto).
  reflexivity.
Qed.

(** The pattern at a parameter of a secret name. *)
Lemma afterName_hit c n name v post :
  sameCI (txt n) name ->
  Forall (fun c => paramValueChar c = true) v ->
  (post = [] \/ exists c' post', post = c' :: post' /\ paramValueChar c' = false) ->
  afterName (c :: name ++ "="%char :: v ++ post) (name ++ "="%char :: v ++ post) n
    = Some (S (length (name ++ "="%char :: v)), Some name).
Proof.
  intros Hs Hv Hpost. unfold afterName.
  rewrite (matchesLit_sameCI _ _ _ Hs).
  rewrite <- (sameCI_length _ _ Hs), drop_app_length.
  change (isCI "=" "=") with true. cbn iota.
  destruct (takeClass_all paramValueChar v post Hv Hpost) as [_ ->].
  f_equal. f_equal.
  - cbn [length]. rewrite !length_app. cbn [length]. rewrite length_app. lia.
  - f_equal. cbn [length]. rewrite !length_app. cbn [length]. rewrite length_app.
    replace (length name + S (length v + length post) - S (length v + length post))
      with (length name) by lia.
    apply take_app_length.
Qed.

Lemma afterName_clash s n' n name rest :
  sameCI (txt n) name -> clash (txt n') (txt n) = true ->
  afterName s (name ++ rest) n' = None.
Proof.
  intros Hs Hc. unfold afterName. rewrite (matchesLit_clash _ _ _ _ Hs Hc). reflexivity.
Qed.

Lemma matchQueryParam_hit n name v post :
  In n secretNames ->
  sameCI (txt n) name ->
  Forall (fun c => paramValueChar c = true) v ->
  (post = [] \/ exists c' post', post = c' :: post' /\ paramValueChar c' = false) ->
  matchQueryParam ("&"%char :: name ++ "="%char :: v ++ post)
    = Some (S (length (name ++ "="%char :: v)), Some name).
Proof.
  intros Hn Hs Hv Hpost. unfold matchQueryParam.
  change (isSeparator "&") with true. cbn iota.
  unfold secretNames in Hn. cbn [In] in Hn.
  repeat (destruct Hn as [<- | Hn];
    [ repeat first
        [ rewrite (afterName_hit _ _ _ _ _ Hs Hv Hpost); reflexivity
        | rewrite (afterName_clash _ _ _ _ _ Hs) by reflexivity; cbn [orElse] ] |]).
  destruct Hn.
Qed.

(** C9. The query-parameter step writes [?] for the separator it matched:
    wherever the input has a parameter of a secret name (in any letter case)
    introduced by [&], with its value running up to the next [&], white space
    or the end, the output has ["?name=[REDACTED]"] there, the name as it was
    written, and the text before and after is redacted as on its own. *)
Theorem redactQueryParams_ampersand (pre : chars) (n : string) (name v post : chars) :
  In n secretNames ->
  sameCI (txt n) name ->
  Forall (fun c => paramValueChar c = true) v ->
  (post = [] \/ exists c post', post = c :: post' /\ paramValueChar c = false) ->
  redactQueryParams (pre ++ txt "&" ++ name ++ txt "=" ++ v ++ post)
    = redactQueryParams pre ++ txt "?" ++ name ++ txt "=[REDACTED]"
        ++ redactQueryParams post.
Proof.
  intros Hn Hs Hv Hpost. unfold redactQueryParams, replaceGlobal.
  change (txt "&" ++ name ++ txt "=" ++ v ++ post)
    with ("&"%char :: name ++ "="%char :: v ++ post).
  rewrite replaceFrom_app; [| reflexivity | | lia].
  - f_equal.
    replace (name ++ "="%char :: v ++ post) with ((name ++ "="%char :: v) ++ post)
      by (rewrite <- app_assoc; reflexivity).
    rewrite (replaceFrom_hit _ _ _ _ _ (Some name)).
    + unfold queryParamReplacement. cbn [default app txt list_ascii_of_string].
      rewrite <- !app_assoc. reflexivity.
    + rewrite exec_queryParam. rewrite <- app_assoc. cbn [app].
      apply (matchQueryParam_hit n); assumption.
  - intros t1 t2 _ Ht2. rewrite !exec_queryParam.
    apply matchQueryParam_local, Ht2.
Qed.

Lemma redactQueryParams_ampersand_witness :
  redactQueryParams (txt "GET /v1/models?alt=json" ++ txt "&" ++ txt "Key"
                       ++ txt "=" ++ txt "AIza-123" ++ txt " failed")
    = redactQueryParams (txt "GET /v1/models?alt=json") ++ txt "?" ++ txt "Key"
        ++ txt "=[REDACTED]" ++ redactQueryParams (txt " failed").
Proof.
  apply (redactQueryParams_ampersand (txt "GET /v1/models?alt=json") "key"
           (txt "Key") (txt "AIza-123") (txt " failed")).
  - unfold secretNames. cbn [In]. tauto.
  - repeat constructor.
  - repeat constructor.
  - right. exists " "%char, (txt "failed"). split; reflexivity.
Defined.

(** The same on whole messages: the [&] of the input is a [?] in the output. *)
Example redactError_ampersand `{Platform} :
  redactError "GET /v1/models?alt=json&Key=AIza-123 failed" None
    = "GET /v1/models?alt=json?Key=[REDACTED] failed".
Proof. vm_compute. reflexivity. Qed.

(** C1 on the code: redaction is not idempotent. The [?] that the
    query-parameter step writes for an [&] makes the second parameter part of
    the first one's value when the output is redacted again. *)
Theorem redactError_twice `{Platform} :
  redactError "?key=a&key=b" None = "?key=[REDACTED]?key=[REDACTED]" /\
  redactError (redactError "?key=a&key=b" None) None = "?key=[REDACTED]" /\
  redactError (redactError "?key=a&key=b" None) None
    <> redactError "?key=a&key=b" None.
Proof.
  assert (H1 : redactError "?key=a&key=b" None = "?key=[REDACTED]?key=[REDACTED]")
    by (vm_compute; reflexivity).
  assert (H2 : redactError "?key=[REDACTED]?key=[REDACTED]" None = "?key=[REDACTED]")
    by (vm_compute; reflexivity).
  rewrite H1, H2. split; [reflexivity |]. split; [reflexivity | discriminate].
Qed.

(** A known secret that occurs in the placeholder is redacted anew each time. *)
Example redactError_twice_known_key `{Platform} :
  redactError "REDACTED" (Some "REDACTED") = "[REDACTED]" /\
  redactError "[REDACTED]" (Some "REDACTED") = "[[REDACTED]]".
Proof. split; vm_compute; reflexivity. Qed.

End RedactProps.

(** ** The provider adapters and [callAi] *)

Module AiClientProps.
Import Js Types AiClient Spec TypesProps MainProps.

Section WithPlatform.
Context `{Platform}.
Variable network : string -> RequestInit -> N -> fetched.

Lemma eqb_unknown p k : ~ In p knownProviders -> In k knownProviders -> String.eqb p k = false.
Proof. intros Hp Hk. apply String.eqb_neq. intros ->. contradiction. Qed.

(** C5. For settings whose provider id is none of the four known ids,
    [callAi] performs no effect at all, so no [fetch]; and, the providers map
    being there as [AiSettings] requires, it returns the failure
    ["Unknown provider: <id>"]. *)
Theorem callAi_unknown_provider (settings : AiSettings) (req : AiRequest) :
  ~ In (provider settings) knownProviders ->
  (callAi network settings req).2 = [] /\
  (forall ps, providers settings = Some ps ->
     (callAi network settings req).1
       = Ret (failure ("Unknown provider: " +:+ provider settings))).
Proof.
  intros Hunknown.
  unfold callAi, getApiKey, getModel, providerSlot.
  rewrite !(eqb_unknown _ _ Hunknown) by (unfold knownProviders; cbn [In]; tauto).
  destruct (providers settings) as [ps |]; simpl.
  - split; [reflexivity |]. intros ps' _. reflexivity.
  - split; [reflexivity |]. intros ps' [=].
Qed.

(** The adapters up to the status check. *)
Lemma fetchWithTimeout_fulfilled url init t res :
  network url init t = Fulfilled res ->
  fetchWithTimeout network url init t = (Ret res, [Fetch url init t]).
Proof. intros Hnet. unfold fetchWithTimeout, iobind. simpl. rewrite Hnet. reflexivity. Qed.

Ltac answered Hnet :=
  unfold iobind; rewrite (fetchWithTimeout_fulfilled _ _ _ _ (Hnet _ _ _)); simpl.

(** C6. When the network answers with a response whose status [N] is not
    2xx, each of the four adapters returns the failure
    ["Request failed, status N"] after the [fetch] alone: the body is not read
    ([ReadJson] is not performed, and [json res] plays no part). For
    [provider = "openai"] and the status 401, [callAi] returns exactly
    [{ ok: false, error: "Request failed, status 401" }]. *)
Theorem adapters_non_2xx (res : Response) (apiKey model baseUrl : string)
    (req : AiRequest) :
  (forall url init t, network url init t = Fulfilled res) ->
  res_ok res = false ->
  let failed :=
    Ret (failure ("Request failed, status " +:+ showStatus (status res))) in
  (exists url init, callGemini network apiKey model req
                    = (failed, [Fetch url init FETCH_TIMEOUT_MS])) /\
  (exists url init, callOpenAi network apiKey model req
                    = (failed, [Fetch url init FETCH_TIMEOUT_MS])) /\
  (exists url init, callAnthropic network apiKey model req
                    = (failed, [Fetch url init FETCH_TIMEOUT_MS])) /\
  (exists url init, callOllama network baseUrl model req
                    = (failed, [Fetch url init FETCH_TIMEOUT_MS])) /\
  (forall settings ps,
     providers settings = Some ps -> provider settings = "openai" ->
     status res = 401%N ->
     exists url init, callAi network settings req
       = (Ret (failure "Request failed, status 401"),
          [Fetch url init FETCH_TIMEOUT_MS])).
Proof.
  intros Hnet Hok failed.
  assert (Hgemini : exists url init, callGemini network apiKey model req
                    = (failed, [Fetch url init FETCH_TIMEOUT_MS])).
  { unfold callGemini. answered Hnet. rewrite Hok. simpl. eauto. }
  assert (Hopenai : forall k m, exists url init, callOpenAi network k m req
                    = (failed, [Fetch url init FETCH_TIMEOUT_MS])).
  { intros k m. unfold callOpenAi. answered Hnet. rewrite Hok. simpl. eauto. }
  split; [exact Hgemini |]. split; [apply Hopenai |].
  split; [| split].
  - unfold callAnthropic. answered Hnet. rewrite Hok. simpl. eauto.
  - unfold callOllama. answered Hnet. rewrite Hok. simpl. eauto.
  - intros settings ps Hps Hprov Hstatus.
    unfold callAi, getApiKey, getModel, providerSlot.
    rewrite Hps, Hprov. cbn [bind lift iobind fst snd String.eqb Ascii.eqb Bool.eqb].
    destruct (Hopenai (or_else (cfg_apiKey <$> ps !! "openai") "")
                (or_else (cfg_model <$> ps !! "openai")
                   (or_else (defaultModel <$> findProvider "openai") "")))
      as (url & init & Hcall).
    exists url, init. unfold tryCatch. rewrite Hcall. simpl.
    subst failed. rewrite Hstatus. reflexivity.
Qed.

(** *** A 2xx response without content *)

Lemma prefix_app a b : String.prefix a (a +:+ b) = true.
Proof. induction a as [| c a IH]; simpl; [destruct b; reflexivity |].
  destruct (ascii_dec c c); [exact IH | contradiction]. Qed.

Lemma prefix_nonempty a d : a <> "" -> String.prefix a d = true -> d <> "".
Proof. destruct a; [contradiction |]. intros _. destruct d; [discriminate | discriminate]. Qed.

Lemma filterM_shaped items :
  forallb (fun r => match r with VUndefined | VNull => false | _ => true end) items = true ->
  exists flagged, filterM isFlagged items = Ret flagged.
Proof.
  induction items as [| r items IH]; simpl; [eauto |].
  intros [Hr Hitems]%andb_prop. destruct (IH Hitems) as [fl ->].
  destruct r; try discriminate; simpl; eauto.
Qed.

Lemma flaggedRatings_shaped v :
  ratingsShaped v = true -> truthyV v = true ->
  exists flagged, flaggedRatings v = Ret flagged.
Proof.
  destruct v; simpl; intros Hs Ht;
    try discriminate; try (rewrite Ht in Hs; discriminate).
  apply filterM_shaped, Hs.
Qed.

Lemma emptyDetail_prefix b f d :
  emptyDetail b f = Ret d -> String.prefix "Empty response from Gemini" d = true.
Proof.
  unfold emptyDetail.
  repeat match goal with
  | |- context [if ?c then _ else _] => destruct c
  end;
  try (intros [= <-]; first [apply prefix_app | reflexivity]).
  - destruct (toStr b); simpl; intros [= <-]. apply prefix_app.
  - destruct (toStr f); simpl; intros [= <-]. apply prefix_app.
Qed.

Lemma emptyDetail_shaped b f :
  reasonShaped b = true -> reasonShaped f = true ->
  exists d, emptyDetail b f = Ret d.
Proof.
  unfold emptyDetail.
  destruct b; try discriminate; destruct f; try discriminate; intros _ _; simpl;
  repeat match goal with
  | |- context [if ?c then _ else _] => destruct c
  end; simpl; eauto.
Qed.

Lemma callGemini_2xx res data apiKey model req :
  (forall url init t, network url init t = Fulfilled res) ->
  res_ok res = true -> json res = Ret data ->
  (callGemini network apiKey model req).1 = geminiEnd data.
Proof.
  intros Hnet Hok Hjson.
  unfold callGemini. answered Hnet. rewrite Hok. simpl.
  unfold readJson, iobind, emit, lift, when, ioret. simpl. rewrite Hjson. simpl.
  unfold geminiEnd.
  repeat match goal with
  | |- context [if ?c then _ else _] => destruct c eqn:?; simpl
  | |- context [flaggedRatings ?v] => destruct (flaggedRatings v); simpl
  | |- context [emptyDetail ?b ?f] => destruct (emptyDetail b f); simpl
  end; reflexivity.
Qed.

Lemma callOpenAi_2xx res data apiKey model req :
  (forall url init t, network url init t = Fulfilled res) ->
  res_ok res = true -> json res = Ret data ->
  (callOpenAi network apiKey model req).1
    = Ret (textOr (openAiText data) "Empty response from OpenAI").
Proof.
  intros Hnet Hok Hjson. unfold callOpenAi. answered Hnet. rewrite Hok. simpl.
  unfold readJson, iobind, emit, lift, ioret. simpl. rewrite Hjson. reflexivity.
Qed.

Lemma callAnthropic_2xx res data apiKey model req :
  (forall url init t, network url init t = Fulfilled res) ->
  res_ok res = true -> json res = Ret data ->
  (callAnthropic network apiKey model req).1
    = Ret (textOr (anthropicText data) "Empty response from Anthropic").
Proof.
  intros Hnet Hok Hjson. unfold callAnthropic. answered Hnet. rewrite Hok. simpl.
  unfold readJson, iobind, emit, lift, ioret. simpl. rewrite Hjson. reflexivity.
Qed.

Lemma callOllama_2xx res data baseUrl model req :
  (forall url init t, network url init t = Fulfilled res) ->
  res_ok res = true -> json res = Ret data ->
  (callOllama network baseUrl model req).1
    = Ret (textOr (ollamaText data) "Empty response from Ollama").
Proof.
  intros Hnet Hok Hjson. unfold callOllama. answered Hnet. rewrite Hok. simpl.
  unfold readJson, iobind, emit, lift, ioret. simpl. rewrite Hjson. reflexivity.
Qed.

Lemma textOr_empty t label : truthyV t = false -> textOr t label = failure label.
Proof. unfold textOr. intros ->. reflexivity. Qed.

(** What [callGemini] returns for a body without content is a failure whose
    message starts with the fixed diagnostic. *)
Lemma geminiEnd_empty data r :
  truthyV (geminiText data) = false -> geminiEnd data = Ret r ->
  exists detail, r = failure detail /\
                 String.prefix "Empty response from Gemini" detail = true.
Proof.
  intros Hempty. unfold geminiEnd. rewrite Hempty. cbn [negb].
  match goal with
  | |- bind ?m _ = _ -> _ => destruct m as [[] | e]; [| discriminate]
  end.
  cbn [bind].
  match goal with
  | |- bind (emptyDetail ?b ?f) _ = _ -> _ =>
      destruct (emptyDetail b f) as [d | e] eqn:Hd; [| discriminate]
  end.
  intros [= <-]. exists d. split; [reflexivity |]. eapply emptyDetail_prefix, Hd.
Qed.

Lemma geminiEnd_shaped data :
  geminiShaped data = true -> truthyV (geminiText data) = false ->
  exists detail, geminiEnd data = Ret (failure detail).
Proof.
  unfold geminiShaped. intros [[Hr Hb]%andb_prop Hf]%andb_prop Hempty.
  unfold geminiEnd. rewrite Hempty. cbn [negb].
  destruct (emptyDetail_shaped _ _ Hb Hf) as [d Hd]. exists d.
  match goal with
  | |- context [truthyV ?v] =>
      destruct (truthyV v) eqn:Ht;
      [destruct (flaggedRatings_shaped v Hr Ht) as [fl ->] |]
  end; cbn [bind]; rewrite Hd; reflexivity.
Qed.

(** *** What the adapters throw *)

Lemma toStr_throw : forall v e, toStr v = Throw e -> isTypeError e.
Proof.
  fix IH 1. intros v e. destruct v as [| | b | n | s | items | fields]; simpl;
    try discriminate.
  - induction items as [| x items IHitems]; [discriminate |].
    assert (Hx : forall e',
              match x with
              | VUndefined | VNull => Ret ""
              | _ => toStr x
              end = Throw e' -> isTypeError e').
    { intros e' He'. apply (IH x). destruct x; try discriminate; exact He'. }
    destruct items as [| y items]; [apply Hx |].
    destruct (match x with VUndefined | VNull => Ret "" | _ => toStr x end) as [a | e0];
      [| intros [= <-]; apply Hx; reflexivity].
    cbn [bind].
    match goal with
    | |- bind ?m _ = _ -> _ => destruct m as [b' | e1] eqn:Hm
    end; [discriminate |].
    intros [= <-]. apply IHitems. reflexivity.
  - destruct (ownProp fields "toString"); [| discriminate].
    intros [= <-]. eexists. reflexivity.
Qed.

Lemma filterM_throw items e : filterM isFlagged items = Throw e -> isTypeError e.
Proof.
  induction items as [| r items IH]; simpl; [discriminate |].
  destruct (isFlagged r) as [keep | e0] eqn:Hr.
  - cbn [bind]. destruct (filterM isFlagged items); [discriminate |].
    intros [= <-]. apply IH. reflexivity.
  - intros [= <-]. destruct r; simpl in Hr; try discriminate;
      injection Hr as <-; eexists; reflexivity.
Qed.

Lemma flaggedRatings_throw v e : flaggedRatings v = Throw e -> isTypeError e.
Proof.
  destruct v; simpl; try (intros [= <-]; eexists; reflexivity).
  apply filterM_throw.
Qed.

Lemma emptyDetail_throw b f e : emptyDetail b f = Throw e -> isTypeError e.
Proof.
  unfold emptyDetail.
  repeat match goal with
  | |- context [if ?c then _ else _] => destruct c
  end; try discriminate.
  - destruct (toStr b) eqn:Hb; [discriminate |]. intros [= <-]. eapply toStr_throw, Hb.
  - destruct (toStr f) eqn:Hf; [discriminate |]. intros [= <-]. eapply toStr_throw, Hf.
Qed.

Lemma geminiEnd_throw data e : geminiEnd data = Throw e -> isTypeError e.
Proof.
  unfold geminiEnd.
  match goal with
  | |- bind (if ?c then bind (flaggedRatings ?v) _ else _) _ = _ -> _ =>
      destruct c; [destruct (flaggedRatings v) eqn:Hfl |]
  end; cbn [bind];
  try (intros [= <-]; eapply flaggedRatings_throw, Hfl);
  (destruct (negb _); [| discriminate]);
  match goal with
  | |- bind (emptyDetail ?b ?f) _ = _ -> _ => destruct (emptyDetail b f) eqn:Hd
  end; try discriminate; intros [= <-]; eapply emptyDetail_throw, Hd.
Qed.

Lemma tryCatch_fst {A} (m : io A) handler :
  (tryCatch m handler).1 =
    match m.1 with
    | Ret a => Ret a
    | Throw e => (handler e).1
    end.
Proof. unfold tryCatch. destruct m as [[a | e] evs]; reflexivity. Qed.

(** [callAi] on a 2xx response without content, whatever the provider. *)
Lemma callAi_empty_content res data settings ps req :
  (forall url init t, network url init t = Fulfilled res) ->
  res_ok res = true -> json res = Ret data ->
  providers settings = Some ps ->
  In (provider settings) knownProviders ->
  truthyV (contentOf (provider settings) data) = false ->
  (forall what, typeErrorMessage what <> "") ->
  exists e, (callAi network settings req).1 = Ret (failure e) /\ e <> "".
Proof.
  intros Hnet Hok Hjson Hps Hknown Hempty Hmsg.
  unfold callAi, getApiKey, getModel, providerSlot. rewrite Hps.
  cbn [bind lift iobind fst snd]. rewrite tryCatch_fst.
  unfold knownProviders in Hknown. cbn [In] in Hknown.
  destruct Hknown as [Hp | [Hp | [Hp | [Hp | []]]]]; rewrite <- Hp in *;
    unfold contentOf in Hempty;
    cbn [String.eqb Ascii.eqb Bool.eqb] in *.
  - rewrite (callGemini_2xx _ _ _ _ _ Hnet Hok Hjson).
    destruct (geminiEnd data) as [r | e] eqn:Hend.
    + destruct (geminiEnd_empty _ _ Hempty Hend) as (detail & -> & Hpre).
      exists detail. split; [reflexivity |].
      eapply prefix_nonempty; [| exact Hpre]. discriminate.
    + destruct (geminiEnd_throw _ _ Hend) as [what ->].
      eexists. split; [reflexivity |].
      apply RedactProps.redactError_nonempty, Hmsg.
  - rewrite (callOpenAi_2xx _ _ _ _ _ Hnet Hok Hjson), (textOr_empty _ _ Hempty).
    eexists. split; [reflexivity | discriminate].
  - rewrite (callAnthropic_2xx _ _ _ _ _ Hnet Hok Hjson), (textOr_empty _ _ Hempty).
    eexists. split; [reflexivity | discriminate].
  - rewrite (callOllama_2xx _ _ _ _ _ Hnet Hok Hjson), (textOr_empty _ _ Hempty).
    eexists. split; [reflexivity | discriminate].
Qed.

(** C2, as the code has it. On a 2xx response whose body [data] has no
    content (the extracted field is falsy: missing, [null], empty):
    - [callOpenAi], [callAnthropic] and [callOllama] return the failure
      ["Empty response from ..."];
    - [callGemini] returns a failure whose message starts with
      ["Empty response from Gemini"] whenever the body is shaped as the
      adapter reads it ([geminiShaped]); on any body, if it returns, it
      returns such a failure, and otherwise it throws a [TypeError];
    - [callAi], which catches what the adapters throw, returns for each of
      the four providers [{ ok: false }] with a non-empty error, the engine
      wording its [TypeError]s with non-empty messages. *)
Theorem adapters_empty_content (res : Response) (data : value)
    (apiKey model baseUrl : string) (req : AiRequest) :
  (forall url init t, network url init t = Fulfilled res) ->
  res_ok res = true ->
  json res = Ret data ->
  (truthyV (openAiText data) = false ->
     (callOpenAi network apiKey model req).1
       = Ret (failure "Empty response from OpenAI")) /\
  (truthyV (anthropicText data) = false ->
     (callAnthropic network apiKey model req).1
       = Ret (failure "Empty response from Anthropic")) /\
  (truthyV (ollamaText data) = false ->
     (callOllama network baseUrl model req).1
       = Ret (failure "Empty response from Ollama")) /\
  (truthyV (geminiText data) = false ->
     (geminiShaped data = true ->
        exists detail,
          (callGemini network apiKey model req).1 = Ret (failure detail) /\
          String.prefix "Empty response from Gemini" detail = true) /\
     (forall r, (callGemini network apiKey model req).1 = Ret r ->
        exists detail,
          r = failure detail /\
          String.prefix "Empty response from Gemini" detail = true) /\
     (forall e, (callGemini network apiKey model req).1 = Throw e ->
        isTypeError e)) /\
  (forall settings ps,
     providers settings = Some ps ->
     In (provider settings) knownProviders ->
     truthyV (contentOf (provider settings) data) = false ->
     (forall what, typeErrorMessage what <> "") ->
     exists e, (callAi network settings req).1 = Ret (failure e) /\ e <> "").
Proof.
  intros Hnet Hok Hjson.
  split; [| split; [| split; [| split]]].
  - intros Hempty.
    rewrite (callOpenAi_2xx _ _ _ _ _ Hnet Hok Hjson). f_equal. apply textOr_empty, Hempty.
  - intros Hempty.
    rewrite (callAnthropic_2xx _ _ _ _ _ Hnet Hok Hjson). f_equal. apply textOr_empty, Hempty.
  - intros Hempty.
    rewrite (callOllama_2xx _ _ _ _ _ Hnet Hok Hjson). f_equal. apply textOr_empty, Hempty.
  - intros Hempty. rewrite (callGemini_2xx _ _ _ _ _ Hnet Hok Hjson).
    split; [| split].
    + intros Hshaped.
      destruct (geminiEnd_shaped _ Hshaped Hempty) as [detail Hend].
      destruct (geminiEnd_empty _ _ Hempty Hend) as (detail' & [= <-] & Hpre).
      exists detail. split; [exact Hend | exact Hpre].
    + intros r Hend. apply (geminiEnd_empty _ _ Hempty Hend).
    + intros e Hend. apply (geminiEnd_throw _ _ Hend).
  - intros settings ps Hps Hknown Hempty Hmsg.
    apply (callAi_empty_content res data settings ps req); assumption.
Qed.

End WithPlatform.

Lemma adapters_non_2xx_witness :
  (exists url init,
     callGemini (H := Example.platform) (Example.answering Example.unauthorized)
       "stored-key" "gemini-2.5-flash" Example.request
     = (Ret (failure "Request failed, status 401"),
        [Fetch url init FETCH_TIMEOUT_MS])) /\
  (exists url init,
     callOpenAi (H := Example.platform) (Example.answering Example.unauthorized)
       "stored-key" "gemini-2.5-flash" Example.request
     = (Ret (failure "Request failed, status 401"),
        [Fetch url init FETCH_TIMEOUT_MS])) /\
  (exists url init,
     callAnthropic (H := Example.platform) (Example.answering Example.unauthorized)
       "stored-key" "gemini-2.5-flash" Example.request
     = (Ret (failure "Request failed, status 401"),
        [Fetch url init FETCH_TIMEOUT_MS])) /\
  (exists url init,
     callOllama (H := Example.platform) (Example.answering Example.unauthorized)
       "http://localhost:11434" "gemini-2.5-flash" Example.request
     = (Ret (failure "Request failed, status 401"),
        [Fetch url init FETCH_TIMEOUT_MS])) /\
  (forall settings ps,
     providers settings = Some ps -> provider settings = "openai" ->
     401%N = 401%N ->
     exists url init,
       callAi (H := Example.platform) (Example.answering Example.unauthorized)
         settings Example.request
       = (Ret (failure "Request failed, status 401"),
          [Fetch url init FETCH_TIMEOUT_MS])).
Proof.
  apply (adapters_non_2xx (H := Example.platform)
           (Example.answering Example.unauthorized) Example.unauthorized
           "stored-key" "gemini-2.5-flash" "http://localhost:11434"
           Example.request).
  - reflexivity.
  - reflexivity.
Defined.

Lemma adapters_empty_content_witness :
  (callOpenAi (H := Example.platform)
     (Example.answering (Example.ok200 Example.noContent))
     "stored-key" "gpt-4o-mini" Example.request).1
    = Ret (failure "Empty response from OpenAI") /\
  (exists detail,
     (callGemini (H := Example.platform)
        (Example.answering (Example.ok200 Example.noContent))
        "stored-key" "gpt-4o-mini" Example.request).1 = Ret (failure detail) /\
     String.prefix "Empty response from Gemini" detail = true) /\
  (exists e,
     (callAi (H := Example.platform)
        (Example.answering (Example.ok200 Example.noContent))
        Example.openAiSettings Example.request).1 = Ret (failure e) /\ e <> "").
Proof.
  destruct (adapters_empty_content (H := Example.platform)
              (Example.answering (Example.ok200 Example.noContent))
              (Example.ok200 Example.noContent) Example.noContent
              "stored-key" "gpt-4o-mini" "http://localhost:11434" Example.request
              (fun _ _ _ => eq_refl) eq_refl eq_refl)
    as (Hopenai & _ & _ & Hgemini & HcallAi).
  split; [apply Hopenai; reflexivity |].
  split; [apply Hgemini; reflexivity |].
  apply (HcallAi Example.openAiSettings {[ "openai" := Example.storedSlot ]}).
  - reflexivity.
  - unfold knownProviders. cbn [In provider Example.openAiSettings]. tauto.
  - reflexivity.
  - intros what. unfold typeErrorMessage, Example.platform.
    destruct what; discriminate.
Defined.

(** C2 as stated fails for [callGemini]: on a 2xx body without content whose
    safety ratings are not an array, [safetyRatings.filter] is not a function
    and the adapter throws instead of returning [{ ok: false }]. *)
Lemma callGemini_throws_on_ratings_object :
  truthyV (geminiText Example.ratingsByCategory) = false /\
  res_ok (Example.ok200 Example.ratingsByCategory) = true /\
  ~ (exists r,
       (callGemini (H := Example.platform)
          (Example.answering (Example.ok200 Example.ratingsByCategory))
          "stored-key" "gemini-2.5-flash" Example.request).1 = Ret r).
Proof.
  split; [reflexivity |]. split; [reflexivity |].
  intros [r Hr]. vm_compute in Hr. discriminate Hr.
Qed.

Lemma callAi_unknown_provider_witness :
  (callAi (H := Example.platform) (Example.answering Example.unauthorized)
     Example.unknownProvider Example.request).2 = [] /\
  (forall ps, providers Example.unknownProvider = Some ps ->
     (callAi (H := Example.platform) (Example.answering Example.unauthorized)
        Example.unknownProvider Example.request).1
       = Ret (failure ("Unknown provider: " +:+ provider Example.unknownProvider))).
Proof.
  apply (callAi_unknown_provider (H := Example.platform)).
  unfold knownProviders. cbn [In provider Example.unknownProvider].
  intros [Heq | [Heq | [Heq | [Heq | []]]]]; discriminate Heq.
Defined.

End AiClientProps.

(** * Further properties *)

(** ** Settings after migration and after loading *)

Module SettingsMore.
Import Js Types Main Plugin Spec MoreSpec TypesProps MainProps.

Lemma or_else_nonempty a b : b <> "" -> or_else a b <> "".
Proof.
  intros Hb. unfold or_else. destruct a as [x |]; [| exact Hb].
  destruct (truthy x) eqn:Hx; [apply truthy_true, Hx | exact Hb].
Qed.

Lemma or_else_falsy a b : truthy_opt a = false -> or_else a b = b.
Proof. destruct a as [x |]; simpl; [intros -> |]; reflexivity. Qed.

Lemma or_else_truthy a x b : a = Some x -> x <> "" -> or_else a b = x.
Proof. intros -> Hx. simpl. apply truthy_true in Hx. rewrite Hx. reflexivity. Qed.

Lemma or_else_empty a : or_else a "" = default "" a.
Proof.
  destruct a as [x |]; simpl; [| reflexivity].
  destruct x; reflexivity.
Qed.

(** *** What a slot shows through [||] *)

Lemma view_ensureSlot (f : ProviderConfig -> string) p k ps b :
  f emptyConfig = "" ->
  or_else (f <$> ensureSlot p ps !! k) b = or_else (f <$> ps !! k) b.
Proof.
  intros Hf. unfold ensureSlot. destruct (ps !! p) eqn:Hp; [reflexivity |].
  destruct (decide (p = k)) as [<- | Hne].
  - rewrite lookup_insert_eq, Hp. simpl. rewrite Hf. reflexivity.
  - rewrite lookup_insert_ne by exact Hne. reflexivity.
Qed.

Lemma apiKey_setModel p v k ps :
  cfg_apiKey <$> setModel p v ps !! k = cfg_apiKey <$> ps !! k.
Proof.
  unfold setModel. destruct (decide (p = k)) as [<- | Hne].
  - rewrite lookup_alter_eq. destruct (ps !! p); reflexivity.
  - rewrite lookup_alter_ne by exact Hne. reflexivity.
Qed.

Lemma model_setApiKey p v k ps :
  cfg_model <$> setApiKey p v ps !! k = cfg_model <$> ps !! k.
Proof.
  unfold setApiKey. destruct (decide (p = k)) as [<- | Hne].
  - rewrite lookup_alter_eq. destruct (ps !! p); reflexivity.
  - rewrite lookup_alter_ne by exact Hne. reflexivity.
Qed.

Lemma apiKey_set_ensure p v ps :
  cfg_apiKey <$> setApiKey p v (ensureSlot p ps) !! p = Some v.
Proof.
  unfold setApiKey, ensureSlot. rewrite lookup_alter_eq.
  destruct (ps !! p) eqn:Hp; [rewrite Hp | rewrite lookup_insert_eq]; reflexivity.
Qed.

Lemma model_set_ensure p v ps :
  cfg_model <$> setModel p v (ensureSlot p ps) !! p = Some v.
Proof.
  unfold setModel, ensureSlot. rewrite lookup_alter_eq.
  destruct (ps !! p) eqn:Hp; [rewrite Hp | rewrite lookup_insert_eq]; reflexivity.
Qed.

Lemma or_else_legacy legacy b :
  truthy_opt legacy = true -> or_else (Some (default "" legacy)) b = or_else legacy b.
Proof. destruct legacy as [x |]; [reflexivity | discriminate]. Qed.

(** The key the active slot shows after [migrateApiKey]. *)
Lemma apiKey_migrateApiKey legacy p ps b :
  or_else (cfg_apiKey <$> migrateApiKey legacy p ps !! p) b
    = or_else (cfg_apiKey <$> ps !! p) (or_else legacy b).
Proof.
  unfold migrateApiKey.
  destruct (truthy_opt legacy) eqn:Hl; cbn [andb].
  - destruct (truthy_opt (cfg_apiKey <$> ps !! p)) eqn:Hs; cbn [negb].
    + destruct (cfg_apiKey <$> ps !! p) as [x |]; [| discriminate].
      simpl in *. rewrite Hs. reflexivity.
    + rewrite apiKey_set_ensure, (or_else_falsy _ _ Hs). apply or_else_legacy, Hl.
  - rewrite (or_else_falsy legacy b Hl). reflexivity.
Qed.

Lemma model_migrateModel legacy p ps b :
  or_else (cfg_model <$> migrateModel legacy p ps !! p) b
    = or_else (cfg_model <$> ps !! p) (or_else legacy b).
Proof.
  unfold migrateModel.
  destruct (truthy_opt legacy) eqn:Hl; cbn [andb].
  - destruct (truthy_opt (cfg_model <$> ps !! p)) eqn:Hs; cbn [negb].
    + destruct (cfg_model <$> ps !! p) as [x |]; [| discriminate].
      simpl in *. rewrite Hs. reflexivity.
    + rewrite model_set_ensure, (or_else_falsy _ _ Hs). apply or_else_legacy, Hl.
  - rewrite (or_else_falsy legacy b Hl). reflexivity.
Qed.

(** The other steps leave what a slot shows of the other field. *)
Lemma apiKey_migrateModel legacy p k ps b :
  or_else (cfg_apiKey <$> migrateModel legacy p ps !! k) b
    = or_else (cfg_apiKey <$> ps !! k) b.
Proof.
  unfold migrateModel. destruct (_ && _); [| reflexivity].
  rewrite apiKey_setModel. apply view_ensureSlot. reflexivity.
Qed.

Lemma model_migrateApiKey legacy p k ps b :
  or_else (cfg_model <$> migrateApiKey legacy p ps !! k) b
    = or_else (cfg_model <$> ps !! k) b.
Proof.
  unfold migrateApiKey. destruct (_ && _); [| reflexivity].
  rewrite model_setApiKey. apply view_ensureSlot. reflexivity.
Qed.

Lemma apiKey_migrateOllamaModel o k ps b :
  or_else (cfg_apiKey <$> (migrateOllamaModel o ps).1 !! k) b
    = or_else (cfg_apiKey <$> ps !! k) b.
Proof.
  unfold migrateOllamaModel. destruct (ollamaModelString o) as [m |]; [| reflexivity].
  cbn [fst]. destruct (negb _); [rewrite apiKey_setModel |];
    apply view_ensureSlot; reflexivity.
Qed.

Lemma model_migrateOllamaModel o k ps b :
  or_else (cfg_model <$> (migrateOllamaModel o ps).1 !! k) b
    = or_else (cfg_model <$> ps !! k)
        (or_else (if String.eqb k "ollama" then ollamaModelString o else None) b).
Proof.
  unfold migrateOllamaModel.
  destruct (ollamaModelString o) as [m |] eqn:Ho;
    [| cbn [fst]; destruct (String.eqb k "ollama"); reflexivity].
  cbn [fst].
  assert (Hm : truthy m = true).
  { unfold ollamaModelString in Ho. destruct o as [[x |] |]; try discriminate.
    destruct (truthy x) eqn:Hx; [injection Ho as <-; exact Hx | discriminate]. }
  destruct (String.eqb_spec k "ollama") as [-> | Hne].
  - destruct (truthy_opt (cfg_model <$> ensureSlot "ollama" ps !! "ollama")) eqn:Hs;
      cbn [negb].
    + rewrite view_ensureSlot by reflexivity.
      destruct (cfg_model <$> ensureSlot "ollama" ps !! "ollama") as [x |] eqn:Hx;
        [| discriminate].
      assert (Hview := view_ensureSlot cfg_model "ollama" "ollama" ps "" eq_refl).
      rewrite Hx in Hview. simpl in Hs, Hview. rewrite Hs in Hview.
      destruct (cfg_model <$> ps !! "ollama") as [y |]; simpl in Hview |- *.
      * destruct (truthy y) eqn:Hy; [reflexivity |]. subst x. discriminate.
      * subst x. discriminate.
    + rewrite model_set_ensure.
      assert (Hview := view_ensureSlot cfg_model "ollama" "ollama" ps "" eq_refl).
      rewrite (or_else_falsy _ _ Hs) in Hview.
      assert (Hps : truthy_opt (cfg_model <$> ps !! "ollama") = false).
      { destruct (cfg_model <$> ps !! "ollama") as [y |]; [| reflexivity].
        simpl in Hview |- *. destruct (truthy y) eqn:Hy; [| reflexivity].
        subst y. discriminate. }
      rewrite (or_else_falsy _ _ Hps). simpl. rewrite Hm. reflexivity.
  - destruct (negb _).
    + unfold setModel. rewrite lookup_alter_ne by congruence.
      apply view_ensureSlot. reflexivity.
    + apply view_ensureSlot. reflexivity.
Qed.

Section WithPlatform.
Context `{Platform}.

Lemma findProvider_default p info :
  findProvider p = Some info -> defaultModel info <> "".
Proof.
  unfold findProvider, PROVIDERS. cbn [List.find info_id].
  repeat match goal with
  | |- context [String.eqb ?a p] => destruct (String.eqb a p)
  end; intros [= <-]; discriminate.
Qed.

(** X1. [getModel] falls back from the stored model to the provider's default:
    with the providers map in place it returns the stored model when that is
    non-empty, a non-empty model for each of the four known providers, and
    the empty string only for an unknown provider with nothing stored. *)
Theorem getModel_fallback (s : AiSettings) (ps : gmap string ProviderConfig) :
  providers s = Some ps ->
  exists m,
    getModel s = Ret m /\
    (forall c, ps !! provider s = Some c -> cfg_model c <> "" -> m = cfg_model c) /\
    (In (provider s) knownProviders -> m <> "") /\
    (m = "" -> ~ In (provider s) knownProviders /\ truthy_opt (storedModel s) = false).
Proof.
  intros Hps. unfold getModel, providerSlot. rewrite Hps. cbn [bind].
  eexists. split; [reflexivity |].
  pose proof (findProvider_spec (provider s)) as Hspec.
  assert (Hknown : In (provider s) knownProviders ->
            or_else (cfg_model <$> ps !! provider s)
              (or_else (defaultModel <$> findProvider (provider s)) "") <> "").
  { intros Hin. destruct (findProvider (provider s)) as [info |] eqn:Hf;
      [| contradiction].
    apply or_else_nonempty. cbn [fmap option_fmap option_map or_else].
    pose proof (findProvider_default _ _ Hf) as Hd.
    apply truthy_true in Hd as Hd'. rewrite Hd'. exact Hd. }
  split; [| split].
  - intros c Hc Hne. rewrite Hc. cbn [fmap option_fmap option_map].
    apply (or_else_truthy _ (cfg_model c)); [reflexivity | exact Hne].
  - exact Hknown.
  - intros Hm. split.
    + intros Hin. exact (Hknown Hin Hm).
    + unfold storedModel, activeSlot. rewrite Hps. cbn [mbind option_bind].
      destruct (ps !! provider s) as [c |]; [| reflexivity].
      cbn [fmap option_fmap option_map truthy_opt or_else] in *.
      destruct (truthy (cfg_model c)) eqn:Ht; [| reflexivity].
      apply truthy_true in Ht. contradiction.
Qed.

(** X2. Migration hands the flat key over to [getApiKey]: after it, [getApiKey]
    returns the key stored for the active provider when that is non-empty,
    else the flat [apiKey], else the empty string, and it does not throw. *)
Theorem getApiKey_after_migration (s : AiSettings) :
  getApiKey (migrateSettings s)
    = Ret (or_else (storedKey s) (or_else (apiKey s) "")).
Proof.
  unfold getApiKey, providerSlot. cbn [providers provider migrateSettings bind].
  f_equal.
  rewrite apiKey_migrateOllamaModel, apiKey_migrateModel, apiKey_migrateApiKey.
  unfold storedKey, activeSlot. destruct (providers s) as [ps |]; reflexivity.
Qed.

(** X3. The same for the model, with the precedence the order of the steps
    gives: the stored model, then the flat [model], then (for the provider
    ["ollama"]) the legacy [ollamaModel], then the provider's default. *)
Theorem getModel_after_migration (s : AiSettings) :
  getModel (migrateSettings s)
    = Ret (or_else (storedModel s)
            (or_else (model s)
              (or_else (legacyOllamaModel s)
                (or_else (defaultModel <$> findProvider (provider s)) "")))).
Proof.
  unfold getModel, providerSlot. cbn [providers provider migrateSettings bind].
  f_equal.
  rewrite model_migrateOllamaModel, model_migrateModel, model_migrateApiKey.
  unfold storedModel, activeSlot, legacyOllamaModel.
  destruct (providers s) as [ps |]; reflexivity.
Qed.

(** X4. [getProviderName] never shows a blank name: it is ["Unknown"] for a
    provider id outside [PROVIDERS], and otherwise the entry's display name
    unless that is empty. *)
Theorem getProviderName_shown (s : AiSettings) :
  getProviderName s <> "" /\
  (~ In (provider s) knownProviders -> getProviderName s = "Unknown") /\
  (forall info, findProvider (provider s) = Some info ->
     In (provider s) knownProviders /\
     (info_name info <> "" -> getProviderName s = info_name info)).
Proof.
  unfold getProviderName.
  pose proof (findProvider_spec (provider s)) as Hspec.
  split; [apply or_else_nonempty; discriminate |]. split.
  - intros Hno. destruct (findProvider (provider s)); [| reflexivity].
    destruct Hspec as [Hin _]. contradiction.
  - intros info Hf. rewrite Hf in Hspec |- *. split; [apply Hspec |].
    intros Hne. apply (or_else_truthy _ (info_name info)); [reflexivity | exact Hne].
Qed.

End WithPlatform.

Lemma getModel_fallback_witness :
  exists m,
    getModel (H := Example.platform) Example.openAiSettings = Ret m /\
    (forall c, ({[ "openai" := Example.storedSlot ]} : gmap string ProviderConfig)
                 !! provider Example.openAiSettings = Some c ->
               cfg_model c <> "" -> m = cfg_model c) /\
    (In (provider Example.openAiSettings) knownProviders -> m <> "") /\
    (m = "" -> ~ In (provider Example.openAiSettings) knownProviders /\
               truthy_opt (storedModel Example.openAiSettings) = false).
Proof.
  apply (getModel_fallback (H := Example.platform) Example.openAiSettings
           {[ "openai" := Example.storedSlot ]}).
  reflexivity.
Defined.

(** *** The shape migration establishes *)

Lemma migrated_migrateSettings s : migrated (migrateSettings s).
Proof.
  unfold migrated. cbn [apiKey model ollamaModel providers persona migrateSettings].
  split; [reflexivity |]. split; [reflexivity |].
  split; [apply ollamaModelString_left |]. split; [eauto |].
  eexists. split; [reflexivity | apply ensurePersona_custom].
Qed.

Lemma migrateSettings_migrated s : migrated s -> migrateSettings s = s.
Proof.
  intros (Ha & Hm & Ho & [ps Hps] & pe & Hpe & [c Hc]).
  destruct s as [en p a m o pso u peo]. cbn in Ha, Hm, Ho, Hps, Hpe. subst.
  unfold migrateSettings.
  cbn [apiKey model ollamaModel providers persona provider enabled ollamaUrl default].
  rewrite migrateApiKey_absent, migrateModel_absent.
  rewrite (migrateOllamaModel_done _ _ Ho). cbn [fst snd].
  unfold ensurePersona. simpl. rewrite Hc. reflexivity.
Qed.

(** X5. The settings migration leaves alone are exactly those already in the
    per-provider format (no flat [apiKey] or [model], no non-empty string
    [ollamaModel], the providers map and a persona with its custom part in
    place), and every result of migration is in that format. *)
Theorem migrateSettings_fixed_points (s : AiSettings) :
  migrated (migrateSettings s) /\ (migrateSettings s = s <-> migrated s).
Proof.
  split; [apply migrated_migrateSettings |]. split.
  - intros <-. apply migrated_migrateSettings.
  - apply migrateSettings_migrated.
Qed.

Lemma lookup_ensureSlot_ne p k (ps : gmap string ProviderConfig) :
  k <> p -> ensureSlot p ps !! k = ps !! k.
Proof.
  intros Hne. unfold ensureSlot. destruct (ps !! p); [reflexivity |].
  apply lookup_insert_ne. congruence.
Qed.

Lemma lookup_migrateApiKey_ne legacy p k ps :
  k <> p -> migrateApiKey legacy p ps !! k = ps !! k.
Proof.
  intros Hne. unfold migrateApiKey. destruct (_ && _); [| reflexivity].
  unfold setApiKey. rewrite lookup_alter_ne by congruence.
  apply lookup_ensureSlot_ne, Hne.
Qed.

Lemma lookup_migrateModel_ne legacy p k ps :
  k <> p -> migrateModel legacy p ps !! k = ps !! k.
Proof.
  intros Hne. unfold migrateModel. destruct (_ && _); [| reflexivity].
  unfold setModel. rewrite lookup_alter_ne by congruence.
  apply lookup_ensureSlot_ne, Hne.
Qed.

Lemma lookup_migrateOllamaModel_ne o k ps :
  k <> "ollama" -> (migrateOllamaModel o ps).1 !! k = ps !! k.
Proof.
  intros Hne. unfold migrateOllamaModel.
  destruct (ollamaModelString o); [| reflexivity]. cbn [fst].
  destruct (negb _).
  - unfold setModel. rewrite lookup_alter_ne by congruence.
    apply lookup_ensureSlot_ne, Hne.
  - apply lookup_ensureSlot_ne, Hne.
Qed.

(** X6. Migration writes nowhere else: the slot of every provider other than the
    active one and ["ollama"] is as it was (absent if it was absent), the
    [enabled] flag, the provider id and the Ollama URL are unchanged, and so
    is a persona that has its custom part. *)
Theorem migrateSettings_frame (s : AiSettings) :
  enabled (migrateSettings s) = enabled s /\
  provider (migrateSettings s) = provider s /\
  ollamaUrl (migrateSettings s) = ollamaUrl s /\
  (forall pe, persona s = Some pe -> is_Some (custom pe) ->
     persona (migrateSettings s) = Some pe) /\
  (forall k, k <> provider s -> k <> "ollama" ->
     providers (migrateSettings s) ≫= (.!! k) = providers s ≫= (.!! k)).
Proof.
  repeat (split; [reflexivity |]). split.
  - intros pe Hpe [c Hc]. cbn [persona migrateSettings]. rewrite Hpe.
    unfold ensurePersona. simpl. rewrite Hc. reflexivity.
  - intros k Hp Ho. cbn [providers migrateSettings mbind option_bind].
    rewrite (lookup_migrateOllamaModel_ne _ _ _ Ho).
    rewrite (lookup_migrateModel_ne _ _ _ _ Hp), (lookup_migrateApiKey_ne _ _ _ _ Hp).
    destruct (providers s); [reflexivity | apply lookup_empty].
Qed.

(** *** Loading and saving *)

Lemma assignDefaults_savedOf s :
  is_Some (providers s) -> is_Some (persona s) ->
  assignDefaults (Some (savedOf s)) = s.
Proof.
  intros [ps Hps] [pe Hpe]. destruct s as [en p a m o pso u peo].
  cbn in Hps, Hpe. subst. reflexivity.
Qed.

Section WithPlatform.
Context `{Platform}.

(** X7. What [loadSettings] leaves in [this.settings] (and saves) is read back
    unchanged by the next [loadSettings]; it is in the per-provider format,
    and on it neither [getApiKey], [getModel] nor [isConfigured] throws. *)
Theorem loadSettings_round_trip (data : option SavedData) :
  loadSettings (Some (savedOf (loadSettings data))) = loadSettings data /\
  migrated (loadSettings data) /\
  (exists key, getApiKey (loadSettings data) = Ret key) /\
  (exists m, getModel (loadSettings data) = Ret m) /\
  (exists b, isConfigured (loadSettings data) = Ret b).
Proof.
  unfold loadSettings. set (s := assignDefaults data).
  split; [| split; [apply migrated_migrateSettings |]].
  - rewrite assignDefaults_savedOf.
    + apply migrateSettings_idempotent.
    + cbn. eauto.
    + cbn. eauto.
  - assert (Hkey : exists key, getApiKey (migrateSettings s) = Ret key).
    { unfold getApiKey, providerSlot. cbn [providers migrateSettings bind]. eauto. }
    split; [exact Hkey |]. split.
    + unfold getModel, providerSlot. cbn [providers migrateSettings bind]. eauto.
    + destruct Hkey as [key Hkey]. unfold isConfigured. rewrite Hkey.
      destruct (negb _); [eauto |].
      destruct (findProvider _) as [info |]; [| eauto].
      destruct (needsApiKey info); [| eauto].
      cbn [bind]. destruct (negb _); eauto.
Qed.

End WithPlatform.

End SettingsMore.

(** ** The fields of the settings tab *)

Module HandlersMore.
Import Js Types Main Plugin SettingTab Spec MoreSpec TypesProps MainProps.

Lemma or_else_some_empty x : or_else (Some x) "" = x.
Proof. destruct x; reflexivity. Qed.

Section WithPlatform.
Context `{Platform}.

(** X8. Typing into the API key field stores the trimmed text as the active
    provider's key: [getApiKey] returns it afterwards, the model in use and
    the slots of the other providers are as before, and with the plugin
    enabled and a provider that needs a key, [isConfigured] holds afterwards
    exactly when the trimmed text is not empty. *)
Theorem onApiKeyChange_stores (v : string) (s : AiSettings)
    (ps : gmap string ProviderConfig) :
  providers s = Some ps ->
  exists s',
    onApiKeyChange v s = Ret s' /\
    getApiKey s' = Ret (trim v) /\
    getModel s' = getModel s /\
    provider s' = provider s /\
    (forall k, k <> provider s -> providers s' ≫= (.!! k) = ps !! k) /\
    (enabled s = true ->
     forall info, findProvider (provider s) = Some info -> needsApiKey info = true ->
       (isConfigured s' = Ret true <-> trim v <> "")).
Proof.
  intros Hps. unfold onApiKeyChange, ensureProvider, providersOf. rewrite Hps.
  cbn [bind withProviders providers provider]. eexists. split; [reflexivity |].
  assert (Hkey : getApiKey
            (withProviders (withProviders s (ensureSlot (provider s) ps))
               (setApiKey (provider s) (trim v) (ensureSlot (provider s) ps)))
            = Ret (trim v)).
  { unfold getApiKey, providerSlot. cbn [bind withProviders providers provider].
    rewrite SettingsMore.apiKey_set_ensure. f_equal. apply or_else_some_empty. }
  split; [exact Hkey |]. split; [| split; [reflexivity | split]].
  - unfold getModel, providerSlot. rewrite Hps.
    cbn [bind withProviders providers provider]. f_equal.
    rewrite SettingsMore.model_setApiKey.
    apply SettingsMore.view_ensureSlot. reflexivity.
  - intros k Hne. cbn [withProviders providers mbind option_bind].
    unfold setApiKey. rewrite lookup_alter_ne by congruence.
    apply SettingsMore.lookup_ensureSlot_ne, Hne.
  - intros Hen info Hf Hneeds. unfold isConfigured. rewrite Hkey.
    cbn [withProviders enabled provider]. rewrite Hen, Hf, Hneeds. cbn [negb bind].
    destruct (truthy (trim v)) eqn:Ht; cbn [negb].
    + apply truthy_true in Ht. split; [intros _; exact Ht | reflexivity].
    + apply truthy_false in Ht. split; [discriminate | congruence].
Qed.

(** X9. Typing into the model field stores the trimmed text as the active
    provider's model: [getModel] returns it afterwards when it is not empty
    and the provider's default model when it is (clearing the field brings
    the default back), and the key in use and the other slots are as
    before. *)
Theorem onModelChange_stores (v : string) (s : AiSettings)
    (ps : gmap string ProviderConfig) :
  providers s = Some ps ->
  exists s',
    onModelChange v s = Ret s' /\
    getModel s'
      = Ret (or_else (Some (trim v))
               (or_else (defaultModel <$> findProvider (provider s)) "")) /\
    getApiKey s' = getApiKey s /\
    provider s' = provider s /\
    (forall k, k <> provider s -> providers s' ≫= (.!! k) = ps !! k).
Proof.
  intros Hps. unfold onModelChange, ensureProvider, providersOf. rewrite Hps.
  cbn [bind withProviders providers provider]. eexists. split; [reflexivity |].
  split; [| split; [| split; [reflexivity |]]].
  - unfold getModel, providerSlot. cbn [bind withProviders providers provider].
    rewrite SettingsMore.model_set_ensure. reflexivity.
  - unfold getApiKey, providerSlot. rewrite Hps.
    cbn [bind withProviders providers provider]. f_equal.
    rewrite SettingsMore.apiKey_setModel.
    apply SettingsMore.view_ensureSlot. reflexivity.
  - intros k Hne. cbn [withProviders providers mbind option_bind].
    unfold setModel. rewrite lookup_alter_ne by congruence.
    apply SettingsMore.lookup_ensureSlot_ne, Hne.
Qed.

(** X10. Both fields write through [s.providers]: on settings without the
    providers map the handlers throw the engine's [TypeError] and store
    nothing; after [loadSettings] they do not throw. *)
Theorem handlers_need_providers (v : string) (s : AiSettings) :
  (providers s = None ->
     (exists e, onApiKeyChange v s = Throw e) /\
     (exists e, onModelChange v s = Throw e)) /\
  (forall data, exists s1 s2,
     onApiKeyChange v (loadSettings data) = Ret s1 /\
     onModelChange v (loadSettings data) = Ret s2).
Proof.
  split.
  - intros Hno. unfold onApiKeyChange, onModelChange, ensureProvider, providersOf.
    rewrite Hno. cbn [bind]. eauto.
  - intros data.
    unfold onApiKeyChange, onModelChange, ensureProvider, providersOf, loadSettings.
    cbn [providers migrateSettings bind withProviders]. eauto.
Qed.

Variable lang : string.
Variable minus : number -> number -> Z.




End WithPlatform.

(** X12. The Ollama URL field never stores an empty URL: a text that is empty
    once trimmed stores the default ["http://localhost:11434"], any other
    text is stored trimmed; nothing else changes. *)
Theorem onOllamaUrlChange_stores (v : string) (s : AiSettings) :
  ollamaUrl (onOllamaUrlChange v s) <> "" /\
  (trim v = "" -> ollamaUrl (onOllamaUrlChange v s) = "http://localhost:11434") /\
  (trim v <> "" -> ollamaUrl (onOllamaUrlChange v s) = trim v) /\
  providers (onOllamaUrlChange v s) = providers s /\
  provider (onOllamaUrlChange v s) = provider s.
Proof.
  cbn [onOllamaUrlChange ollamaUrl providers provider].
  split; [apply SettingsMore.or_else_nonempty; discriminate |].
  split; [intros ->; reflexivity |]. split; [| split; reflexivity].
  intros Hne. apply (SettingsMore.or_else_truthy _ (trim v)); [reflexivity | exact Hne].
Qed.


Lemma onApiKeyChange_stores_witness :
  exists s',
    onApiKeyChange (H := Example.platform) "  sk-typed " Example.openAiSettings = Ret s' /\
    getApiKey (H := Example.platform) s' = Ret (trim "  sk-typed ") /\
    getModel (H := Example.platform) s'
      = getModel (H := Example.platform) Example.openAiSettings /\
    provider s' = provider Example.openAiSettings /\
    (forall k, k <> provider Example.openAiSettings ->
       providers s' ≫= (.!! k)
         = ({[ "openai" := Example.storedSlot ]} : gmap string ProviderConfig) !! k) /\
    (enabled Example.openAiSettings = true ->
     forall info,
       findProvider (H := Example.platform) (provider Example.openAiSettings) = Some info ->
       needsApiKey info = true ->
       (isConfigured (H := Example.platform) s' = Ret true <-> trim "  sk-typed " <> "")).
Proof.
  apply (onApiKeyChange_stores (H := Example.platform) "  sk-typed "
           Example.openAiSettings {[ "openai" := Example.storedSlot ]}).
  reflexivity.
Defined.

Lemma onModelChange_stores_witness :
  exists s',
    onModelChange (H := Example.platform) " " Example.openAiSettings = Ret s' /\
    getModel (H := Example.platform) s'
      = Ret (or_else (Some (trim " "))
               (or_else (defaultModel <$>
                           findProvider (H := Example.platform)
                             (provider Example.openAiSettings)) "")) /\
    getApiKey (H := Example.platform) s'
      = getApiKey (H := Example.platform) Example.openAiSettings /\
    provider s' = provider Example.openAiSettings /\
    (forall k, k <> provider Example.openAiSettings ->
       providers s' ≫= (.!! k)
         = ({[ "openai" := Example.storedSlot ]} : gmap string ProviderConfig) !! k).
Proof.
  apply (onModelChange_stores (H := Example.platform) " "
           Example.openAiSettings {[ "openai" := Example.storedSlot ]}).
  reflexivity.
Defined.

End HandlersMore.

(** ** The Ollama model endpoints *)

Module OllamaMore.
Import Js Types AiClient OllamaApi Spec MoreSpec.

Section WithPlatform.
Context `{Platform}.
Variable network : string -> RequestInit -> N -> fetched.

(** X13. [listOllamaModels] never throws and calls [fetch] once, a GET of
    [<baseUrl>/api/tags] under the 5 second timer; it returns a non-empty
    list only when that request was answered with a 2xx status and a JSON
    body whose [models] is that array, so a timeout, a refused connection,
    any other status, a body that is not JSON and a body without a [models]
    array all give the empty list. *)
Theorem listOllamaModels_never_throws (baseUrl : string) :
  let init := {| method := "GET"; headers := []; body := None |} in
  let url := baseUrl +:+ "/api/tags" in
  exists items events,
    listOllamaModels network baseUrl = (Ret items, Fetch url init 5000 :: events) /\
    fetches events = 0 /\
    (items <> [] ->
       exists res data,
         network url init 5000%N = Fulfilled res /\ res_ok res = true /\
         json res = Ret data /\ get data "models" = VArr items).
Proof.
  intros init url.
  unfold listOllamaModels, fetchWithTimeout, readJson, tryCatch, iobind, emit, lift,
    ioret.
  cbn [fst snd app]. fold init. fold url.
  destruct (network url init 5000%N) as [res | | e] eqn:Hnet; cbn [fst snd app];
    try (exists [], []; split; [reflexivity | split; [reflexivity | intros Hne; contradiction]]).
  destruct (res_ok res) eqn:Hok; cbn [negb fst snd app];
    [| exists [], []; split; [reflexivity | split; [reflexivity | intros Hne; contradiction]]].
  destruct (json res) as [data | e] eqn:Hjson; cbn [fst snd app];
    [| exists [], [ReadJson]; split; [reflexivity | split; [reflexivity | intros Hne; contradiction]]].
  exists (modelsOf data), [ReadJson]. split; [reflexivity | split; [reflexivity |]].
  intros Hne. exists res, data. split; [reflexivity | split; [exact Hok | split; [exact Hjson |]]].
  unfold modelsOf in *. destruct (get data "models"); try contradiction. reflexivity.
Qed.

(** X14. [showOllamaModel] never throws and calls [fetch] once, a POST of the
    model name to [<baseUrl>/api/show] under the 5 second timer; it returns
    [null], never [undefined], unless that request was answered with a 2xx
    status and a JSON body, and then the body's [details]. *)
Theorem showOllamaModel_never_throws (baseUrl modelName : string) :
  let init := {| method := "POST"; headers := [("Content-Type", "application/json")];
                 body := Some (VObj [("model", VStr modelName)]) |} in
  let url := baseUrl +:+ "/api/show" in
  exists details events,
    showOllamaModel network baseUrl modelName
      = (Ret details, Fetch url init 5000 :: events) /\
    fetches events = 0 /\
    details <> VUndefined /\
    (details <> VNull ->
       exists res data,
         network url init 5000%N = Fulfilled res /\ res_ok res = true /\
         json res = Ret data /\ get data "details" = details).
Proof.
  intros init url.
  unfold showOllamaModel, fetchWithTimeout, readJson, tryCatch, iobind, emit, lift,
    ioret, jsonHeaders.
  cbn [fst snd app]. fold init. fold url.
  destruct (network url init 5000%N) as [res | | e] eqn:Hnet; cbn [fst snd app];
    try (exists VNull, []; split; [reflexivity | split; [reflexivity | split;
         [discriminate | intros Hne; contradiction]]]).
  destruct (res_ok res) eqn:Hok; cbn [negb fst snd app];
    [| exists VNull, []; split; [reflexivity | split; [reflexivity | split;
       [discriminate | intros Hne; contradiction]]]].
  destruct (json res) as [data | e] eqn:Hjson; cbn [fst snd app];
    [| exists VNull, [ReadJson]; split; [reflexivity | split; [reflexivity | split;
       [discriminate | intros Hne; contradiction]]]].
  exists (detailsOf data), [ReadJson]. split; [reflexivity | split; [reflexivity | split]].
  - unfold detailsOf. destruct (get data "details"); discriminate.
  - intros Hne. exists res, data.
    split; [reflexivity | split; [exact Hok | split; [exact Hjson |]]].
    unfold detailsOf in *. destruct (get data "details"); try contradiction; reflexivity.
Qed.

End WithPlatform.

End OllamaMore.

(** ** What [redactError] leaves and what it masks *)

Module RedactMore.
Import Js Regex AiClient Spec MoreSpec TypesProps RegexProps RedactProps.

Lemma allAscii_complete c : In c allAscii.
Proof.
  unfold allAscii. rewrite <- (ascii_nat_embedding c).
  apply in_map, in_seq. pose proof (nat_ascii_bounded c). lia.
Qed.

Section Closed.
Context {A : Type}.
Variable P : chars -> Prop.
Hypothesis P_tail : forall c s, P (c :: s) -> P s.

Lemma star_closed cls s (k : chars -> option A) :
  P s -> (forall s', P s' -> k s' = None) -> star cls s k = None.
Proof.
  intros Hs Hk. induction s as [| c s IH]; simpl; [apply Hk, Hs |].
  destruct (cls c); [| apply Hk, Hs].
  rewrite IH by (eapply P_tail, Hs). apply Hk, Hs.
Qed.

(** A continuation that fails on every text of [P] makes the match fail. *)
Lemma run_closed r : forall s cap (k : chars -> option chars -> option A),
  P s -> (forall s' cap', P s' -> k s' cap' = None) -> run r s cap k = None.
Proof.
  induction r; intros s cap k Hs Hk; simpl.
  - apply Hk, Hs.
  - destruct s as [| c s]; [reflexivity |].
    destruct (cls c); [apply Hk; eapply P_tail, Hs | reflexivity].
  - apply IHr1; [exact Hs |]. intros s' cap' Hs'. apply IHr2; assumption.
  - rewrite IHr1, IHr2 by assumption. reflexivity.
  - rewrite IHr by assumption. apply Hk, Hs.
  - apply star_closed; [exact Hs |]. intros s' Hs'. apply Hk, Hs'.
  - apply IHr; [exact Hs |]. intros s' cap' Hs'. apply Hk, Hs'.
Qed.

End Closed.

Section Needs.
Variable bad : ascii -> bool.

Lemma clean_tail c s : clean bad (c :: s) -> clean bad s.
Proof. intros Hs. inversion Hs. assumption. Qed.

(** A pattern that needs a character of [bad] matches nowhere in a text
    without one. *)
Lemma needs_run {A} r : forall s cap (k : chars -> option chars -> option A),
  needs bad r = true -> clean bad s -> run r s cap k = None.
Proof.
  induction r; intros s cap k Hneeds Hs; cbn [needs] in Hneeds; cbn [run];
    try discriminate.
  - destruct s as [| c s]; [reflexivity |].
    destruct (cls c) eqn:Hc; [| reflexivity]. exfalso.
    rewrite forallb_forall in Hneeds. specialize (Hneeds c (allAscii_complete c)).
    inversion Hs as [| ? ? Hbad _]. rewrite Hc, Hbad in Hneeds. discriminate.
  - apply orb_prop in Hneeds as [H1 | H2]; [apply IHr1; assumption |].
    apply (run_closed (clean bad) clean_tail); [exact Hs |].
    intros s' cap' Hs'. apply IHr2; assumption.
  - apply andb_prop in Hneeds as [H1 H2]. rewrite IHr1, IHr2 by assumption.
    reflexivity.
  - apply IHr; assumption.
Qed.

Lemma replaceFrom_clean r repl s :
  needs bad r = true -> clean bad s -> replaceFrom r repl 0 s = s.
Proof.
  intros Hneeds Hs. induction s as [| c s IH]; simpl.
  - unfold exec. rewrite (needs_run r) by assumption. reflexivity.
  - unfold exec at 1. rewrite (needs_run r) by assumption.
    rewrite IH by (eapply clean_tail, Hs). reflexivity.
Qed.

End Needs.

Lemma replaceAll_absent pattern replacement s :
  occurs pattern s = false -> replaceAll pattern replacement s = s.
Proof.
  unfold replaceAll. induction s as [| c s IH]; [reflexivity |].
  cbn [occurs replaceAllFrom]. intros [Hhead Htail]%orb_false_elim.
  rewrite Hhead, (IH Htail). reflexivity.
Qed.

Lemma redactKnownKey_absent apiKey error :
  mentions apiKey error = false -> redactKnownKey apiKey (txt error) = txt error.
Proof.
  unfold mentions, redactKnownKey. destruct apiKey as [k |]; [| reflexivity].
  destruct (truthy k && (4 <? String.length k)); [| reflexivity].
  cbn [andb]. apply replaceAll_absent.
Qed.

(** *** The known key *)

Lemma replaceAllFrom_skip pattern replacement s : forall skip,
  replaceAllFrom pattern replacement skip s
    = replaceAllFrom pattern replacement 0 (drop skip s).
Proof.
  induction s as [| c s IH]; intros [| skip]; try reflexivity.
  cbn [replaceAllFrom drop]. apply IH.
Qed.

Section KnownKey.
Variable key : chars.
Hypothesis key_brackets : bracketFree key = true.

(** A text without brackets that starts the replaced text starts the
    original text. *)
Lemma startsWith_replaced q : forall s,
  bracketFree q = true ->
  startsWith q (replaceAllFrom key (txt "[REDACTED]") 0 s) = true ->
  startsWith q s = true.
Proof.
  induction q as [| a q IH]; intros s Hq; [reflexivity |].
  cbn [bracketFree forallb] in Hq. apply andb_prop in Hq as [Ha Hq].
  destruct s as [| c s]; [discriminate |]. cbn [replaceAllFrom].
  destruct (startsWith key (c :: s)).
  - cbn [txt list_ascii_of_string app startsWith]. intros [Hopen _]%andb_prop.
    unfold isChar in Ha. rewrite Ascii.eqb_sym in Hopen.
    rewrite Hopen in Ha. discriminate.
  - cbn [startsWith]. intros [-> Hrest]%andb_prop. apply (IH s Hq Hrest).
Qed.

(** The key starts before a closing bracket only if it ends before it. *)
Lemma startsWith_before_bracket q : forall x rest,
  bracketFree q = true ->
  startsWith q (x ++ "]"%char :: rest) = true -> startsWith q x = true.
Proof.
  induction q as [| a q IH]; intros x rest Hq; [reflexivity |].
  cbn [bracketFree forallb] in Hq. apply andb_prop in Hq as [Ha Hq].
  destruct x as [| c x]; cbn [app startsWith].
  - intros [Hclose _]%andb_prop. unfold isChar in Ha.
    rewrite Ascii.eqb_sym in Hclose. rewrite Hclose, orb_true_r in Ha. discriminate.
  - intros [-> Hrest]%andb_prop. apply (IH x rest Hq Hrest).
Qed.

Hypothesis key_nonempty : key <> [].
Hypothesis key_outside : occurs key (txt "REDACTED") = false.

Lemma occurs_after_replacement rest :
  occurs key rest = false -> occurs key (txt "[REDACTED]" ++ rest) = false.
Proof.
  intros Hrest.
  assert (Hin : forall x, occurs key x = false -> startsWith key x = false).
  { intros [| c x]; cbn [occurs]; intros Hx; apply orb_false_elim in Hx; apply Hx. }
  assert (Hsuffix : forall x, startsWith key x = false ->
            startsWith key (x ++ "]"%char :: rest) = false).
  { intros x Hx. destruct (startsWith key (x ++ _ :: rest)) eqn:E; [| reflexivity].
    rewrite (startsWith_before_bracket _ _ _ key_brackets E) in Hx. discriminate. }
  cbn [txt list_ascii_of_string] in key_outside |- *.
  cbn [occurs] in key_outside.
  repeat (apply orb_false_elim in key_outside as [? key_outside]).
  cbn [app occurs].
  repeat match goal with
  | |- (startsWith key ("["%char :: ?t) || _)%bool = false =>
      apply orb_false_intro;
      [destruct key as [| a k]; [contradiction |];
       cbn [bracketFree forallb] in key_brackets;
       apply andb_prop in key_brackets as [Ha _]; unfold isChar in Ha;
       cbn [startsWith]; destruct (Ascii.eqb a "[") eqn:Eo;
       [rewrite Ascii.eqb_sym in Eo; rewrite Eo in Ha; discriminate | reflexivity] |]
  | |- (startsWith key ?t || _)%bool = false =>
      apply orb_false_intro;
      [first [ apply (Hsuffix []); assumption
             | apply (Hsuffix [_]); assumption
             | apply (Hsuffix [_; _]); assumption
             | apply (Hsuffix [_; _; _]); assumption
             | apply (Hsuffix [_; _; _; _]); assumption
             | apply (Hsuffix [_; _; _; _; _]); assumption
             | apply (Hsuffix [_; _; _; _; _; _]); assumption
             | apply (Hsuffix [_; _; _; _; _; _; _]); assumption
             | apply (Hsuffix [_; _; _; _; _; _; _; _]); assumption ] |]
  end.
  exact Hrest.
Qed.

Lemma occurs_replaceAll : forall n s, length s <= n ->
  occurs key (replaceAllFrom key (txt "[REDACTED]") 0 s) = false.
Proof.
  induction n as [| n IH]; intros [| c s] Hlen; try reflexivity;
    try (destruct key; [contradiction | reflexivity]).
  - simpl in Hlen. lia.
  - cbn [replaceAllFrom]. destruct (startsWith key (c :: s)) eqn:Hhead.
    + rewrite replaceAllFrom_skip. apply occurs_after_replacement, IH.
      rewrite length_drop. simpl in Hlen. lia.
    + cbn [occurs]. apply orb_false_intro; [| apply IH; simpl in Hlen; lia].
      destruct (startsWith key (c :: replaceAllFrom key _ 0 s)) eqn:E; [| reflexivity].
      assert (Hs : startsWith key (replaceAllFrom key (txt "[REDACTED]") 0 (c :: s)) = true).
      { cbn [replaceAllFrom]. rewrite Hhead. exact E. }
      apply (startsWith_replaced _ _ key_brackets) in Hs. congruence.
Qed.

End KnownKey.

(** X15. The literal replacement of line 27 removes the known key: a key of more
    than four characters that has no square bracket and is not a part of
    the word [REDACTED] does not occur in the text after that step. *)
Theorem redactKnownKey_removes (key error : string) :
  4 < String.length key ->
  bracketFree (txt key) = true ->
  occurs (txt key) (txt "REDACTED") = false ->
  occurs (txt key) (redactKnownKey (Some key) (txt error)) = false.
Proof.
  intros Hlen Hbr Hout. unfold redactKnownKey.
  assert (Hne : key <> "") by (intros ->; simpl in Hlen; lia).
  apply truthy_true in Hne as Ht. rewrite Ht.
  apply Nat.ltb_lt in Hlen as Hlen'. rewrite Hlen'. cbn [andb].
  unfold replaceAll. eapply occurs_replaceAll; try eassumption; [| reflexivity].
  apply txt_nonempty, Hne.
Qed.

Lemma redactKnownKey_removes_witness :
  occurs (txt "sk-12345")
    (redactKnownKey (Some "sk-12345") (txt "401 for sk-12345 (sk-12345)")) = false.
Proof.
  apply (redactKnownKey_removes "sk-12345" "401 for sk-12345 (sk-12345)");
    [vm_compute; lia | reflexivity | reflexivity].
Defined.

(** *** Matches at the head of a text *)

Lemma ascii_all (P : ascii -> bool) : forallb P allAscii = true -> forall c, P c = true.
Proof. intros Hall c. rewrite forallb_forall in Hall. apply Hall, allAscii_complete. Qed.

Lemma space_not_notSpace c : notSpace c = true -> isSpace c = false.
Proof. unfold notSpace. destruct (isSpace c); [discriminate | reflexivity]. Qed.

Lemma endsRun_isSpace v post :
  v <> [] -> Forall (fun c => notSpace c = true) v -> endsRun isSpace (v ++ post).
Proof.
  intros Hne Hv. destruct v as [| c v]; [contradiction |]. right.
  exists c, (v ++ post). split; [reflexivity |].
  apply space_not_notSpace. inversion Hv. assumption.
Qed.

(** [cls*] runs through a run of the class when what follows can go on
    from its end. *)
Lemma star_run {A} cls ws rest (k : chars -> option A) :
  Forall (fun c => cls c = true) ws -> endsRun cls rest -> k rest <> None ->
  star cls (ws ++ rest) k = k rest.
Proof.
  intros Hws Hrest Hk. induction Hws as [| c ws Hc Hws IH]; cbn [app].
  - destruct Hrest as [-> | (c & rest' & -> & Hc)]; simpl; [reflexivity |].
    rewrite Hc. reflexivity.
  - simpl. rewrite Hc, IH. destruct (k rest); [reflexivity | contradiction].
Qed.

Lemma plus_greedy {A} cls v post cap (k : chars -> option chars -> option A) :
  v <> [] -> Forall (fun c => cls c = true) v -> endsRun cls post ->
  (forall t c, k t c <> None) ->
  run (Plus cls) (v ++ post) cap k = k post cap.
Proof.
  intros Hne Hv Hpost Hk. destruct v as [| c v]; [contradiction |].
  inversion Hv as [| ? ? Hc Hv']. subst. unfold Plus. cbn [app run]. rewrite Hc.
  rewrite star_greedy by (intros t; apply Hk).
  destruct (takeClass_all cls v post Hv' Hpost) as [_ ->]. reflexivity.
Qed.

(** Backtracking out of [cls*]: when what follows gives the same result
    wherever it succeeds, that is the result. *)
Lemma star_const {A} cls post (k : chars -> option A) x : forall run,
  Forall (fun c => cls c = true) run -> endsRun cls post ->
  (forall t1 t2, run = t1 ++ t2 -> k (t2 ++ post) = None \/ k (t2 ++ post) = Some x) ->
  (star cls (run ++ post) k = None \/ star cls (run ++ post) k = Some x) /\
  ((exists t1 t2, run = t1 ++ t2 /\ k (t2 ++ post) = Some x) ->
   star cls (run ++ post) k = Some x).
Proof.
  intros run Hrun Hpost. induction Hrun as [| c run Hc Hrun IH]; intros Hk.
  - assert (Hstar : star cls ([] ++ post) k = k post).
    { destruct Hpost as [-> | (c & post' & -> & Hc)]; simpl; [reflexivity |].
      rewrite Hc. reflexivity. }
    rewrite Hstar. split; [apply (Hk [] []); reflexivity |].
    intros (t1 & t2 & Heq & Hsome). symmetry in Heq.
    apply app_eq_nil in Heq as [_ ->]. exact Hsome.
  - destruct IH as [IH1 IH2].
    { intros t1 t2 ->. apply (Hk (c :: t1) t2). reflexivity. }
    cbn [app star]. rewrite Hc. split.
    + destruct IH1 as [-> | ->]; [| auto]. apply (Hk [] (c :: run)). reflexivity.
    + intros (t1 & t2 & Heq & Hsome). destruct t1 as [| c' t1].
      * cbn [app] in Heq. subst t2. destruct IH1 as [-> | ->]; [exact Hsome | reflexivity].
      * injection Heq as _ Heq. rewrite IH2 by eauto. reflexivity.
Qed.

Section Matches.
Variable r : regex.
Variable repl : chars -> option chars -> chars.

(** The leftmost match is replaced and the scan goes on after it. *)
Lemma replaceFrom_match m rest cap :
  m <> [] ->
  exec r (m ++ rest) = Some (length (m ++ rest) - length rest, cap) ->
  replaceFrom r repl 0 (m ++ rest) = repl m cap ++ replaceFrom r repl 0 rest.
Proof.
  intros Hne Hexec. destruct m as [| c m]; [contradiction |].
  cbn [app] in Hexec |- *. apply replaceFrom_hit. rewrite Hexec. f_equal. f_equal.
  cbn [length]. rewrite length_app. lia.
Qed.

Lemma replaceFrom_quiet pre rest :
  quiet r pre rest = true ->
  replaceFrom r repl 0 (pre ++ rest) = pre ++ replaceFrom r repl 0 rest.
Proof.
  induction pre as [| c pre IH]; [reflexivity |]. cbn [quiet].
  destruct (exec r ((c :: pre) ++ rest)) eqn:Hexec; [discriminate |].
  intros Hq. cbn [app replaceFrom] in Hexec |- *. rewrite Hexec, (IH Hq). reflexivity.
Qed.

Lemma replaceGlobal_leftmost pre m rest cap :
  quiet r pre (m ++ rest) = true -> m <> [] ->
  exec r (m ++ rest) = Some (length (m ++ rest) - length rest, cap) ->
  replaceGlobal r repl (pre ++ m ++ rest)
    = pre ++ repl m cap ++ replaceGlobal r repl rest.
Proof.
  intros Hq Hne Hexec. unfold replaceGlobal.
  rewrite (replaceFrom_quiet _ _ Hq), (replaceFrom_match _ _ _ Hne Hexec). reflexivity.
Qed.

End Matches.

(** [header:\s*\S+] at a header line. *)
Lemma exec_headerPattern header name ws v post :
  sameCI (txt header) name ->
  Forall (fun c => isSpace c = true) ws ->
  v <> [] -> Forall (fun c => notSpace c = true) v -> endsRun notSpace post ->
  exec (headerPattern header) ((name ++ ws ++ v) ++ post)
    = Some (length ((name ++ ws ++ v) ++ post) - length post, None).
Proof.
  intros Hname Hws Hne Hv Hpost. unfold exec, headerPattern. cbn [run].
  rewrite run_lit. rewrite <- !app_assoc.
  rewrite (matchesLit_sameCI _ _ _ Hname).
  rewrite <- (sameCI_length _ _ Hname), drop_app_length.
  assert (Hplus : forall k : chars -> option chars -> option (nat * option chars),
            (forall t c, k t c <> None) ->
            run (Plus notSpace) (v ++ post) None k = k post None).
  { intros k Hk. apply plus_greedy; assumption. }
  rewrite star_run; try assumption.
  - rewrite Hplus by (intros; discriminate). reflexivity.
  - apply endsRun_isSpace; assumption.
  - rewrite Hplus by (intros; discriminate). discriminate.
Qed.

Lemma sameCI_not_space p name c rest :
  sameCI (p :: rest) (c :: name) ->
  forallb (fun x => negb (isCI p x) || negb (isSpace x)) allAscii = true ->
  isSpace c = false.
Proof.
  intros Hs Hall. inversion Hs as [| ? ? ? ? Hpc _]. subst.
  pose proof (ascii_all _ Hall c) as Hc. cbn beta in Hc. rewrite Hpc in Hc.
  destruct (isSpace c); [discriminate | reflexivity].
Qed.

(** [Authorization:\s*(Bearer\s+)?\S+] at a bearer token. *)
Lemma exec_authorization_bearer name ws bearer ws2 tok post :
  sameCI (txt "Authorization:") name ->
  Forall (fun c => isSpace c = true) ws ->
  sameCI (txt "Bearer") bearer ->
  ws2 <> [] -> Forall (fun c => isSpace c = true) ws2 ->
  tok <> [] -> Forall (fun c => notSpace c = true) tok -> endsRun notSpace post ->
  exists cap,
    exec authorizationPattern ((name ++ ws ++ bearer ++ ws2 ++ tok) ++ post)
      = Some (length ((name ++ ws ++ bearer ++ ws2 ++ tok) ++ post) - length post, cap).
Proof.
  intros Hname Hws Hbearer Hne2 Hws2 Hne Htok Hpost.
  unfold exec, authorizationPattern. cbn [run].
  rewrite run_lit. rewrite <- !app_assoc.
  rewrite (matchesLit_sameCI _ _ _ Hname).
  rewrite <- (sameCI_length _ _ Hname), drop_app_length.
  set (whole := length (name ++ ws ++ bearer ++ ws2 ++ tok ++ post)).
  assert (Hgroup : exists cap,
    match
      run (lit isCI (txt "Bearer")) (bearer ++ ws2 ++ tok ++ post) None
        (fun s' cap' =>
           run (Plus isSpace) s' cap'
             (fun s'0 _ =>
                run (Plus notSpace) s'0
                  (Some (take (length (bearer ++ ws2 ++ tok ++ post) - length s'0)
                           (bearer ++ ws2 ++ tok ++ post)))
                  (fun s'1 cap0 => Some (whole - length s'1, cap0))))
    with
    | Some a => Some a
    | None =>
        run (Plus notSpace) (bearer ++ ws2 ++ tok ++ post) None
          (fun s' cap => Some (whole - length s', cap))
    end = Some (whole - length post, cap)).
  { rewrite run_lit, (matchesLit_sameCI _ _ _ Hbearer).
    rewrite <- (sameCI_length _ _ Hbearer), drop_app_length.
    destruct ws2 as [| c2 ws2]; [contradiction |].
    inversion Hws2 as [| ? ? Hc2 Hws2']. subst.
    unfold Plus at 1. cbn [app run]. rewrite Hc2.
    rewrite star_run; [| exact Hws2' | apply endsRun_isSpace; assumption |].
    - rewrite plus_greedy by (try assumption; intros; discriminate). eauto.
    - rewrite plus_greedy by (try assumption; intros; discriminate). discriminate. }
  destruct Hgroup as [cap Hgroup]. exists cap.
  assert (Hb : endsRun isSpace (bearer ++ ws2 ++ tok ++ post)).
  { destruct bearer as [| b bearer]; [inversion Hbearer |]. right.
    exists b, (bearer ++ ws2 ++ tok ++ post). split; [reflexivity |].
    eapply sameCI_not_space; [exact Hbearer | vm_compute; reflexivity]. }
  rewrite star_run; [exact Hgroup | exact Hws | exact Hb |].
  cbn [run]. rewrite Hgroup. discriminate.
Qed.

Lemma space_stops_lit l sp :
  isSpace sp = true ->
  forallb (fun p => forallb (fun x => negb (isSpace x) || negb (isCI p x)) allAscii) l
    = true ->
  forallb (fun p => negb (isCI p sp)) l = true.
Proof.
  intros Hsp Hl. rewrite forallb_forall in Hl |- *. intros p Hp.
  pose proof (ascii_all _ (Hl p Hp) sp) as Hx. cbn beta in Hx.
  rewrite Hsp in Hx. exact Hx.
Qed.

(** The same pattern at another scheme word: the group does not match and
    [\S+] takes the word. *)
Lemma exec_authorization_word name ws w sp cred :
  sameCI (txt "Authorization:") name ->
  Forall (fun c => isSpace c = true) ws ->
  w <> [] -> Forall (fun c => notSpace c = true) w ->
  matchesLit isCI (txt "Bearer") w = false ->
  isSpace sp = true ->
  exec authorizationPattern ((name ++ ws ++ w) ++ sp :: cred)
    = Some (length ((name ++ ws ++ w) ++ sp :: cred) - length (sp :: cred), None).
Proof.
  intros Hname Hws Hne Hw Hword Hsp.
  assert (Hpost : endsRun notSpace (sp :: cred)).
  { right. exists sp, cred. split; [reflexivity |]. unfold notSpace. rewrite Hsp.
    reflexivity. }
  unfold exec, authorizationPattern. cbn [run].
  rewrite run_lit. rewrite <- !app_assoc.
  rewrite (matchesLit_sameCI _ _ _ Hname).
  rewrite <- (sameCI_length _ _ Hname), drop_app_length.
  assert (Hrest : forall k0 : chars -> option chars -> option (nat * option chars),
    (forall t c, k0 t c <> None) ->
    run (Opt (Group (Seq (lit isCI (txt "Bearer")) (Plus isSpace)))) (w ++ sp :: cred)
      None (fun s' cap' => run (Plus notSpace) s' cap' k0)
    = k0 (sp :: cred) None).
  { intros k0 Hk0. cbn [run]. rewrite run_lit.
    rewrite matchesLit_app_stop
      by (apply space_stops_lit; [exact Hsp | vm_compute; reflexivity]).
    rewrite Hword. apply plus_greedy; assumption. }
  cbn [run] in Hrest.
  rewrite star_run; [| exact Hws | apply endsRun_isSpace; assumption |].
  - rewrite Hrest by (intros; discriminate). reflexivity.
  - rewrite Hrest by (intros; discriminate). discriminate.
Qed.

(** [https?:\/\/[^\s]*\?[^\s]*] at a URL with a query string. *)
Lemma exec_urlPattern scheme a b post :
  scheme = txt "http" \/ scheme = txt "https" ->
  Forall (fun c => notSpace c = true) a ->
  Forall (fun c => notSpace c = true) b -> endsRun notSpace post ->
  exec urlPattern ((scheme ++ txt "://" ++ a ++ "?"%char :: b) ++ post)
    = Some (length ((scheme ++ txt "://" ++ a ++ "?"%char :: b) ++ post) - length post,
            None).
Proof.
  intros Hscheme Ha Hb Hpost.
  set (whole := length ((scheme ++ txt "://" ++ a ++ "?"%char :: b) ++ post)).
  set (k := fun s' : chars =>
         run (Seq (Chr (isChar "?")) (Star notSpace)) s' None
           (fun s'0 cap => Some (whole - length s'0, cap))).
  assert (Hrun : Forall (fun c => notSpace c = true) (a ++ "?"%char :: b)).
  { apply Forall_app. split; [exact Ha |]. constructor; [reflexivity | exact Hb]. }
  assert (Hstar : star notSpace ((a ++ "?"%char :: b) ++ post) k
                  = Some (whole - length post, None)).
  { apply (star_const notSpace post k (whole - length post, None)); try assumption.
    - intros t1 t2 Heq. unfold k. cbn [run].
      destruct t2 as [| c t2]; cbn [app].
      + left. destruct Hpost as [-> | (c & post' & -> & Hc)]; [reflexivity |].
        destruct (isChar "?" c) eqn:Hq; [| reflexivity].
        apply Ascii.eqb_eq in Hq. subst c. discriminate Hc.
      + destruct (isChar "?" c); [right | left; reflexivity].
        rewrite star_greedy by (intros; discriminate).
        assert (Ht2 : Forall (fun c => notSpace c = true) t2).
        { rewrite Heq in Hrun. apply Forall_app in Hrun as [_ Hrun].
          inversion Hrun. assumption. }
        destruct (takeClass_all notSpace t2 post Ht2 Hpost) as [_ ->]. reflexivity.
    - exists a, ("?"%char :: b). split; [reflexivity |]. unfold k. cbn [run app].
      cbn [isChar Ascii.eqb Bool.eqb].
      rewrite star_greedy by (intros; discriminate).
      destruct (takeClass_all notSpace b post Hb Hpost) as [_ ->]. reflexivity. }
  unfold exec, urlPattern. fold whole.
  rewrite <- !app_assoc in Hstar. cbn [app] in Hstar.
  destruct Hscheme as [-> | ->]; rewrite <- !app_assoc;
    cbn [txt list_ascii_of_string app].
  - exact Hstar.
  - change (match star notSpace (a ++ "?"%char :: b ++ post) k with
            | Some x => Some x
            | None => None
            end = Some (whole - length post, None)).
    rewrite Hstar. reflexivity.
Qed.

Lemma replaceFirst_pass r repl pre rest :
  (forall c t, In c pre -> exec r (c :: t) = None) ->
  replaceFirst r repl (pre ++ rest) = pre ++ replaceFirst r repl rest.
Proof.
  induction pre as [| c pre IH]; intros Hpre; [reflexivity |].
  cbn [app replaceFirst]. rewrite (Hpre c) by (left; reflexivity).
  rewrite IH by (intros c' t Hin; apply Hpre; right; exact Hin). reflexivity.
Qed.

(** The fallback of line 48 keeps what precedes the first ['?']. *)
Lemma fallback_query scheme a b :
  scheme = txt "http" \/ scheme = txt "https" ->
  Forall (fun c => isChar "?" c = false) a ->
  Forall (fun c => notSpace c = true) b ->
  replaceFirst queryStringPattern (constant "?[QUERY_REDACTED]")
      (scheme ++ txt "://" ++ a ++ "?"%char :: b)
    = scheme ++ txt "://" ++ a ++ txt "?[QUERY_REDACTED]".
Proof.
  intros Hscheme Ha Hb.
  assert (Hpass : forall c t, isChar "?" c = false ->
            exec queryStringPattern (c :: t) = None).
  { intros c t Hc. unfold exec, queryStringPattern. cbn [run]. rewrite Hc. reflexivity. }
  assert (Hquery : replaceFirst queryStringPattern (constant "?[QUERY_REDACTED]")
                     ("?"%char :: b) = txt "?[QUERY_REDACTED]").
  { assert (Hdot : Forall (fun c => dot c = true) b).
    { eapply Forall_impl; [exact Hb |]. intros c Hc.
      pose proof (ascii_all (fun x => negb (notSpace x) || dot x) eq_refl c) as Hx.
      cbn beta in Hx. rewrite Hc in Hx. exact Hx. }
    cbn [replaceFirst]. unfold exec, queryStringPattern. cbn [run isChar Ascii.eqb Bool.eqb].
    rewrite star_greedy by (intros; discriminate).
    pose proof (takeClass_all dot b [] Hdot (or_introl eq_refl)) as [_ Hdrop].
    rewrite app_nil_r in Hdrop. rewrite Hdrop.
    cbn [length]. rewrite Nat.sub_0_r.
    change (S (length b)) with (length ("?"%char :: b)).
    rewrite drop_all, app_nil_r. reflexivity. }
  rewrite !app_assoc. rewrite replaceFirst_pass.
  - rewrite Hquery. reflexivity.
  - intros c t Hin. apply Hpass.
    apply in_app_or in Hin as [Hin | Hin].
    + apply in_app_or in Hin as [Hin | Hin].
      * destruct Hscheme as [-> | ->]; cbn in Hin;
          repeat (destruct Hin as [<- | Hin]; [reflexivity |]); destruct Hin.
      * cbn in Hin. repeat (destruct Hin as [<- | Hin]; [reflexivity |]). destruct Hin.
    + rewrite List.Forall_forall in Ha. apply Ha, Hin.
Qed.

Section WithPlatform.
Context `{Platform}.

(** X16. Line 34 masks a bearer token together with the word [Bearer]: at the
    leftmost [Authorization:] header of a text, in any letter case, the
    header, [Bearer], the white space around it and the run of non-space
    characters that follows become [Authorization: [REDACTED]]. *)
Theorem authorization_bearer_masked (pre name ws bearer ws2 tok post : chars) :
  sameCI (txt "Authorization:") name ->
  Forall (fun c => isSpace c = true) ws ->
  sameCI (txt "Bearer") bearer ->
  ws2 <> [] -> Forall (fun c => isSpace c = true) ws2 ->
  tok <> [] -> Forall (fun c => notSpace c = true) tok -> endsRun notSpace post ->
  quiet authorizationPattern pre ((name ++ ws ++ bearer ++ ws2 ++ tok) ++ post) = true ->
  redactAuthorization (pre ++ (name ++ ws ++ bearer ++ ws2 ++ tok) ++ post)
    = pre ++ txt "Authorization: [REDACTED]" ++ redactAuthorization post.
Proof.
  intros Hname Hws Hbearer Hne2 Hws2 Hne Htok Hpost Hq.
  destruct (exec_authorization_bearer name ws bearer ws2 tok post) as [cap Hexec];
    try assumption.
  unfold redactAuthorization.
  erewrite replaceGlobal_leftmost; [reflexivity | exact Hq | | exact Hexec].
  destruct tok; [contradiction |]. destruct name, ws, bearer, ws2; discriminate.
Qed.

(** X17. With any other scheme, line 34 masks the scheme word and leaves the
    credentials: when the first word after [Authorization:] does not start
    with [Bearer] and what follows it has no ['?'], ['&'] or [':'], only
    that word is replaced and the rest of the header is returned as it
    was. *)
Theorem authorization_other_scheme (pre name ws w : chars) (sp : ascii) (cred : chars) :
  sameCI (txt "Authorization:") name ->
  Forall (fun c => isSpace c = true) ws ->
  w <> [] -> Forall (fun c => notSpace c = true) w ->
  matchesLit isCI (txt "Bearer") w = false ->
  isSpace sp = true ->
  forallb plainChar cred = true ->
  quiet authorizationPattern pre ((name ++ ws ++ w) ++ sp :: cred) = true ->
  redactAuthorization (pre ++ (name ++ ws ++ w) ++ sp :: cred)
    = pre ++ txt "Authorization: [REDACTED]" ++ sp :: cred.
Proof.
  intros Hname Hws Hne Hw Hword Hsp Hcred Hq.
  unfold redactAuthorization.
  erewrite replaceGlobal_leftmost;
    [| exact Hq | | apply exec_authorization_word; assumption].
  - unfold constant, replaceGlobal. do 2 f_equal.
    apply (replaceFrom_clean (fun c => negb (plainChar c)));
      [vm_compute; reflexivity |].
    constructor.
    + pose proof (ascii_all (fun x => negb (isSpace x) || plainChar x) eq_refl sp) as Hx.
      cbn beta in Hx. rewrite Hsp in Hx. cbn [negb orb] in Hx. rewrite Hx. reflexivity.
    + apply List.Forall_forall. intros c Hc. rewrite forallb_forall in Hcred.
      rewrite (Hcred c Hc). reflexivity.
  - destruct w; [contradiction |]. destruct name, ws; discriminate.
Qed.

(** X18. Lines 43 to 50 drop the query string of the leftmost URL of a text:
    from [http://] or [https://] to the next white space, a run that holds
    a ['?'] is replaced by the origin and path [new URL] gives followed by
    [?[QUERY_REDACTED]], or, when [new URL] throws, by the run up to its
    first ['?'] followed by [?[QUERY_REDACTED]]; nothing is thrown. *)
Theorem url_query_dropped (pre scheme a b post : chars) :
  scheme = txt "http" \/ scheme = txt "https" ->
  Forall (fun c => notSpace c = true) a ->
  Forall (fun c => isChar "?" c = false) a ->
  Forall (fun c => notSpace c = true) b -> endsRun notSpace post ->
  quiet urlPattern pre ((scheme ++ txt "://" ++ a ++ "?"%char :: b) ++ post) = true ->
  redactUrls (pre ++ (scheme ++ txt "://" ++ a ++ "?"%char :: b) ++ post)
    = pre ++
      match URL (str (scheme ++ txt "://" ++ a ++ "?"%char :: b)) with
      | Some (origin, pathname) => txt origin ++ txt pathname ++ txt "?[QUERY_REDACTED]"
      | None => scheme ++ txt "://" ++ a ++ txt "?[QUERY_REDACTED]"
      end ++ redactUrls post.
Proof.
  intros Hscheme Ha Hfirst Hb Hpost Hq. unfold redactUrls.
  erewrite replaceGlobal_leftmost;
    [| exact Hq | | apply exec_urlPattern; assumption].
  - unfold redactUrl at 1.
    destruct (URL _) as [[origin pathname] |]; [reflexivity |].
    rewrite fallback_query by assumption. reflexivity.
  - destruct Hscheme as [-> | ->]; discriminate.
Qed.

(** X19. Lines 37 and 40 mask the value of the leftmost [x-goog-api-key] or
    [x-api-key] header of a text: the header name in any letter case, any
    white space after the colon and the run of non-space characters that
    follows become the lower-case name and [[REDACTED]]; what comes before
    is kept, what comes after is scanned in turn. *)
Theorem header_value_masked (pre name ws v post : chars) :
  Forall (fun c => isSpace c = true) ws ->
  v <> [] -> Forall (fun c => notSpace c = true) v -> endsRun notSpace post ->
  (sameCI (txt "x-goog-api-key:") name ->
   quiet (headerPattern "x-goog-api-key:") pre ((name ++ ws ++ v) ++ post) = true ->
   redactGoogApiKey (pre ++ (name ++ ws ++ v) ++ post)
     = pre ++ txt "x-goog-api-key: [REDACTED]" ++ redactGoogApiKey post) /\
  (sameCI (txt "x-api-key:") name ->
   quiet (headerPattern "x-api-key:") pre ((name ++ ws ++ v) ++ post) = true ->
   redactXApiKey (pre ++ (name ++ ws ++ v) ++ post)
     = pre ++ txt "x-api-key: [REDACTED]" ++ redactXApiKey post).
Proof.
  intros Hws Hne Hv Hpost.
  assert (Hm : name ++ ws ++ v <> []).
  { destruct v; [contradiction |]. destruct name, ws; discriminate. }
  split; intros Hname Hq; unfold redactGoogApiKey, redactXApiKey;
    (erewrite replaceGlobal_leftmost;
     [reflexivity | exact Hq | exact Hm | apply exec_headerPattern; assumption]).
Qed.

Lemma redactError_plain_text error apiKey :
  forallb plainChar (txt error) = true ->
  mentions apiKey error = false ->
  redactError error apiKey = error.
Proof.
  intros Hplain Hkey.
  assert (Hclean : clean (fun c => negb (plainChar c)) (txt error)).
  { apply List.Forall_forall. intros c Hc. rewrite forallb_forall in Hplain.
    rewrite (Hplain c Hc). reflexivity. }
  unfold redactError. rewrite (redactKnownKey_absent _ _ Hkey).
  unfold redactUrls, redactXApiKey, redactGoogApiKey, redactAuthorization,
    redactQueryParams, replaceGlobal.
  rewrite (replaceFrom_clean (fun c => negb (plainChar c)) queryParamPattern) by (try exact Hclean; vm_compute; reflexivity).
  rewrite (replaceFrom_clean (fun c => negb (plainChar c)) authorizationPattern) by (try exact Hclean; vm_compute; reflexivity).
  rewrite (replaceFrom_clean (fun c => negb (plainChar c)) (headerPattern "x-goog-api-key:"))
    by (try exact Hclean; vm_compute; reflexivity).
  rewrite (replaceFrom_clean (fun c => negb (plainChar c)) (headerPattern "x-api-key:"))
    by (try exact Hclean; vm_compute; reflexivity).
  rewrite (replaceFrom_clean (fun c => negb (plainChar c)) urlPattern) by (try exact Hclean; vm_compute; reflexivity).
  apply str_txt.
Qed.

(** X20. A message without ['?'], ['&'] and [':'] in which the known key does not
    occur (or with no key, or one of at most four characters) is returned
    by [redactError] as it is. *)
Theorem redactError_plain (error : string) (apiKey : option string) :
  forallb plainChar (txt error) = true ->
  mentions apiKey error = false ->
  redactError error apiKey = error.
Proof. apply redactError_plain_text. Qed.

End WithPlatform.

Lemma redactError_plain_witness :
  redactError (H := Example.platform) "Request timed out" (Some "AIzaSy-0123456789")
    = "Request timed out".
Proof.
  apply (redactError_plain (H := Example.platform)); reflexivity.
Defined.

Lemma header_value_masked_witness :
  (sameCI (txt "x-goog-api-key:") (txt "X-Api-Key:") ->
   quiet (headerPattern "x-goog-api-key:") (txt "sent ")
     ((txt "X-Api-Key:" ++ txt " " ++ txt "sk-ant-1") ++ txt " to host") = true ->
   redactGoogApiKey
     (txt "sent " ++ (txt "X-Api-Key:" ++ txt " " ++ txt "sk-ant-1") ++ txt " to host")
     = txt "sent " ++ txt "x-goog-api-key: [REDACTED]"
         ++ redactGoogApiKey (txt " to host")) /\
  (sameCI (txt "x-api-key:") (txt "X-Api-Key:") ->
   quiet (headerPattern "x-api-key:") (txt "sent ")
     ((txt "X-Api-Key:" ++ txt " " ++ txt "sk-ant-1") ++ txt " to host") = true ->
   redactXApiKey
     (txt "sent " ++ (txt "X-Api-Key:" ++ txt " " ++ txt "sk-ant-1") ++ txt " to host")
     = txt "sent " ++ txt "x-api-key: [REDACTED]" ++ redactXApiKey (txt " to host")).
Proof.
  apply (header_value_masked (txt "sent ") (txt "X-Api-Key:") (txt " ")
           (txt "sk-ant-1") (txt " to host")).
  - repeat constructor.
  - discriminate.
  - repeat constructor.
  - right. exists " "%char, (txt "to host"). split; reflexivity.
Defined.

Lemma authorization_bearer_masked_witness :
  redactAuthorization
    (txt "header " ++
     (txt "authorization:" ++ txt " " ++ txt "bearer" ++ txt "  " ++ txt "sk-12345")
     ++ txt " rejected")
    = txt "header " ++ txt "Authorization: [REDACTED]"
        ++ redactAuthorization (txt " rejected").
Proof.
  apply (authorization_bearer_masked (txt "header ") (txt "authorization:") (txt " ")
           (txt "bearer") (txt "  ") (txt "sk-12345") (txt " rejected")).
  - repeat constructor.
  - repeat constructor.
  - repeat constructor.
  - discriminate.
  - repeat constructor.
  - discriminate.
  - repeat constructor.
  - right. exists " "%char, (txt "rejected"). split; reflexivity.
  - reflexivity.
Defined.

Lemma authorization_other_scheme_witness :
  redactAuthorization
    (txt "header " ++ (txt "Authorization:" ++ txt " " ++ txt "Basic")
     ++ " "%char :: txt "dXNlcjpwYXNz")
    = txt "header " ++ txt "Authorization: [REDACTED]" ++ " "%char :: txt "dXNlcjpwYXNz".
Proof.
  apply (authorization_other_scheme (txt "header ") (txt "Authorization:") (txt " ")
           (txt "Basic") " " (txt "dXNlcjpwYXNz")).
  - repeat constructor.
  - repeat constructor.
  - discriminate.
  - repeat constructor.
  - reflexivity.
  - reflexivity.
  - reflexivity.
  - reflexivity.
Defined.

Lemma url_query_dropped_witness :
  redactUrls (H := Example.platform)
    (txt "GET " ++
     (txt "https" ++ txt "://" ++ txt "api.host/v1/models" ++ "?"%char :: txt "alt=json&x=1")
     ++ txt " failed")
    = txt "GET " ++
      match URL (Platform := Example.platform)
              (str (txt "https" ++ txt "://" ++ txt "api.host/v1/models"
                    ++ "?"%char :: txt "alt=json&x=1")) with
      | Some (origin, pathname) => txt origin ++ txt pathname ++ txt "?[QUERY_REDACTED]"
      | None => txt "https" ++ txt "://" ++ txt "api.host/v1/models"
                  ++ txt "?[QUERY_REDACTED]"
      end ++ redactUrls (H := Example.platform) (txt " failed").
Proof.
  apply (url_query_dropped (H := Example.platform) (txt "GET ") (txt "https")
           (txt "api.host/v1/models") (txt "alt=json&x=1") (txt " failed")).
  - right. reflexivity.
  - repeat constructor.
  - repeat constructor.
  - repeat constructor.
  - right. exists " "%char, (txt "failed"). split; reflexivity.
  - reflexivity.
Defined.

End RedactMore.

(** ** [callAi] on any network *)

Module ClientMore.
Import Js Types Regex AiClient Spec MoreSpec TypesProps MainProps.

Section WithPlatform.
Context `{Platform}.
Variable network : string -> RequestInit -> N -> fetched.

Lemma settled_failure e : settled (failure e).
Proof. right. cbn. eauto. Qed.

Lemma settled_success t : truthyV t = true -> settled (success t).
Proof. intros Ht. left. cbn. eauto. Qed.

Lemma settled_textOr t e : settled (textOr t e).
Proof.
  unfold textOr. destruct (truthyV t) eqn:Ht;
    [apply settled_success, Ht | apply settled_failure].
Qed.

Lemma oneRequest_intro url init rest :
  fetches rest = 0 -> oneRequest (Fetch url init FETCH_TIMEOUT_MS :: rest).
Proof. intros Hrest. exists url, init, rest. split; [reflexivity | exact Hrest]. Qed.

Ltac adapter :=
  unfold adapterRun, fetchWithTimeout, readJson, iobind, emit, lift, ioret;
  cbn [fst snd app];
  match goal with
  | |- context [network ?u ?i ?t] => destruct (network u i t) as [res | | e]
  end; cbn [fst snd app];
  try (split; [exact I | apply oneRequest_intro; reflexivity]);
  match goal with
  | |- context [res_ok ?r] => destruct (res_ok r); cbn [negb fst snd app]
  end;
  [| split; [apply settled_failure | apply oneRequest_intro; reflexivity]];
  match goal with
  | |- context [json ?r] => destruct (json r) as [data | e]; cbn [fst snd app]
  end;
  [| split; [exact I | apply oneRequest_intro; reflexivity]].

Lemma callOpenAi_run apiKey model req : adapterRun (callOpenAi network apiKey model req).
Proof.
  unfold callOpenAi. adapter.
  split; [apply settled_textOr | apply oneRequest_intro; reflexivity].
Qed.

Lemma callAnthropic_run apiKey model req :
  adapterRun (callAnthropic network apiKey model req).
Proof.
  unfold callAnthropic. adapter.
  split; [apply settled_textOr | apply oneRequest_intro; reflexivity].
Qed.

Lemma callOllama_run baseUrl model req :
  adapterRun (callOllama network baseUrl model req).
Proof.
  unfold callOllama. adapter.
  split; [apply settled_textOr | apply oneRequest_intro; reflexivity].
Qed.

Lemma callGemini_run apiKey model req : adapterRun (callGemini network apiKey model req).
Proof.
  unfold callGemini. adapter.
  unfold when, emit, ioret.
  match goal with
  | |- context [geminiText ?d] => destruct (truthyV (geminiText d)) eqn:Ht; cbn [negb]
  end;
  repeat match goal with
  | |- context [flaggedRatings ?v] => destruct (flaggedRatings v); cbn [fst snd app]
  | |- context [emptyDetail ?b ?f] => destruct (emptyDetail b f); cbn [fst snd app]
  | |- context [if ?c then _ else _] => destruct c; cbn [fst snd app]
  end;
  (split; [first [exact I | apply settled_failure | apply settled_success, Ht]
          | apply oneRequest_intro; reflexivity]).
Qed.

Lemma tryCatch_run (a : io AiResponse) (f : exn -> string) :
  adapterRun a ->
  exists r events,
    tryCatch a (fun e => ioret (failure (f e))) = (Ret r, events) /\
    settled r /\ oneRequest events.
Proof.
  destruct a as [[r | e] events]; unfold adapterRun, tryCatch; cbn [fst snd];
    intros [Hs Ho].
  - exists r, events. auto.
  - exists (failure (f e)), events. unfold ioret. cbn [fst snd]. rewrite app_nil_r.
    split; [reflexivity |]. split; [apply settled_failure | exact Ho].
Qed.

(** X21. With the providers map in place, [callAi] never throws and never
    retries: it returns a settled result (a success with a non-empty text
    and no error, or a failure with an error and no text) after exactly one
    [fetch] under the 30 second timer when the provider is one of the four
    known ones, and after no effect at all otherwise. *)
Theorem callAi_settles (settings : AiSettings) (ps : gmap string ProviderConfig)
    (req : AiRequest) :
  providers settings = Some ps ->
  exists r events,
    callAi network settings req = (Ret r, events) /\
    settled r /\
    (In (provider settings) knownProviders -> oneRequest events) /\
    (~ In (provider settings) knownProviders -> events = []).
Proof.
  intros Hps. unfold callAi, getApiKey, getModel, providerSlot. rewrite Hps.
  unfold iobind, lift. cbn [bind fst snd app].
  set (key := or_else _ ""). set (m := or_else _ (or_else _ "")).
  set (handler := fun e : exn => ioret (failure (redactError (rawMessage e) (Some key)))).
  assert (Hrun : forall a, adapterRun a ->
            In (provider settings) knownProviders ->
            exists r events,
              ((tryCatch a handler).1, (tryCatch a handler).2) = (Ret r, events) /\
              settled r /\
              (In (provider settings) knownProviders -> oneRequest events) /\
              (~ In (provider settings) knownProviders -> events = [])).
  { intros a Ha Hin.
    destruct (tryCatch_run a (fun e => redactError (rawMessage e) (Some key)) Ha)
      as (r & events & Htc & Hs & Ho).
    fold handler in Htc. exists r, events. rewrite Htc. cbn [fst snd].
    split; [reflexivity |]. split; [exact Hs |]. split; [intros _; exact Ho |].
    intros Hno. contradiction. }
  unfold knownProviders in Hrun |- *. cbn [In] in Hrun |- *.
  destruct (String.eqb_spec (provider settings) "gemini") as [Hp | Hp1];
    [apply Hrun; [apply callGemini_run | auto] |].
  destruct (String.eqb_spec (provider settings) "openai") as [Hp | Hp2];
    [apply Hrun; [apply callOpenAi_run | auto] |].
  destruct (String.eqb_spec (provider settings) "anthropic") as [Hp | Hp3];
    [apply Hrun; [apply callAnthropic_run | auto] |].
  destruct (String.eqb_spec (provider settings) "ollama") as [Hp | Hp4];
    [apply Hrun; [apply callOllama_run | auto 6] |].
  eexists _, []. split; [reflexivity |]. split; [apply settled_failure |].
  split; [| reflexivity]. intros [? | [? | [? | [? | []]]]]; congruence.
Qed.

(** A request that is not answered: every adapter throws what
    [fetchWithTimeout] throws, after the [fetch] alone. *)
Lemma adapters_unanswered e apiKey model baseUrl req :
  (forall url init, thrownBy (network url init FETCH_TIMEOUT_MS) = Some e) ->
  (exists url init, callGemini network apiKey model req
                    = (Throw e, [Fetch url init FETCH_TIMEOUT_MS])) /\
  (exists url init, callOpenAi network apiKey model req
                    = (Throw e, [Fetch url init FETCH_TIMEOUT_MS])) /\
  (exists url init, callAnthropic network apiKey model req
                    = (Throw e, [Fetch url init FETCH_TIMEOUT_MS])) /\
  (exists url init, callOllama network baseUrl model req
                    = (Throw e, [Fetch url init FETCH_TIMEOUT_MS])).
Proof.
  intros Hnet.
  repeat split; eexists _, _;
    unfold callGemini, callOpenAi, callAnthropic, callOllama, fetchWithTimeout,
      iobind, emit, lift, ioret; cbn [fst snd app];
    match goal with
    | |- context [network ?u ?i ?t] =>
        pose proof (Hnet u i) as Hthrown; destruct (network u i t)
    end; cbn [thrownBy] in Hthrown; try discriminate;
    injection Hthrown as <-; reflexivity.
Qed.

(** X22. Transport failures: when the request of a known provider is not
    answered, because the timer aborted it or because [fetch] rejected with
    [e], [callAi] returns a failure after the [fetch] alone; its error is the
    redacted message of what [fetchWithTimeout] threw, which for a timeout is
    exactly ["Request timed out"] unless the key occurs in those words. *)
Theorem callAi_transport_failure (settings : AiSettings)
    (ps : gmap string ProviderConfig) (req : AiRequest) (e : exn) :
  providers settings = Some ps ->
  In (provider settings) knownProviders ->
  (forall url init, thrownBy (network url init FETCH_TIMEOUT_MS) = Some e) ->
  exists key url init,
    getApiKey settings = Ret key /\
    callAi network settings req
      = (Ret (failure (redactError (rawMessage e) (Some key))),
         [Fetch url init FETCH_TIMEOUT_MS]) /\
    (e = Error "Request timed out" ->
     mentions (Some key) "Request timed out" = false ->
     (callAi network settings req).1 = Ret (failure "Request timed out")).
Proof.
  intros Hps Hknown Hnet. unfold getApiKey, providerSlot. rewrite Hps. cbn [bind].
  eexists.
  assert (Hcall : exists url init,
            callAi network settings req
              = (Ret (failure (redactError (rawMessage e)
                         (Some (or_else (cfg_apiKey <$> ps !! provider settings) "")))),
                 [Fetch url init FETCH_TIMEOUT_MS])).
  { unfold callAi, getApiKey, getModel, providerSlot. rewrite Hps.
    unfold iobind, lift. cbn [bind fst snd app].
    set (key := or_else _ ""). set (m := or_else _ (or_else _ "")).
    destruct (adapters_unanswered e key m (ollamaUrl settings) req Hnet)
      as ((u1 & i1 & H1) & (u2 & i2 & H2) & (u3 & i3 & H3) & (u4 & i4 & H4)).
    unfold knownProviders in Hknown. cbn [In] in Hknown.
    destruct Hknown as [Hp | [Hp | [Hp | [Hp | []]]]]; rewrite <- Hp;
      cbn [String.eqb Ascii.eqb Bool.eqb];
      [rewrite H1 | rewrite H2 | rewrite H3 | rewrite H4];
      unfold tryCatch, ioret; cbn [fst snd app]; eauto. }
  destruct Hcall as (url & init & Hcall). exists url, init.
  split; [reflexivity |]. split; [exact Hcall |].
  intros -> Hkey. rewrite Hcall. cbn [fst rawMessage].
  rewrite RedactMore.redactError_plain_text; [reflexivity | reflexivity | exact Hkey].
Qed.

Lemma geminiEnd_content data :
  geminiShaped data = true -> truthyV (geminiText data) = true ->
  geminiEnd data = Ret (success (geminiText data)).
Proof.
  unfold geminiShaped. intros [[Hr _]%andb_prop _]%andb_prop Htext.
  unfold geminiEnd. rewrite Htext. cbn [negb].
  match goal with
  | |- context [truthyV ?v] =>
      destruct (truthyV v) eqn:Ht;
      [destruct (AiClientProps.flaggedRatings_shaped v Hr Ht) as [fl ->] |]
  end; reflexivity.
Qed.

(** X23. On a 2xx response whose body holds content, [callAi] returns the
    success with exactly the content field the provider's adapter extracts,
    for [openai], [anthropic] and [ollama] on any body, and for [gemini] on
    a body shaped as the adapter reads it. *)
Theorem callAi_success (res : Response) (data : value) (settings : AiSettings)
    (ps : gmap string ProviderConfig) (req : AiRequest) :
  (forall url init t, network url init t = Fulfilled res) ->
  res_ok res = true ->
  json res = Ret data ->
  providers settings = Some ps ->
  In (provider settings) knownProviders ->
  truthyV (contentOf (provider settings) data) = true ->
  (provider settings = "gemini" -> geminiShaped data = true) ->
  (callAi network settings req).1
    = Ret (success (contentOf (provider settings) data)).
Proof.
  intros Hnet Hok Hjson Hps Hknown Hcontent Hshaped.
  unfold callAi, getApiKey, getModel, providerSlot. rewrite Hps.
  cbn [bind lift iobind fst snd]. rewrite AiClientProps.tryCatch_fst.
  unfold knownProviders in Hknown. cbn [In] in Hknown.
  destruct Hknown as [Hp | [Hp | [Hp | [Hp | []]]]]; rewrite <- Hp in *;
    unfold contentOf in *; cbn [String.eqb Ascii.eqb Bool.eqb] in *.
  - rewrite (AiClientProps.callGemini_2xx _ _ _ _ _ _ Hnet Hok Hjson).
    rewrite (geminiEnd_content _ (Hshaped eq_refl) Hcontent). reflexivity.
  - rewrite (AiClientProps.callOpenAi_2xx _ _ _ _ _ _ Hnet Hok Hjson).
    unfold textOr. rewrite Hcontent. reflexivity.
  - rewrite (AiClientProps.callAnthropic_2xx _ _ _ _ _ _ Hnet Hok Hjson).
    unfold textOr. rewrite Hcontent. reflexivity.
  - rewrite (AiClientProps.callOllama_2xx _ _ _ _ _ _ Hnet Hok Hjson).
    unfold textOr. rewrite Hcontent. reflexivity.
Qed.

End WithPlatform.

Lemma callAi_settles_witness :
  exists r events,
    callAi (H := Example.platform) (Example.answering Example.unauthorized)
      Example.openAiSettings Example.request = (Ret r, events) /\
    settled r /\
    (In (provider Example.openAiSettings) knownProviders -> oneRequest events) /\
    (~ In (provider Example.openAiSettings) knownProviders -> events = []).
Proof.
  apply (callAi_settles (H := Example.platform) (Example.answering Example.unauthorized)
           Example.openAiSettings {[ "openai" := Example.storedSlot ]} Example.request).
  reflexivity.
Defined.

Lemma callAi_transport_failure_witness :
  exists (key url : string) (init : RequestInit (H := Example.platform)),
    getApiKey (H := Example.platform) Example.openAiSettings = Ret key /\
    callAi (H := Example.platform) Example.timingOut Example.openAiSettings
      Example.request
      = (Ret (failure (redactError (H := Example.platform)
                         (rawMessage (Error "Request timed out")) (Some key))),
         [Fetch url init FETCH_TIMEOUT_MS]) /\
    (Error "Request timed out" = Error "Request timed out" ->
     mentions (Some key) "Request timed out" = false ->
     (callAi (H := Example.platform) Example.timingOut Example.openAiSettings
        Example.request).1 = Ret (failure "Request timed out")).
Proof.
  apply (callAi_transport_failure (H := Example.platform) Example.timingOut
           Example.openAiSettings {[ "openai" := Example.storedSlot ]} Example.request
           (Error "Request timed out")).
  - reflexivity.
  - unfold knownProviders. cbn [In provider Example.openAiSettings]. tauto.
  - intros url init. reflexivity.
Defined.

Lemma callAi_success_witness :
  (callAi (H := Example.platform) (Example.answering (Example.ok200 Example.openAiAnswer))
     Example.openAiSettings Example.request).1
    = Ret (success (contentOf (provider Example.openAiSettings) Example.openAiAnswer)).
Proof.
  apply (callAi_success (H := Example.platform)
           (Example.answering (Example.ok200 Example.openAiAnswer))
           (Example.ok200 Example.openAiAnswer) Example.openAiAnswer
           Example.openAiSettings {[ "openai" := Example.storedSlot ]} Example.request).
  - intros url init t. reflexivity.
  - reflexivity.
  - reflexivity.
  - reflexivity.
  - unfold knownProviders. cbn [In provider Example.openAiSettings]. tauto.
  - reflexivity.
  - intros Hp. discriminate Hp.
Defined.

End ClientMore.

(** ** [getJapaneseRating], [diagnoseModel] and the size it is given *)

Module DiagnosticsMore.
Import Js Types Regex AiClient Diagnostics Spec MoreSpec RedactMore.

Lemma prefix_split a : forall m, String.prefix a m = true -> exists m', m = a +:+ m'.
Proof.
  induction a as [| c a IH]; intros m; [exists m; reflexivity |].
  destruct m as [| d m]; [discriminate |]. cbn [String.prefix].
  destruct (ascii_dec c d) as [<- | _]; [| discriminate].
  intros Hp. destruct (IH m Hp) as [m' ->]. exists m'. reflexivity.
Qed.

(** X24. [getJapaneseRating] marks a model as recommended exactly when its name
    starts with ["qwen2"] or ["qwen3"], in lower case as written. *)
Theorem getJapaneseRating_recommended (modelName : string) :
  recommended (getJapaneseRating modelName)
    = String.prefix "qwen2" modelName || String.prefix "qwen3" modelName.
Proof.
  unfold getJapaneseRating, matchedFamily.
  let l := eval vm_compute in (sort byLengthDesc (map fst JAPANESE_RATINGS)) in
  change (sort byLengthDesc (map fst JAPANESE_RATINGS)) with l.
  cbn [List.find].
  repeat match goal with
  | |- context [if String.prefix ?f modelName then _ else _] =>
      let Hf := fresh "Hf" in
      destruct (String.prefix f modelName) eqn:Hf;
      [destruct (prefix_split _ _ Hf) as [m' ->]; vm_compute; reflexivity |]
  end.
  reflexivity.
Qed.

Lemma adviceOf_diagnoseModel modelName paramSize :
  adviceOf (diagnoseModel modelName paramSize)
    = if test sizeSmall paramSize then ("128k", Some "ollama.diagNoteSmall")
      else if test size8B paramSize then ("32k", Some "ollama.diagNote8B")
      else if test size14B paramSize then ("32k", Some "ollama.diagNote14B")
      else if test sizeMid paramSize then ("16k", Some "ollama.diagNoteMid")
      else if test sizeLarge paramSize then ("8k", Some "ollama.diagNoteLarge")
      else ("8k", None).
Proof.
  unfold adviceOf, diagnoseModel. cbn [recommendedContext note].
  repeat match goal with
  | |- context [if ?c then _ else _] => destruct c
  end; reflexivity.
Qed.

(** X25. The advice for a whole number of billions below 100, written in decimal
    and followed by [B], is that of the size table: 1 to 3, 7 and 8, 10 to 14,
    20 to 34, and 70 and 72 have their advice, every other size (4 to 6, 9,
    15 to 19, 35 to 69, 71, 73 and more) has the default ["8k"] and no
    note. *)
Theorem diagnoseModel_whole_sizes (modelName : string) (n : nat) :
  n < 100 ->
  adviceOf (diagnoseModel modelName (showNat n +:+ "B")) = sizeAdvice n.
Proof.
  intros Hn. rewrite adviceOf_diagnoseModel.
  do 100 (destruct n as [| n]; [vm_compute; reflexivity |]). lia.
Qed.

Lemma diagnoseModel_whole_sizes_witness :
  adviceOf (diagnoseModel "qwen2.5:14b" (showNat 14 +:+ "B")) = sizeAdvice 14.
Proof. apply (diagnoseModel_whole_sizes "qwen2.5:14b" 14). lia. Defined.

(** X26. Every note [diagnoseModel] returns is a key of the [noteMap] of
    [showOllamaDiagnostics], so the diagnostics never fall back to showing
    the raw key for want of an entry; without a note the recommended context
    is the default ["8k"], and the parameter size is handed back as given. *)
Theorem diagnoseModel_note_known (modelName paramSize : string) :
  match note (diagnoseModel modelName paramSize) with
  | Some key => In key SettingTab.noteMapKeys
  | None => recommendedContext (diagnoseModel modelName paramSize) = "8k"
  end /\
  In (recommendedContext (diagnoseModel modelName paramSize)) ["128k"; "32k"; "16k"; "8k"] /\
  parameterSize (diagnoseModel modelName paramSize) = paramSize.
Proof.
  unfold diagnoseModel. cbn [note recommendedContext parameterSize].
  split; [| split; [| reflexivity]];
    repeat match goal with
    | |- context [if ?c then _ else _] => destruct c
    end; cbn [fst snd In SettingTab.noteMapKeys]; tauto.
Qed.

(** *** Sizes the patterns do not see *)

Lemma digit_not_B c : isDigitOrDot c = true -> isCI "B" c = false.
Proof.
  intros Hc.
  pose proof (ascii_all (fun x => negb (isDigitOrDot x) || negb (isCI "B" x)) eq_refl c)
    as Hx.
  cbn beta in Hx. rewrite Hc in Hx. destruct (isCI "B" c); [discriminate | reflexivity].
Qed.

Lemma digit_word c : isDigit c = true -> isWord c = true.
Proof.
  intros Hc.
  pose proof (ascii_all (fun x => negb (isDigit x) || isWord x) eq_refl c) as Hx.
  cbn beta in Hx. rewrite Hc in Hx. exact Hx.
Qed.

Lemma digit_digitOrDot c : isDigit c = true -> isDigitOrDot c = true.
Proof. unfold isDigitOrDot. intros ->. reflexivity. Qed.

Ltac size_pattern Hr :=
  unfold sizePatterns in Hr; cbn [In] in Hr;
  destruct Hr as [<- | [<- | [<- | [<- | [<- | []]]]]].

(** Each pattern wants its [B] among the first three characters. *)
Lemma exec_size_none r s :
  In r sizePatterns ->
  Forall (fun c => isDigitOrDot c = true) (take 3 s) ->
  exec r s = None.
Proof.
  intros Hr Hs.
  destruct s as [| c1 [| c2 [| c3 s]]]; cbn [take] in Hs;
    repeat match goal with
    | H : Forall _ (_ :: _) |- _ =>
        let Hc := fresh "Hc" in
        let Ht := fresh "Ht" in
        inversion H as [| ? ? Hc Ht]; subst; clear H; apply digit_not_B in Hc
    end;
    size_pattern Hr;
    unfold exec, sizeSmall, size8B, size14B, sizeMid, sizeLarge;
    cbn [run lit txt list_ascii_of_string];
    repeat match goal with
    | H : isCI "B" ?c = false |- context [isCI "B" ?c] => rewrite H
    end;
    repeat match goal with
    | |- context [if ?c then _ else _] => destruct c
    end; reflexivity.
Qed.

Lemma testFrom_cons r prev c s :
  testFrom r prev (c :: s)
    = (wordBoundary prev (Some c)
       && match exec r (c :: s) with Some _ => true | None => false end)
      || testFrom r (Some c) s.
Proof. reflexivity. Qed.

Lemma testFrom_prev r p q s : isWordAt p = isWordAt q -> testFrom r p s = testFrom r q s.
Proof. intros Hpq. destruct s; cbn [testFrom]; unfold wordBoundary; rewrite Hpq; reflexivity. Qed.

(** Inside a word there is no boundary to match at. *)
Lemma testFrom_word r : forall s prev,
  exec r [] = None -> isWordAt prev = true ->
  Forall (fun c => isWord c = true) s ->
  testFrom r prev s = false.
Proof.
  induction s as [| c s IH]; intros prev Hnil Hprev Hs.
  - cbn [testFrom head]. rewrite Hnil. rewrite andb_false_r. reflexivity.
  - rewrite testFrom_cons. inversion Hs as [| ? ? Hc Hs']. subst.
    unfold wordBoundary. rewrite Hprev. cbn [isWordAt]. rewrite Hc. cbn [xorb andb orb].
    apply IH; [exact Hnil | exact Hc | exact Hs'].
Qed.

Lemma exec_size_nil r : In r sizePatterns -> exec r [] = None.
Proof. intros Hr. size_pattern Hr; reflexivity. Qed.

Lemma test_long_size r ds :
  In r sizePatterns ->
  3 <= length ds -> Forall (fun c => isDigit c = true) ds ->
  test r (str (ds ++ txt "B")) = false.
Proof.
  intros Hr Hlen Hds. unfold test. rewrite RedactProps.txt_str.
  destruct ds as [| d1 [| d2 [| d3 ds]]]; try (simpl in Hlen; lia).
  cbn [app]. rewrite testFrom_cons. rewrite exec_size_none; [| exact Hr |].
  - rewrite andb_false_r. cbn [orb].
    inversion Hds as [| ? ? Hd1 Hds1]. subst.
    apply testFrom_word; [apply exec_size_nil, Hr | apply digit_word, Hd1 |].
    change (Forall (fun c => isWord c = true) ((d2 :: d3 :: ds) ++ txt "B")).
    apply Forall_app. split; [| repeat constructor].
    eapply Forall_impl; [exact Hds1 |]. intros c. apply digit_word.
  - cbn [take]. inversion Hds as [| ? ? Hd1 Hds1]. inversion Hds1 as [| ? ? Hd2 Hds2].
    inversion Hds2 as [| ? ? Hd3 _]. subst.
    repeat constructor; apply digit_digitOrDot; assumption.
Qed.

(** X27. A size of three or more digits followed by [B] (["120B"], ["405B"],
    ["671B"]) matches none of the patterns: the advice is the default
    ["8k"] with no note. *)
Theorem diagnoseModel_long_sizes (modelName : string) (ds : chars) :
  3 <= length ds -> Forall (fun c => isDigit c = true) ds ->
  adviceOf (diagnoseModel modelName (str (ds ++ txt "B"))) = ("8k", None).
Proof.
  intros Hlen Hds. rewrite adviceOf_diagnoseModel.
  rewrite !test_long_size by (try assumption; unfold sizePatterns; cbn [In]; tauto).
  reflexivity.
Qed.

Lemma diagnoseModel_long_sizes_witness :
  adviceOf (diagnoseModel "llama3.1:405b" (str (txt "405" ++ txt "B"))) = ("8k", None).
Proof.
  apply (diagnoseModel_long_sizes "llama3.1:405b" (txt "405")).
  - vm_compute. lia.
  - repeat constructor.
Defined.

(** Scanning a run of digits that ends at a decimal point. *)
Lemma exec_size_dot r rest : In r sizePatterns -> exec r ("."%char :: rest) = None.
Proof.
  intros Hr. size_pattern Hr; reflexivity.
Qed.

Lemma testFrom_digits r rest : forall ds d,
  In r sizePatterns ->
  isDigit d = true -> Forall (fun c => isDigit c = true) ds ->
  testFrom r (Some d) (ds ++ "."%char :: rest) = testFrom r None rest.
Proof.
  induction ds as [| d' ds IH]; intros d Hr Hd Hds; cbn [app]; rewrite testFrom_cons.
  - rewrite (exec_size_dot r rest Hr), andb_false_r. cbn [orb].
    apply testFrom_prev. reflexivity.
  - inversion Hds as [| ? ? Hd' Hds']. subst.
    unfold wordBoundary. cbn [isWordAt].
    rewrite (digit_word _ Hd), (digit_word _ Hd'). cbn [xorb andb orb].
    apply IH; assumption.
Qed.

Lemma exec_size_point r d rest :
  In r sizePatterns -> exec r (d :: "."%char :: rest) = None.
Proof.
  intros Hr. pose proof (digit_not_B "." eq_refl) as Hpoint.
  size_pattern Hr;
    unfold exec, sizeSmall, size8B, size14B, sizeMid, sizeLarge;
    cbn [run lit txt list_ascii_of_string];
    change (isCI "1" ".") with false; change (isCI "2" ".") with false;
    change (isCI "0" ".") with false; change (inRange "0" "4" ".") with false;
    change (inRange "0" "9" ".") with false;
    rewrite ?Hpoint;
    repeat match goal with
    | |- context [if ?c then _ else _] => destruct c
    end; reflexivity.
Qed.

Lemma test_decimal r whole rest :
  In r sizePatterns ->
  whole <> [] -> Forall (fun c => isDigit c = true) whole ->
  test r (str (whole ++ "."%char :: rest)) = test r (str rest).
Proof.
  intros Hr Hne Hwhole. unfold test. rewrite !RedactProps.txt_str.
  destruct whole as [| d whole]; [contradiction |].
  inversion Hwhole as [| ? ? Hd Hwhole']. subst.
  cbn [app]. rewrite testFrom_cons.
  assert (Hhead : exec r (d :: whole ++ "."%char :: rest) = None).
  { destruct whole as [| d2 whole]; [apply exec_size_point, Hr |].
    inversion Hwhole' as [| ? ? Hd2 Hwhole'']. subst.
    apply exec_size_none; [exact Hr |].
    destruct whole as [| d3 whole]; cbn [app take].
    - repeat constructor; try (apply digit_digitOrDot; assumption).
    - inversion Hwhole'' as [| ? ? Hd3 _]. subst.
      repeat constructor; apply digit_digitOrDot; assumption. }
  rewrite Hhead, andb_false_r. cbn [orb]. apply testFrom_digits; assumption.
Qed.

(** X28. A size with a decimal point is judged by what follows the point: the
    whole part before it has no say, so ["7.6B"] gets the advice of ["6B"]
    and ["13.2B"] that of ["2B"]. *)
Theorem diagnoseModel_decimal_sizes (modelName : string) (whole rest : chars) :
  whole <> [] -> Forall (fun c => isDigit c = true) whole ->
  adviceOf (diagnoseModel modelName (str (whole ++ "."%char :: rest)))
    = adviceOf (diagnoseModel modelName (str rest)).
Proof.
  intros Hne Hwhole. rewrite !adviceOf_diagnoseModel.
  rewrite !(test_decimal _ whole rest)
    by (try assumption; unfold sizePatterns; cbn [In]; tauto).
  reflexivity.
Qed.

Lemma diagnoseModel_decimal_sizes_witness :
  adviceOf (diagnoseModel "qwen2.5:14b" (str (txt "14" ++ "."%char :: txt "8B")))
    = adviceOf (diagnoseModel "qwen2.5:14b" (str (txt "8B"))).
Proof.
  apply (diagnoseModel_decimal_sizes "qwen2.5:14b" (txt "14") (txt "8B")).
  - discriminate.
  - repeat constructor.
Defined.

End DiagnosticsMore.
